(** * mod_pdf: the merge tool (mergepdf.py) and the resize tool (resizepdf.py)

    A shallow embedding of the two scripts and the properties their
    specification states about them.

    Conventions of the embedding.
    - A Python [str] is a [string]; each [ascii] stands for the code point
      of the same number, so the strings covered are those over
      U+0000..U+00FF.  The character classes below are the ones CPython
      uses on that range.
    - A Python [int] is a [Z] (unbounded); [int(str)] refuses a string of
      more than 4300 digits, the default limit of the interpreter.
    - A Python [float] is an IEEE 754 binary64, computed with the
      operations of [SpecFloat]; the box of a page is kept by MuPDF in
      binary32.
    - A Python exception is a value of [exn]; code that can raise returns a
      [result].
    - [print] appends a line to a log. Prompts, progress bars, banners and
      statistics are left out; warnings, errors and the final messages are
      kept.
    - Paths are POSIX paths, taken as they are spelt: the file system is
      a map from the strings the scripts pass, and two spellings of one
      path are two keys.
    - The libraries (PyMuPDF, zipfile, img2pdf) are embedded by what the
      scripts rely on: what a call returns, what it changes and when it
      raises. Which documents are open is tracked by the calls of [open]
      and [close]; garbage collection is not part of the embedding. *)

From Stdlib Require Import ZArith QArith Qpower Qminmax Lia Lqa Ascii.
From Stdlib Require Import Floats.SpecFloat.
From stdpp Require Import base option list sorting strings gmap.

Local Open Scope Z_scope.

(** ** Exceptions and results *)

Inductive exn : Type :=
  | ValueError (msg : string)
  | TypeError (msg : string)
  | ZeroDivisionError
  | OverflowError
  | OSError (msg : string)
  | EOFError
  | LibraryError (msg : string).

Inductive result (A : Type) : Type :=
  | Ok (a : A)
  | Raise (e : exn).
Arguments Ok {A} a.
Arguments Raise {A} e.

Definition rbind {A B} (m : result A) (k : A -> result B) : result B :=
  match m with
  | Ok a => k a
  | Raise e => Raise e
  end.

Notation "x <-? m ; k" := (rbind m (fun x => k))
  (at level 100, m at next level, right associativity).

Fixpoint rmapM {A B} (f : A -> result B) (l : list A) : result (list B) :=
  match l with
  | [] => Ok []
  | x :: l' => y <-? f x; ys <-? rmapM f l'; Ok (y :: ys)
  end.

(** ** Python text primitives *)

Module PyStr.

Definition code (c : ascii) : N := N_of_ascii c.

(** [\d] of [re] on a [str] pattern, and [str.isdecimal]: category Nd. *)
Definition is_decimal (c : ascii) : bool :=
  ((48 <=? code c) && (code c <=? 57))%N.

(** One character of [str.isdigit]: the decimal digits and the
    superscripts U+00B2, U+00B3, U+00B9. *)
Definition chr_isdigit (c : ascii) : bool :=
  is_decimal c
  || (code c =? 178)%N || (code c =? 179)%N || (code c =? 185)%N.

(** [str.isdigit]: all characters are digits and there is at least one. *)
Fixpoint all_isdigit (s : string) : bool :=
  match s with
  | EmptyString => true
  | String c s' => chr_isdigit c && all_isdigit s'
  end.

Definition isdigit (s : string) : bool :=
  match s with
  | EmptyString => false
  | _ => all_isdigit s
  end.

(** One character of [str.lower]: A-Z and U+00C0..U+00DE except the
    multiplication sign U+00D7 move up by 32. *)
Definition chr_lower (c : ascii) : ascii :=
  let n := code c in
  if ((65 <=? n) && (n <=? 90)
      || (192 <=? n) && (n <=? 222) && negb (n =? 215))%N
  then ascii_of_N (n + 32) else c.

Fixpoint lower (s : string) : string :=
  match s with
  | EmptyString => EmptyString
  | String c s' => String (chr_lower c) (lower s')
  end.

(** [s < t] and [s == t] on [str]: code point order, lexicographic. *)
Definition ltb (s t : string) : bool :=
  match String.compare s t with Lt => true | _ => false end.

Definition eqb (s t : string) : bool := String.eqb s t.

(** [s.endswith(suffix)] and [s.startswith(prefix)]. *)
Fixpoint startswith (s p : string) : bool :=
  match p, s with
  | EmptyString, _ => true
  | String a p', String b s' => Ascii.eqb a b && startswith s' p'
  | String _ _, EmptyString => false
  end.

Definition endswith (s suffix : string) : bool :=
  startswith (String.rev s) (String.rev suffix).

(** [s.endswith((a, b, ...))] with a tuple of suffixes. *)
Definition endswith_any (s : string) (suffixes : list string) : bool :=
  existsb (endswith s) suffixes.

(** [str.isspace] on one character. *)
Definition chr_isspace (c : ascii) : bool :=
  let n := code c in
  ((9 <=? n) && (n <=? 13) || (28 <=? n) && (n <=? 32)
   || (n =? 133) || (n =? 160))%N.

Fixpoint lstrip_by (drop : ascii -> bool) (s : string) : string :=
  match s with
  | EmptyString => EmptyString
  | String c s' => if drop c then lstrip_by drop s' else s
  end.

Definition strip_by (drop : ascii -> bool) (s : string) : string :=
  String.rev (lstrip_by drop (String.rev (lstrip_by drop s))).

(** [s.strip()] *)
Definition strip (s : string) : string := strip_by chr_isspace s.

Fixpoint mem_chr (c : ascii) (chars : string) : bool :=
  match chars with
  | EmptyString => false
  | String a chars' => Ascii.eqb a c || mem_chr c chars'
  end.

(** [s.strip(chars)] *)
Definition strip_chars (s chars : string) : string :=
  strip_by (fun c => mem_chr c chars) s.

(** [s[n:]] for [0 <= n] *)
Fixpoint drop (n : nat) (s : string) : string :=
  match n, s with
  | O, _ => s
  | S n', String _ s' => drop n' s'
  | S _, EmptyString => EmptyString
  end.

(** [s.rfind(c)] for a single character: the last index, or [-1]. *)
Fixpoint rfind_from (i : Z) (c : ascii) (s : string) : Z :=
  match s with
  | EmptyString => -1
  | String a s' =>
      let r := rfind_from (i + 1) c s' in
      if 0 <=? r then r else if Ascii.eqb a c then i else -1
  end.

Definition rfind (s : string) (c : ascii) : Z := rfind_from 0 c s.

Fixpoint all_chr (p : ascii -> bool) (s : string) : bool :=
  match s with
  | EmptyString => true
  | String c s' => p c && all_chr p s'
  end.

Fixpoint any_chr (p : ascii -> bool) (s : string) : bool :=
  match s with
  | EmptyString => false
  | String c s' => p c || any_chr p s'
  end.

(** [int(s)] in base 10: white space around is dropped, a sign may come
    first, then decimal digits, single underscores allowed between two
    digits. Anything else raises [ValueError]; a superscript digit, which
    [isdigit] accepts, is refused here. A well-formed string of more than
    [max_str_digits] digits is refused too, with a [ValueError] of its
    own. *)
Definition digit_value (c : ascii) : Z := Z.of_N (code c) - 48.

Definition invalid_literal : exn :=
  ValueError "invalid literal for int() with base 10".

(** [sys.get_int_max_str_digits()], which the scripts leave at its
    default. *)
Definition max_str_digits : Z := 4300.

Definition digit_limit : exn :=
  ValueError "Exceeds the limit (4300 digits) for integer string conversion".

(** [count] is the number of digits read so far. *)
Fixpoint int_digits (after_underscore : bool) (acc count : Z) (s : string)
  : result Z :=
  match s with
  | EmptyString =>
      if after_underscore then Raise invalid_literal
      else if max_str_digits <? count then Raise digit_limit
      else Ok acc
  | String c s' =>
      if is_decimal c
      then int_digits false (10 * acc + digit_value c) (count + 1) s'
      else if Ascii.eqb c "_" && negb after_underscore
      then int_digits true acc count s'
      else Raise invalid_literal
  end.

Definition int (s : string) : result Z :=
  match strip s with
  | EmptyString => Raise invalid_literal
  | String c s' =>
      if Ascii.eqb c "+" then int_digits true 0 0 s'
      else if Ascii.eqb c "-" then n <-? int_digits true 0 0 s'; Ok (- n)
      else int_digits true 0 0 (String c s')
  end.

End PyStr.

(** ** [os.path] (posixpath) *)

Module OsPath.

(** [os.path.join(a, b)] *)
Definition join (a b : string) : string :=
  if PyStr.startswith b "/" then b
  else if PyStr.eqb a "" || PyStr.endswith a "/" then a +:+ b
  else a +:+ "/" +:+ b.

(** [os.path.splitext(p)]: the extension starts at the last dot of the
    last component, unless only dots come before it in that component. *)
Definition splitext (p : string) : string * string :=
  let sep_index := PyStr.rfind p "/" in
  let dot_index := PyStr.rfind p "." in
  if sep_index <? dot_index then
    let lead :=
      String.substring (Z.to_nat (sep_index + 1))
                       (Z.to_nat (dot_index - sep_index - 1)) p in
    if PyStr.any_chr (fun c => negb (Ascii.eqb c ".")) lead then
      (String.substring 0 (Z.to_nat dot_index) p,
       PyStr.drop (Z.to_nat dot_index) p)
    else (p, "")
  else (p, "").

Definition rstrip_by (drop : ascii -> bool) (s : string) : string :=
  String.rev (PyStr.lstrip_by drop (String.rev s)).

(** [os.path.dirname(p)]: what comes before the last slash, without its
    trailing slashes unless it is made of slashes only. *)
Definition dirname (p : string) : string :=
  let i := PyStr.rfind p "/" + 1 in
  let head := String.substring 0 (Z.to_nat i) p in
  if negb (PyStr.eqb head "") && negb (PyStr.all_chr (Ascii.eqb "/") head)
  then rstrip_by (Ascii.eqb "/") head
  else head.

(** The ancestors of [p] that [Path(p).mkdir(parents=True)] may have to
    make, outermost first: what comes before each slash of [p], unless it
    is empty or ends with a slash itself. [acc] is what was read so far. *)
Fixpoint ancestors_from (acc : string) (s : string) : list string :=
  match s with
  | EmptyString => []
  | String c s' =>
      let rest := ancestors_from (acc +:+ String c EmptyString) s' in
      if Ascii.eqb c "/" && negb (PyStr.eqb acc "")
         && negb (PyStr.endswith acc "/")
      then acc :: rest
      else rest
  end.

Definition ancestors (p : string) : list string := ancestors_from "" p.

End OsPath.

(** ** [re.split(r'(\d+)', s)]

    The pattern has one capturing group, so the result alternates the text
    between matches and the matched digit runs: it starts and ends with a
    text (possibly empty). The scan keeps the run read so far in [acc];
    [in_digits] tells which kind of run it is. *)

Module Re.

Definition snoc (s : string) (c : ascii) : string :=
  String.append s (String c EmptyString).

Fixpoint split_aux (in_digits : bool) (acc : string) (s : string)
  : list string :=
  match s with
  | EmptyString => if in_digits then [acc; ""] else [acc]
  | String c s' =>
      if PyStr.is_decimal c then
        if in_digits then split_aux true (snoc acc c) s'
        else acc :: split_aux true (String c EmptyString) s'
      else
        if in_digits then acc :: split_aux false (String c EmptyString) s'
        else split_aux false (snoc acc c) s'
  end.

Definition split_digits (s : string) : list string :=
  split_aux false "" s.

End Re.

(** ** mergepdf.py: [natural_sort_key] *)

(** An element of a key: [int(text)] or [text.lower()]. *)
Inductive token : Type :=
  | Num (n : Z)
  | Text (s : string).

Definition key_of_text (text : string) : result token :=
  if PyStr.isdigit text then n <-? PyStr.int text; Ok (Num n)
  else Ok (Text (PyStr.lower text)).

Definition natural_sort_key (s : string) : result (list token) :=
  rmapM key_of_text (Re.split_digits s).

(** *** Comparison of keys, as Python compares lists

    [a == b] on an [int] and a [str] is [False]; [a < b] on them raises
    [TypeError]. A list comparison looks for the first position where the
    elements are not equal and compares them there; when one list is a
    prefix of the other, the shorter one is smaller. *)

Definition token_eqb (a b : token) : bool :=
  match a, b with
  | Num x, Num y => (x =? y)%Z
  | Text s, Text t => PyStr.eqb s t
  | _, _ => false
  end.

Definition token_ltb (a b : token) : result bool :=
  match a, b with
  | Num x, Num y => Ok (x <? y)%Z
  | Text s, Text t => Ok (PyStr.ltb s t)
  | Num _, Text _ =>
      Raise (TypeError "'<' not supported between instances of 'int' and 'str'")
  | Text _, Num _ =>
      Raise (TypeError "'<' not supported between instances of 'str' and 'int'")
  end.

Fixpoint key_ltb (a b : list token) : result bool :=
  match a, b with
  | [], [] => Ok false
  | [], _ :: _ => Ok true
  | _ :: _, [] => Ok false
  | x :: a', y :: b' =>
      if token_eqb x y then key_ltb a' b' else token_ltb x y
  end.

(** *** [list.sort(key=...)]

    The keys are computed first (an exception there leaves the list as it
    was), then the elements are ordered by [<] on their keys. Python's sort
    is stable. It is embedded as a stable insertion sort: on keys that [<]
    orders without raising, every stable sort gives the same list. *)

Section Sort.
Context {A : Type}.

Fixpoint insert_by_key (x : list token * A) (l : list (list token * A))
  : result (list (list token * A)) :=
  match l with
  | [] => Ok [x]
  | y :: l' =>
      b <-? key_ltb (fst y) (fst x);
      if (b : bool) then l'' <-? insert_by_key x l'; Ok (y :: l'')
      else Ok (x :: y :: l')
  end.

Fixpoint sort_keyed (l : list (list token * A))
  : result (list (list token * A)) :=
  match l with
  | [] => Ok []
  | x :: l' => s <-? sort_keyed l'; insert_by_key x s
  end.

Definition list_sort (key : A -> result (list token)) (l : list A)
  : result (list A) :=
  keyed <-? rmapM (fun x => k <-? key x; Ok (k, x)) l;
  sorted <-? sort_keyed keyed;
  Ok (map snd sorted).
End Sort.

(** ** IEEE 754 binary64, the [float] of Python *)

Module Float.
Definition float : Type := spec_float.
Definition prec : Z := 53.
Definition emax : Z := 1024.

(** The binary64 nearest to an integer (an infinity when it is out of
    range). *)
Definition of_int (n : Z) : float := binary_normalize prec emax n 0 false.

(** The conversion of an [int] operand in [int / float] and
    [int - float]: it raises when the nearest binary64 is out of range. *)
Definition from_int (n : Z) : result float :=
  match of_int n with
  | S754_infinity _ => Raise OverflowError
  | x => Ok x
  end.

Definition add : float -> float -> float := SFadd prec emax.
Definition sub : float -> float -> float := SFsub prec emax.
Definition mul : float -> float -> float := SFmul prec emax.
Definition ltb : float -> float -> bool := SFltb.
Definition leb : float -> float -> bool := SFleb.

Definition is_zero (x : float) : bool :=
  match x with S754_zero _ => true | _ => false end.

(** [a / b]: division by zero raises. *)
Definition div (a b : float) : result float :=
  if is_zero b then Raise ZeroDivisionError else Ok (SFdiv prec emax a b).

(** The binary32 nearest to [x], given back as a binary64 (every
    binary32 is one): the conversion from [double] to [float] that a
    number goes through when MuPDF stores it in a page box. *)
Definition to_single (x : float) : float :=
  match x with
  | S754_finite s m e =>
      match binary_normalize 24 128 (cond_Zopp s (Zpos m)) e s with
      | S754_finite s' m' e' =>
          binary_normalize prec emax (cond_Zopp s' (Zpos m')) e' s'
      | y => y
      end
  | _ => x
  end.

Definition is_finite (x : float) : bool :=
  match x with
  | S754_zero _ | S754_finite _ _ _ => true
  | _ => false
  end.

(** A finite float as the rational it denotes (0 for the others). *)
Definition to_Q (x : float) : Q :=
  match x with
  | S754_finite s m e =>
      let v := (inject_Z (Zpos m) * Qpower 2 e)%Q in
      if s then Qopp v else v
  | _ => 0%Q
  end.
End Float.

(** ** The world the scripts run in

    The file system maps a path to a directory, a ZIP archive, a document
    PyMuPDF can open, or other bytes. A page of a document is kept abstract
    but for what the scripts look at: its rectangle and where it came from. *)

Inductive page : Type :=
  (** a page of an input document: [page.rect] width and height, content *)
  | PdfPage (w h : Float.float) (body : string)
  (** a page [img2pdf] made around the bytes of one image *)
  | ImagePage (w h : Float.float) (image : string)
  (** [new_page(width, height)] followed by
      [insert_image(Rect(x0, y0, x1, y1), pixmap)], the pixmap being the
      render of [src] under [Matrix(scale, scale)] *)
  | ComposedPage (width height : Z) (x0 y0 x1 y1 : Float.float)
      (src : page) (scale : Float.float).

Record document : Type := MkDocument {
  doc_pages : list page;
  (** [Some msg] when [insert_pdf] refuses the document as a source, as it
      does for one that needs a password or that is not a PDF *)
  doc_insert_error : option string;
  (** [Some msg] when [doc[i]] refuses to load a page, as it does for a
      document that needs a password *)
  doc_load_error : option string;
}.

(** A document whose pages load, as is every document the scripts save. *)
Definition Document (pages : list page) (insert_error : option string)
  : document :=
  MkDocument pages insert_error None.

Record zip_entry : Type := ZipEntry {
  entry_name : string;
  (** the bytes of the entry, or [None] when reading it fails *)
  entry_data : option string;
}.

Inductive node : Type :=
  | Dir
  | Zip (entries : list zip_entry)
  | Pdf (d : document)
  | Blob (data : string).

(** What the libraries and the operating system decide and the scripts
    cannot see in advance. *)
Record platform : Type := Platform {
  (** [img2pdf]: the page sizes for the frames of an image, one page for
      each frame, [None] when it refuses the image *)
  image_layout : string -> option (list (Float.float * Float.float));
  (** opening a path for writing: [Some msg] when it fails *)
  write_error : string -> option string;
  (** [os.mkdir(p)] for a path that is free and whose parent is there:
      [Some msg] when the system refuses *)
  mkdir_error : string -> option string;
  (** [page.get_pixmap(matrix=Matrix(s, s))]: [Some msg] on failure *)
  pixmap_error : page -> Float.float -> option string;
  (** [insert_image(Rect(x0, y0, x1, y1), ...)]: [Some msg] on failure *)
  insert_image_error :
    Float.float -> Float.float -> Float.float -> Float.float -> option string;
  (** [os.walk(top)]: the [(root, files)] pairs in the order it yields them *)
  walk : string -> list (string * list string);
}.

Record world : Type := World {
  fs : gmap string node;
  stdin : list string;
  stdout : list string;
  (** the [fitz] documents opened and not closed by [close()], by handle *)
  open_docs : gset nat;
  next_doc : nat;
}.

(** ** The monad of a script: state that survives an exception *)

Definition M (A : Type) : Type := world -> result A * world.

Definition ret {A} (a : A) : M A := fun w => (Ok a, w).

Definition raise {A} (e : exn) : M A := fun w => (Raise e, w).

Definition bind {A B} (m : M A) (k : A -> M B) : M B :=
  fun w =>
    match m w with
    | (Ok a, w') => k a w'
    | (Raise e, w') => (Raise e, w')
    end.

(** [try: body  except ValueError: handler] *)
Definition try_except_ValueError {A} (body : M A) (handler : M A) : M A :=
  fun w =>
    match body w with
    | (Raise (ValueError _), w') => handler w'
    | r => r
    end.

(** [try: body  except Exception as e: handler e] *)
Definition try_except {A} (body : M A) (handler : exn -> M A) : M A :=
  fun w =>
    match body w with
    | (Ok a, w') => (Ok a, w')
    | (Raise e, w') => handler e w'
    end.

Definition lift {A} (r : result A) : M A := fun w => (r, w).

Notation "'do' x <- m ; k" := (bind m (fun x => k))
  (at level 10, x name, m at level 100, k at level 200).
Notation "'do' ' p <- m ; k" := (bind m (fun p => k))
  (at level 10, p pattern, m at level 100, k at level 200).
Notation "m ;; k" := (bind m (fun _ => k))
  (at level 100, right associativity).

Fixpoint mapM {A B} (f : A -> M B) (l : list A) : M (list B) :=
  match l with
  | [] => ret []
  | x :: l' => do y <- f x; do ys <- mapM f l'; ret (y :: ys)
  end.

Definition str_of_exn (e : exn) : string :=
  match e with
  | ValueError m | TypeError m | OSError m | LibraryError m => m
  | ZeroDivisionError => "division by zero"
  | OverflowError => "int too large to convert to float"
  | EOFError => "EOF when reading a line"
  end.

(** *** Primitive actions *)

Definition print (line : string) : M unit :=
  fun w => (Ok tt, World (fs w) (stdin w) (stdout w ++ [line])
                         (open_docs w) (next_doc w)).

(** [input(prompt)]: a line is read (the prompt is not logged); end of
    input raises. *)
Definition input : M string :=
  fun w =>
    match stdin w with
    | [] => (Raise EOFError, w)
    | l :: rest =>
        (Ok l, World (fs w) rest (stdout w) (open_docs w) (next_doc w))
    end.

Definition get_fs : M (gmap string node) := fun w => (Ok (fs w), w).

Definition put_file (path : string) (n : node) : M unit :=
  fun w => (Ok tt, World (<[path := n]> (fs w)) (stdin w) (stdout w)
                         (open_docs w) (next_doc w)).

(** [os.path.exists] and [os.path.isdir] *)
Definition path_exists (path : string) : M bool :=
  fun w => (Ok (bool_decide (is_Some (fs w !! path))), w).

Definition path_isdir (path : string) : M bool :=
  fun w => (Ok (match fs w !! path with Some Dir => true | _ => false end), w).

(** *** PyMuPDF ([fitz]), [zipfile] and [img2pdf] *)

Definition alloc_doc : M nat :=
  fun w => (Ok (next_doc w),
            World (fs w) (stdin w) (stdout w)
                  ({[next_doc w]} ∪ open_docs w) (S (next_doc w))).

(** [fitz.open(path)]: a handle on the document and its contents. *)
Definition fitz_open (path : string) : M (nat * document) :=
  do files <- get_fs;
  match files !! path with
  | Some (Pdf d) => do h <- alloc_doc; ret (h, d)
  | Some _ => raise (LibraryError "cannot open broken document")
  | None => raise (LibraryError "no such file")
  end.

(** [fitz.open()]: a new empty document. *)
Definition fitz_new : M nat := alloc_doc.

(** [doc.close()] *)
Definition fitz_close (h : nat) : M unit :=
  fun w => (Ok tt, World (fs w) (stdin w) (stdout w)
                         (open_docs w ∖ {[h]}) (next_doc w)).

(** [output_doc.insert_pdf(src)]: all pages of [src] are appended. *)
Definition insert_pdf (out : list page) (src : document) : result (list page) :=
  match doc_insert_error src with
  | Some msg => Raise (LibraryError msg)
  | None => Ok (out ++ doc_pages src)
  end.

(** [os.path.getsize(path)]; the size itself is only printed. *)
Definition getsize (path : string) : M unit :=
  do files <- get_fs;
  match files !! path with
  | Some _ => ret tt
  | None => raise (OSError "No such file or directory")
  end.

(** [Path(path).mkdir(parents=True, exist_ok=True)]. The missing
    ancestors are made first, outermost first; a directory that is there
    is left alone, anything else in the way raises. A path with a null
    character raises [ValueError] before anything is made. *)
Fixpoint make_parents (P : platform) (dirs : list string) : M unit :=
  match dirs with
  | [] => ret tt
  | d :: rest =>
      do files <- get_fs;
      match files !! d with
      | Some Dir => make_parents P rest
      | Some _ => raise (OSError "Not a directory")
      | None =>
          match mkdir_error P d with
          | Some msg => raise (OSError msg)
          | None => put_file d Dir ;; make_parents P rest
          end
      end
  end.

Definition mkdir (P : platform) (path : string) : M unit :=
  if PyStr.any_chr (Ascii.eqb "000") path
  then raise (ValueError "embedded null byte")
  else
    make_parents P (OsPath.ancestors path) ;;
    do files <- get_fs;
    match files !! path with
    | Some Dir => ret tt
    | Some _ => raise (OSError "File exists")
    | None =>
        match mkdir_error P path with
        | Some msg => raise (OSError msg)
        | None => put_file path Dir
        end
    end.

(** [doc.save(path, garbage=4, deflate=True, clean=True)]: PyMuPDF refuses
    to save a document without pages; the options do not change the pages. *)
Definition fitz_save (P : platform) (pages : list page) (path : string)
  : M unit :=
  match pages with
  | [] => raise (ValueError "cannot save with zero pages")
  | _ =>
      match write_error P path with
      | Some msg => raise (OSError msg)
      | None => put_file path (Pdf (Document pages None))
      end
  end.

(** [zipfile.ZipFile(path, 'r')] *)
Definition zip_open (path : string) : M (list zip_entry) :=
  do files <- get_fs;
  match files !! path with
  | Some (Zip entries) => ret entries
  | Some _ => raise (LibraryError "File is not a zip file")
  | None => raise (OSError "No such file or directory")
  end.

(** [archive.namelist()] *)
Definition namelist (archive : list zip_entry) : list string :=
  map entry_name archive.

(** [archive.open(name).read()]: a name is looked up in a dictionary the
    later entries of the archive overwrite, so the last entry of that name
    is read. *)
Fixpoint zip_getinfo (archive : list zip_entry) (name : string)
  : option zip_entry :=
  match archive with
  | [] => None
  | e :: rest =>
      match zip_getinfo rest name with
      | Some e' => Some e'
      | None => if PyStr.eqb (entry_name e) name then Some e else None
      end
  end.

Definition zip_read (archive : list zip_entry) (name : string)
  : result string :=
  match zip_getinfo archive name with
  | None => Raise (LibraryError "There is no item of that name in the archive")
  | Some e =>
      match entry_data e with
      | Some data => Ok data
      | None => Raise (LibraryError "Bad CRC-32")
      end
  end.

(** [open(path, "wb")]: the file is created, or emptied when it exists. *)
Definition open_wb (P : platform) (path : string) : M unit :=
  match write_error P path with
  | Some msg => raise (OSError msg)
  | None => put_file path (Blob "")
  end.

(** [img2pdf.convert(images)]: one page around each frame of each image,
    in order. An image file has one frame, but for the formats that hold
    several. *)
Definition image_pages (P : platform) (img : string) : result (list page) :=
  match image_layout P img with
  | Some frames => Ok (map (fun '(w, h) => ImagePage w h img) frames)
  | None => Raise (LibraryError "cannot read input image")
  end.

Definition img2pdf_convert (P : platform) (images : list string)
  : result (list page) :=
  pages <-? rmapM (image_pages P) images;
  Ok (concat pages).

(** ** mergepdf.py *)

(** The one-character string holding a double quote. *)
Definition dquote : string := String "034" EmptyString.

Module Mergepdf.
Section WithPlatform.
Variable P : platform.

Definition image_suffixes : list string := [".jpg"; ".jpeg"; ".png"].

Definition is_image_name (f : string) : bool :=
  PyStr.endswith_any (PyStr.lower f) image_suffixes.

(** [cbz_to_pdf(cbz_path, output_path, current_num, total_num)]; the two
    numbers are only printed. [None] is returned on every path that does
    not write the PDF. *)
Definition cbz_to_pdf (cbz_path output_path : string) : M (option string) :=
  try_except
    (do archive <- zip_open cbz_path;
     let image_files := List.filter is_image_name (namelist archive) in
     match image_files with
     | [] =>
         print ("WARNING: No images found in " +:+ cbz_path) ;;
         ret None
     | _ =>
         do image_files <- lift (list_sort natural_sort_key image_files);
         do images_data <- lift (rmapM (zip_read archive) image_files);
         open_wb P output_path ;;
         do pages <- lift (img2pdf_convert P images_data);
         put_file output_path (Pdf (Document pages None)) ;;
         ret (Some output_path)
     end)
    (fun e =>
       print ("ERROR converting " +:+ cbz_path +:+ ": " +:+ str_of_exn e) ;;
       ret None).

(** [find_files_recursively(folder_path, extensions)] *)
Definition find_files_recursively (folder_path : string)
    (extensions : list string) : list string :=
  flat_map
    (fun '(root, files) =>
       map (OsPath.join root)
           (List.filter
              (fun f => PyStr.endswith_any (PyStr.lower f) extensions)
              files))
    (walk P folder_path).

Definition clean_path (line : string) : string :=
  let p := PyStr.strip line in
  let p := PyStr.strip_chars (PyStr.strip_chars p dquote) "'" in
  if PyStr.startswith p "file:///" then PyStr.drop 8 p
  else if PyStr.startswith p "file://" then PyStr.drop 7 p
  else p.

(** [get_valid_folder_path()]: the [while True] loop reads one line per
    round; [fuel] bounds the rounds and the lines left bound them too. *)
Fixpoint get_valid_folder_path_loop (fuel : nat) : M string :=
  match fuel with
  | O => raise EOFError
  | S fuel' =>
      do line <- input;
      let folder_path := clean_path line in
      do ok <- path_isdir folder_path;
      if (ok : bool) then ret folder_path
      else
        print "ERROR: Folder does not exist. Please enter a valid path." ;;
        get_valid_folder_path_loop fuel'
  end.

Definition get_valid_folder_path : M string :=
  fun w => get_valid_folder_path_loop (S (length (stdin w))) w.

(** [get_output_name()] *)
Definition get_output_name : M string :=
  do line <- input;
  let output_name := PyStr.strip line in
  if PyStr.eqb output_name "" then ret "merged_output.pdf"
  else if negb (PyStr.endswith (PyStr.lower output_name) ".pdf")
  then ret (output_name +:+ ".pdf")
  else ret output_name.

(** [get_output_directory(default_dir)] *)
Definition get_output_directory (default_dir : string) : M string :=
  do line <- input;
  let output_dir := PyStr.strip line in
  if PyStr.eqb output_dir "" then ret default_dir
  else
    let output_dir :=
      PyStr.strip_chars (PyStr.strip_chars output_dir dquote) "'" in
    do found <- path_exists output_dir;
    if (found : bool) then ret output_dir
    else
      try_except
        (mkdir P output_dir ;;
         print ("Directory created: " +:+ output_dir) ;;
         ret output_dir)
        (fun e =>
           print ("ERROR: Could not create directory: " +:+ str_of_exn e) ;;
           print ("Using default directory: " +:+ default_dir) ;;
           ret default_dir).

(** One round of the loop of [merge_pdfs_high_quality]: [out] holds the
    pages of [output_doc]. [pdf_doc.close()] is the last statement of the
    [try] body. *)
Definition merge_one (out : list page) (pdf_path : string)
  : M (list page) :=
  try_except
    (do '(pdf_doc, contents) <- fitz_open pdf_path;
     do out' <- lift (insert_pdf out contents);
     fitz_close pdf_doc ;;
     ret out')
    (fun e =>
       print ("WARNING: Could not merge " +:+ pdf_path +:+ ": "
              +:+ str_of_exn e) ;;
       ret out).

Fixpoint merge_loop (out : list page) (pdf_files : list string)
  : M (list page) :=
  match pdf_files with
  | [] => ret out
  | pdf_path :: rest =>
      do out' <- merge_one out pdf_path;
      merge_loop out' rest
  end.

(** [merge_pdfs_high_quality(pdf_files, output_path)] *)
Definition merge_pdfs_high_quality (pdf_files : list string)
    (output_path : string) : M unit :=
  do output_doc <- fitz_new;
  do pages <- merge_loop [] pdf_files;
  fitz_save P pages output_path ;;
  fitz_close output_doc.

(** [if result:] on what [cbz_to_pdf] returned *)
Definition truthy (r : option string) : bool :=
  match r with
  | Some s => negb (PyStr.eqb s "")
  | None => false
  end.

(** The loop of [main] over the archives: [pdf_files] grows by the
    outputs that were written. *)
Fixpoint convert_all (cbz_files pdf_files : list string)
  : M (list string) :=
  match cbz_files with
  | [] => ret pdf_files
  | cbz :: rest =>
      let pdf_out := fst (OsPath.splitext cbz) +:+ ".pdf" in
      do r <- cbz_to_pdf cbz pdf_out;
      match r with
      | Some out =>
          if truthy r then convert_all rest (pdf_files ++ [out])
          else convert_all rest pdf_files
      | None => convert_all rest pdf_files
      end
  end.

(** [main()] from the point where the output location is known. *)
Definition run (pdf_files cbz_files : list string) (output_path : string)
  : M unit :=
  do confirm <- input;
  if PyStr.eqb (PyStr.lower (PyStr.strip confirm)) "no"
  then print "Operation cancelled by user."
  else
    do pdf_files <- convert_all cbz_files pdf_files;
    do pdf_files <- lift (list_sort natural_sort_key pdf_files);
    try_except
      (merge_pdfs_high_quality pdf_files output_path ;;
       getsize output_path ;;
       print "Process completed successfully!")
      (fun e =>
         print ("ERROR: Could not save merged PDF: " +:+ str_of_exn e)).

Definition main : M unit :=
  do folder_path <- get_valid_folder_path;
  let pdf_files := find_files_recursively folder_path [".pdf"] in
  let cbz_files := find_files_recursively folder_path [".cbz"] in
  match pdf_files, cbz_files with
  | [], [] =>
      print "ERROR: No PDF or CBZ files found in the specified folder."
  | _, _ =>
      do output_name <- get_output_name;
      do output_dir <- get_output_directory folder_path;
      run pdf_files cbz_files (OsPath.join output_dir output_name)
  end.
End WithPlatform.
End Mergepdf.

(** ** resizepdf.py *)

(** [min(a, b)] on two floats: [b] when [b < a], else [a]. *)
Definition py_min (a b : Float.float) : Float.float :=
  if Float.ltb b a then b else a.

Record geometry : Type := Geometry {
  scale : Float.float;
  new_width : Float.float;
  new_height : Float.float;
  x_offset : Float.float;
  y_offset : Float.float;
}.

(** Lines 67-95 of [resize_pdf]: the scale factor, the new dimensions and
    the position that centres the image. The targets are [int]s, converted
    where they meet a float; every operation is one of binary64. *)
Definition page_geometry (target_width target_height : Z)
    (current_width current_height : Float.float) : result geometry :=
  width <-? Float.from_int target_width;
  scale_x <-? Float.div width current_width;
  height <-? Float.from_int target_height;
  scale_y <-? Float.div height current_height;
  let scale := py_min scale_x scale_y in
  let new_width := Float.mul current_width scale in
  let new_height := Float.mul current_height scale in
  two <-? Float.from_int 2;
  x_offset <-? Float.div (Float.sub width new_width) two;
  y_offset <-? Float.div (Float.sub height new_height) two;
  Ok (Geometry scale new_width new_height x_offset y_offset).

Module Resizepdf.
Section WithPlatform.
Variable P : platform.

(** [page.rect.width] and [page.rect.height]. A page made by
    [new_page(width, height)] has the box MuPDF stored: the two numbers
    as binary32. *)
Definition page_rect (p : page) : Float.float * Float.float :=
  match p with
  | PdfPage w h _ => (w, h)
  | ImagePage w h _ => (w, h)
  | ComposedPage w h _ _ _ _ _ _ =>
      (Float.to_single (Float.of_int w), Float.to_single (Float.of_int h))
  end.

(** [doc_input[page_num]] *)
Definition load_page (doc_input : document) (p : page) : M page :=
  match doc_load_error doc_input with
  | Some msg => raise (ValueError msg)
  | None => ret p
  end.

Definition get_pixmap (p : page) (s : Float.float) : M unit :=
  match pixmap_error P p s with
  | Some msg => raise (LibraryError msg)
  | None => ret tt
  end.

Definition insert_image (x0 y0 x1 y1 : Float.float) : M unit :=
  match insert_image_error P x0 y0 x1 y1 with
  | Some msg => raise (LibraryError msg)
  | None => ret tt
  end.

(** The body of the loop over the pages: the page that is added to
    [doc_output]. *)
Definition resize_page (target_width target_height : Z)
    (doc_input : document) (p : page) : M page :=
  do p <- load_page doc_input p;
  let '(current_width, current_height) := page_rect p in
  do g <- lift (page_geometry target_width target_height
                              current_width current_height);
  get_pixmap p (scale g) ;;
  let x1 := Float.add (x_offset g) (new_width g) in
  let y1 := Float.add (y_offset g) (new_height g) in
  insert_image (x_offset g) (y_offset g) x1 y1 ;;
  ret (ComposedPage target_width target_height
                    (x_offset g) (y_offset g) x1 y1 p (scale g)).

(** [resize_pdf(input_path, output_dir, output_name, target_width,
    target_height)]. The directory is made before the [try]; the final
    statistics are only printed. *)
Definition resize_pdf (input_path output_dir output_name : string)
    (target_width target_height : Z) : M bool :=
  do found <- path_exists input_path;
  if negb found then
    print ("ERROR: File " +:+ input_path +:+ " does not exist!") ;;
    ret false
  else
    mkdir P output_dir ;;
    let output_path := OsPath.join output_dir output_name in
    try_except
      (do '(doc_input, contents) <- fitz_open input_path;
       do doc_output <- fitz_new;
       do pages <- mapM (resize_page target_width target_height contents)
                        (doc_pages contents);
       fitz_save P pages output_path ;;
       fitz_close doc_input ;;
       fitz_close doc_output ;;
       getsize input_path ;;
       getsize output_path ;;
       print "Process completed successfully!" ;;
       ret true)
      (fun e =>
         print ("ERROR during process: " +:+ str_of_exn e) ;;
         ret false).

(** [get_output_directory(default_dir)], the same text as in mergepdf.py *)
Definition get_output_directory (default_dir : string) : M string :=
  do line <- input;
  let output_dir := PyStr.strip line in
  if PyStr.eqb output_dir "" then ret default_dir
  else
    let output_dir :=
      PyStr.strip_chars (PyStr.strip_chars output_dir dquote) "'" in
    do found <- path_exists output_dir;
    if (found : bool) then ret output_dir
    else
      try_except
        (mkdir P output_dir ;;
         print ("Directory created: " +:+ output_dir) ;;
         ret output_dir)
        (fun e =>
           print ("ERROR: Could not create directory: " +:+ str_of_exn e) ;;
           print ("Using default directory: " +:+ default_dir) ;;
           ret default_dir).

Definition clean_path (line : string) : string :=
  let p := PyStr.strip line in
  let p := PyStr.strip_chars (PyStr.strip_chars p dquote) "'" in
  if PyStr.startswith p "file:///" then PyStr.drop 8 p
  else if PyStr.startswith p "file://" then PyStr.drop 7 p
  else p.

(** [get_valid_path()]: one line is read per round of the loop. *)
Fixpoint get_valid_path_loop (fuel : nat) : M string :=
  match fuel with
  | O => raise EOFError
  | S fuel' =>
      do line <- input;
      let path := clean_path line in
      do found <- path_exists path;
      if (found : bool) then
        if PyStr.endswith (PyStr.lower path) ".pdf" then ret path
        else
          print "ERROR: File is not a PDF. Please enter a valid PDF file." ;;
          get_valid_path_loop fuel'
      else
        print "ERROR: File does not exist. Please enter a valid path." ;;
        get_valid_path_loop fuel'
  end.

Definition get_valid_path : M string :=
  fun w => get_valid_path_loop (S (length (stdin w))) w.

(** [get_valid_dimension(dimension_name)]: [None] stands for a round
    that ends without [return]. *)
Definition get_valid_dimension_round : M (option Z) :=
  try_except_ValueError
    (do line <- input;
     do value <- lift (PyStr.int (PyStr.strip line));
     if 0 <? value then ret (Some value)
     else
       print "ERROR: Dimension must be a positive number." ;;
       ret None)
    (print "ERROR: Please enter a valid integer number." ;;
     ret None).

Fixpoint get_valid_dimension_loop (fuel : nat) : M Z :=
  match fuel with
  | O => raise EOFError
  | S fuel' =>
      do r <- get_valid_dimension_round;
      match r with
      | Some value => ret value
      | None => get_valid_dimension_loop fuel'
      end
  end.

Definition get_valid_dimension : M Z :=
  fun w => get_valid_dimension_loop (S (length (stdin w))) w.

(** [get_output_name()] *)
Definition get_output_name : M string :=
  do line <- input;
  let output_name := PyStr.strip line in
  if PyStr.eqb output_name "" then ret "resized_output.pdf"
  else if negb (PyStr.endswith (PyStr.lower output_name) ".pdf")
  then ret (output_name +:+ ".pdf")
  else ret output_name.

(** [main()] from the point where the input, the dimensions and the
    output name are known: the output directory is asked for, then the
    confirmation, then [resize_pdf] runs. *)
Definition run (input_path output_name : string)
    (target_width target_height : Z) : M unit :=
  do output_dir <- get_output_directory (OsPath.dirname input_path);
  do confirm <- input;
  if PyStr.eqb (PyStr.lower (PyStr.strip confirm)) "no"
  then print "Operation cancelled by user."
  else
    do success <- resize_pdf input_path output_dir output_name
                             target_width target_height;
    if (success : bool) then print "Operation completed successfully!"
    else print "Operation failed. Check errors above.".

Definition main : M unit :=
  do input_path <- get_valid_path;
  do target_width <- get_valid_dimension;
  do target_height <- get_valid_dimension;
  do output_name <- get_output_name;
  run input_path output_name target_width target_height.
End WithPlatform.
End Resizepdf.

(** ** Predicates the properties are stated with *)

(** The kinds of pieces [re.split] returns: a text holds no decimal digit,
    a digit run holds only decimal digits and at least one. *)
Definition text_piece (s : string) : bool :=
  negb (PyStr.any_chr PyStr.is_decimal s).

Definition digit_piece (s : string) : bool :=
  negb (PyStr.eqb s "") && PyStr.all_chr PyStr.is_decimal s.

Definition piece_kind (digits : bool) (s : string) : bool :=
  if digits then digit_piece s else text_piece s.

Fixpoint pieces_alternate (digits : bool) (l : list string) : bool :=
  match l with
  | [] => true
  | p :: l' => piece_kind digits p && pieces_alternate (negb digits) l'
  end.

(** A key alternates: [num] tells whether its first token is a number. *)
Definition token_is_num (t : token) : bool :=
  match t with Num _ => true | Text _ => false end.

Fixpoint key_alternates (num : bool) (k : list token) : bool :=
  match k with
  | [] => true
  | t :: k' => Bool.eqb (token_is_num t) num && key_alternates (negb num) k'
  end.

(** A string without the superscript digits, the characters [isdigit]
    accepts and [int] refuses. *)
Definition no_superscript (s : string) : bool :=
  PyStr.all_chr
    (fun c => implb (PyStr.chr_isdigit c) (PyStr.is_decimal c)) s.

(** A run of decimal digits [int] converts: it has at most
    [max_str_digits] digits. A longer one is refused. *)
Definition short_digits (p : string) : bool :=
  Z.of_nat (String.length p) <=? PyStr.max_str_digits.

Definition long_digit_piece (p : string) : bool :=
  digit_piece p && negb (short_digits p).

(** No run of decimal digits of [s] is longer than [int] accepts. *)
Definition no_long_run (s : string) : bool :=
  negb (existsb long_digit_piece (Re.split_digits s)).

(** [natural_sort_key(a) < natural_sort_key(b)] *)
Definition natural_lt (a b : string) : result bool :=
  ka <-? natural_sort_key a;
  kb <-? natural_sort_key b;
  key_ltb ka kb.

(** The order [list.sort] leaves two neighbours in: the second is not
    smaller than the first. *)
Definition token_le (x y : token) : Prop := token_ltb y x = Ok false.

Definition key_le (ka kb : list token) : Prop := key_ltb kb ka = Ok false.

Definition natural_le (a b : string) : Prop := natural_lt b a = Ok false.

(** The same on the (key, element) pairs [list.sort] works with. *)
Definition keyed_alt {A} (x : list token * A) : Prop :=
  key_alternates false (fst x) = true.

Definition keyed_le {A} (x y : list token * A) : Prop :=
  key_le (fst x) (fst y).

(** What the specification asks of a geometry, read on [float]: the new
    dimensions do not exceed the target and the offsets are not negative. *)
Definition within_target (target_width target_height : Z)
    (g : geometry) : bool :=
  Float.leb (new_width g) (Float.of_int target_width)
  && Float.leb (new_height g) (Float.of_int target_height)
  && Float.leb (Float.of_int 0) (x_offset g)
  && Float.leb (Float.of_int 0) (y_offset g).

(** World updates the properties are stated with. *)
Definition set_docs (w : world) (docs : gset nat) (next : nat) : world :=
  World (fs w) (stdin w) (stdout w) docs next.

Definition add_out (w : world) (lines : list string) : world :=
  World (fs w) (stdin w) (stdout w ++ lines) (open_docs w) (next_doc w).

Definition set_file (w : world) (path : string) (n : node) : world :=
  World (<[path := n]> (fs w)) (stdin w) (stdout w) (open_docs w) (next_doc w).

(** From [w] to [w1] nothing was read, printed, opened or closed, every
    file is as it was, and what is new is a directory. *)
Definition only_dirs_added (w w1 : world) : Prop :=
  stdin w1 = stdin w /\ stdout w1 = stdout w
  /\ open_docs w1 = open_docs w /\ next_doc w1 = next_doc w
  /\ forall p, fs w1 !! p = fs w !! p
               \/ (fs w !! p = None /\ fs w1 !! p = Some Dir).

(** From [w] to [w1] no document was written, opened or closed: every
    file is as it was, and what is new is a directory. *)
Definition no_document_written (w w1 : world) : Prop :=
  open_docs w1 = open_docs w /\ next_doc w1 = next_doc w
  /\ forall p, fs w1 !! p = fs w !! p
               \/ (fs w !! p = None /\ fs w1 !! p = Some Dir).

(** From [w] to [w1] the files and the open documents are the same. *)
Definition same_files (w w1 : world) : Prop :=
  fs w1 = fs w /\ open_docs w1 = open_docs w /\ next_doc w1 = next_doc w.

(** Handles are handed out in increasing order: the open ones are below
    the next one. A run starts with no open document. *)
Definition fresh (w : world) : Prop :=
  forall h, h ∈ open_docs w -> (h < next_doc w)%nat.

(** [path] holds a document [insert_pdf] accepts. *)
Definition readable (w : world) (path : string) (d : document) : Prop :=
  fs w !! path = Some (Pdf d) /\ doc_insert_error d = None.

Definition page_count (d : document) : nat := length (doc_pages d).

Definition blank_page (body : string) : page :=
  PdfPage (Float.of_int 612) (Float.of_int 792) body.

Definition quiet_platform : platform :=
  Platform (fun _ => Some [(Float.of_int 100, Float.of_int 100)])
           (fun _ => None) (fun _ => None) (fun _ _ => None)
           (fun _ _ _ _ => None) (fun _ => []).
(** Three documents of 3, 5 and 2 pages in a folder. *)
Definition doc_of_bodies (bodies : list string) : document :=
  Document (map blank_page bodies) None.

Definition world_3_5_2 : world :=
  World (list_to_map
           [("/d", Dir);
            ("/d/a.pdf", Pdf (doc_of_bodies ["a1"; "a2"; "a3"]));
            ("/d/b.pdf", Pdf (doc_of_bodies ["b1"; "b2"; "b3"; "b4"; "b5"]));
            ("/d/c.pdf", Pdf (doc_of_bodies ["c1"; "c2"]))])
        [] [] ∅ 0.

(** A folder with an archive of two images and a text file, an archive
    without images, a file that is not a document, a document that needs
    a password and two plain documents. *)
Definition comic_archive : list zip_entry :=
  [ZipEntry "b.png" (Some "bytes of b");
   ZipEntry "a.png" (Some "bytes of a");
   ZipEntry "readme.txt" (Some "read me")].

Definition notes_archive : list zip_entry :=
  [ZipEntry "readme.txt" (Some "read me")].

Definition locked_doc : document :=
  MkDocument [blank_page "secret"] (Some "source is encrypted")
             (Some "document closed or encrypted").

Definition world_folder : world :=
  World (list_to_map
           [("/in", Dir);
            ("/in/comic.cbz", Zip comic_archive);
            ("/in/notes.cbz", Zip notes_archive);
            ("/in/broken.pdf", Blob "not a document");
            ("/in/locked.pdf", Pdf locked_doc);
            ("/in/part1.pdf", Pdf (doc_of_bodies ["p1"; "p2"]));
            ("/in/part2.pdf", Pdf (doc_of_bodies ["q1"]))])
        ["/in"; "out"; ""; ""] [] ∅ 0.

Definition folder_platform : platform :=
  Platform (fun _ => Some [(Float.of_int 100, Float.of_int 100)])
           (fun _ => None) (fun _ => None) (fun _ _ => None)
           (fun _ _ _ _ => None)
           (fun _ => [("/in", ["comic.cbz"; "notes.cbz"; "broken.pdf";
                               "part2.pdf"; "part1.pdf"])]).
(** A platform on which the image of a.png has two frames. *)
Definition animated_platform : platform :=
  Platform (fun img => if String.eqb img "bytes of a"
                       then Some [(Float.of_int 100, Float.of_int 100);
                                  (Float.of_int 100, Float.of_int 100)]
                       else Some [(Float.of_int 100, Float.of_int 100)])
           (fun _ => None) (fun _ => None) (fun _ _ => None)
           (fun _ _ _ _ => None) (fun _ => []).

(** The platform of a folder where the directory /ro/out cannot be made,
    and the lines typed in a run of each tool that asks for it. *)
Definition readonly_platform : platform :=
  Platform (fun _ => Some [(Float.of_int 100, Float.of_int 100)])
           (fun _ => None)
           (fun p => if String.eqb p "/ro/out"
                     then Some "[Errno 13] Permission denied: '/ro/out'"
                     else None)
           (fun _ _ => None) (fun _ _ _ _ => None)
           (fun _ => [("/in", ["part2.pdf"; "part1.pdf"])]).

Definition with_stdin (w : world) (lines : list string) : world :=
  World (fs w) lines (stdout w) (open_docs w) (next_doc w).

Definition merge_session : world :=
  with_stdin world_folder ["/in"; "out"; "/ro/out"; ""].

Definition resize_session : world :=
  with_stdin world_folder ["/in/part1.pdf"; "300"; "300"; "small"; "/ro/out"; ""].
(** A page the resize loop gets through: the geometry is computed (no
    side of its rectangle is zero and the targets convert to floats), and
    the library renders the page and places the image. *)
Definition resizable (P : platform) (target_width target_height : Z)
    (p : page) : Prop :=
  exists g,
    page_geometry target_width target_height
                  (fst (Resizepdf.page_rect p))
                  (snd (Resizepdf.page_rect p)) = Ok g
    /\ pixmap_error P p (scale g) = None
    /\ insert_image_error P (x_offset g) (y_offset g)
         (Float.add (x_offset g) (new_width g))
         (Float.add (y_offset g) (new_height g)) = None.

(** [out] is the page the loop makes from [src]: a new page of the target
    size with the render of [src] placed on it. *)
Definition resized_from (target_width target_height : Z) (src out : page)
  : Prop :=
  exists x0 y0 x1 y1 s,
    out = ComposedPage target_width target_height x0 y0 x1 y1 src s.

(** [u] is empty or starts with a character that is not a decimal digit. *)
Definition starts_nondigit (u : string) : bool :=
  match u with
  | EmptyString => true
  | String c _ => negb (PyStr.is_decimal c)
  end.

(** A piece between two digit runs that [isdigit] accepts: it is made of
    superscript digits only. *)
Definition superscript_piece (p : string) : bool :=
  PyStr.isdigit p && text_piece p.

(** A piece [isdigit] accepts and [int] refuses. *)
Definition unkeyed_piece (p : string) : bool :=
  superscript_piece p || long_digit_piece p.

(** [n] times the digit 9. *)
Fixpoint nines (n : nat) : string :=
  match n with
  | O => EmptyString
  | S n' => String "9" (nines n')
  end.

(** A platform on which [img2pdf] refuses one image. *)
Definition picky_platform : platform :=
  Platform (fun img => if String.eqb img "bytes of b" then None
                       else Some [(Float.of_int 100, Float.of_int 100)])
           (fun _ => None) (fun _ => None) (fun _ _ => None)
           (fun _ _ _ _ => None)
           (fun _ => [("/in", ["comic.cbz"; "Notes.CBZ"; "part1.pdf";
                               "cover.png"]);
                      ("/in/old", ["scan.PDF"; "readme.txt"])]).

(** The pages a path gives the merge: those of the document it holds when
    it opens and [insert_pdf] accepts it, none otherwise. *)
Definition mergeable_pages (files : gmap string node) (path : string)
  : list page :=
  match files !! path with
  | Some (Pdf d) =>
      match doc_insert_error d with
      | None => doc_pages d
      | Some _ => []
      end
  | _ => []
  end.

Definition is_mergeable (files : gmap string node) (path : string) : bool :=
  match files !! path with
  | Some (Pdf d) =>
      match doc_insert_error d with None => true | Some _ => false end
  | _ => false
  end.

(** [path] holds a document that opens and that [insert_pdf] refuses. *)
Definition is_refused (files : gmap string node) (path : string) : bool :=
  match files !! path with
  | Some (Pdf d) =>
      match doc_insert_error d with None => false | Some _ => true end
  | _ => false
  end.

Definition is_dir (files : gmap string node) (path : string) : bool :=
  match files !! path with Some Dir => true | _ => false end.

(** [n] converts to a float: the nearest binary64 is finite. *)
Definition convertible (n : Z) : bool :=
  match Float.from_int n with Ok _ => true | Raise _ => false end.

(** The dimension a line gives [get_valid_dimension]: the integer it
    reads as, when there is one and it is positive. *)
Definition dimension_of_line (line : string) : option Z :=
  match PyStr.int (PyStr.strip line) with
  | Ok value => if 0 <? value then Some value else None
  | Raise _ => None
  end.

(** * Properties *)

(** ** Strings *)

Lemma append_cons (c : ascii) (s t : string) :
  String c s +:+ t = String c (s +:+ t).
Proof. reflexivity. Qed.

Lemma append_empty_l (s : string) : "" +:+ s = s.
Proof. reflexivity. Qed.

Lemma append_empty_r (s : string) : s +:+ "" = s.
Proof.
  induction s as [|c s IH]; [reflexivity|].
  rewrite append_cons. f_equal. exact IH.
Qed.

Lemma append_assoc (s t u : string) : (s +:+ t) +:+ u = s +:+ (t +:+ u).
Proof.
  induction s as [|c s IH]; [reflexivity|].
  rewrite !append_cons. f_equal. exact IH.
Qed.

Lemma concat_empty_cons (x : string) (l : list string) :
  String.concat "" (x :: l) = x +:+ String.concat "" l.
Proof.
  destruct l as [|y l]; simpl.
  - now rewrite append_empty_r.
  - reflexivity.
Qed.

Lemma snoc_append (acc : string) (c : ascii) (s : string) :
  Re.snoc acc c +:+ s = acc +:+ String c s.
Proof. unfold Re.snoc. now rewrite append_assoc. Qed.

Lemma concat_split_aux (s : string) :
  forall (b : bool) (acc : string),
    String.concat "" (Re.split_aux b acc s) = acc +:+ s.
Proof.
  induction s as [|c s IH]; intros b acc.
  - destruct b; simpl; now rewrite ?append_empty_r.
  - cbn [Re.split_aux].
    destruct (PyStr.is_decimal c), b;
      rewrite ?concat_empty_cons, IH; simpl;
      now rewrite ?snoc_append.
Qed.

(** *** The pieces [re.split] returns alternate *)

Lemma any_chr_snoc (p : ascii -> bool) (s : string) (c : ascii) :
  PyStr.any_chr p (Re.snoc s c) = PyStr.any_chr p s || p c.
Proof.
  induction s as [|a s IH]; simpl.
  - now rewrite orb_false_r.
  - unfold Re.snoc in IH. rewrite IH. now rewrite orb_assoc.
Qed.

Lemma all_chr_snoc (p : ascii -> bool) (s : string) (c : ascii) :
  PyStr.all_chr p (Re.snoc s c) = PyStr.all_chr p s && p c.
Proof.
  induction s as [|a s IH]; simpl.
  - now rewrite andb_true_r.
  - unfold Re.snoc in IH. rewrite IH. now rewrite andb_assoc.
Qed.

Lemma snoc_not_empty (s : string) (c : ascii) : PyStr.eqb (Re.snoc s c) "" = false.
Proof. destruct s; reflexivity. Qed.

Lemma piece_kind_snoc (b : bool) (acc : string) (c : ascii) :
  piece_kind b acc = true -> PyStr.is_decimal c = b ->
  piece_kind b (Re.snoc acc c) = true.
Proof.
  intros Hacc Hc. destruct b; simpl in *.
  - unfold digit_piece in *. rewrite snoc_not_empty, all_chr_snoc, Hc.
    apply andb_true_iff in Hacc as [_ ->]. reflexivity.
  - unfold text_piece in *. rewrite any_chr_snoc, Hc.
    apply negb_true_iff in Hacc. now rewrite Hacc.
Qed.

Lemma split_aux_alternate (s : string) :
  forall (b : bool) (acc : string),
    piece_kind b acc = true ->
    pieces_alternate b (Re.split_aux b acc s) = true.
Proof.
  induction s as [|c s IH]; intros b acc Hacc.
  - destruct b; simpl in *; rewrite Hacc; reflexivity.
  - cbn [Re.split_aux].
    destruct (PyStr.is_decimal c) eqn:Hc, b; cbn [pieces_alternate negb].
    + apply IH, piece_kind_snoc; assumption.
    + rewrite Hacc. apply IH. simpl. unfold digit_piece. simpl.
      now rewrite Hc.
    + rewrite Hacc. apply IH. simpl. unfold text_piece. simpl.
      now rewrite Hc.
    + apply IH, piece_kind_snoc; assumption.
Qed.

Lemma split_digits_alternate (s : string) :
  pieces_alternate false (Re.split_digits s) = true.
Proof. apply split_aux_alternate. reflexivity. Qed.

(** *** [strip] leaves a string alone when nothing is to be dropped *)

Lemma rev_app_rev_app (s t u : string) :
  String.rev_app (String.rev_app s t) u = String.rev_app t (s +:+ u).
Proof.
  revert t u. induction s as [|a s IH]; intros t u; simpl; [reflexivity|].
  rewrite IH. reflexivity.
Qed.

Lemma rev_involutive (s : string) : String.rev (String.rev s) = s.
Proof.
  unfold String.rev. rewrite rev_app_rev_app. simpl. apply append_empty_r.
Qed.

Lemma all_chr_rev_app (p : ascii -> bool) (s t : string) :
  PyStr.all_chr p (String.rev_app s t)
  = PyStr.all_chr p s && PyStr.all_chr p t.
Proof.
  revert t. induction s as [|a s IH]; intros t; simpl; [reflexivity|].
  rewrite IH. simpl. destruct (p a), (PyStr.all_chr p s); reflexivity.
Qed.

Lemma all_chr_rev (p : ascii -> bool) (s : string) :
  PyStr.all_chr p (String.rev s) = PyStr.all_chr p s.
Proof. unfold String.rev. rewrite all_chr_rev_app. simpl. apply andb_true_r. Qed.

Lemma lstrip_by_keep (drop : ascii -> bool) (s : string) :
  PyStr.all_chr (fun c => negb (drop c)) s = true ->
  PyStr.lstrip_by drop s = s.
Proof.
  destruct s as [|c s]; simpl; [reflexivity|].
  intros H. apply andb_true_iff in H as [Hc _].
  apply negb_true_iff in Hc. now rewrite Hc.
Qed.

Lemma strip_by_keep (drop : ascii -> bool) (s : string) :
  PyStr.all_chr (fun c => negb (drop c)) s = true ->
  PyStr.strip_by drop s = s.
Proof.
  intros H. unfold PyStr.strip_by.
  rewrite (lstrip_by_keep drop s H).
  rewrite lstrip_by_keep by (now rewrite all_chr_rev).
  apply rev_involutive.
Qed.

Lemma all_chr_impl (p q : ascii -> bool) (s : string) :
  (forall c, p c = true -> q c = true) ->
  PyStr.all_chr p s = true -> PyStr.all_chr q s = true.
Proof.
  intros Hpq. induction s as [|c s IH]; simpl; [reflexivity|].
  intros H. apply andb_true_iff in H as [Hc Hs].
  rewrite (Hpq c Hc), (IH Hs). reflexivity.
Qed.

(** *** Character classes *)

Lemma decimal_isdigit (c : ascii) :
  PyStr.is_decimal c = true -> PyStr.chr_isdigit c = true.
Proof. unfold PyStr.chr_isdigit. now intros ->. Qed.

Lemma isdigit_not_space (c : ascii) :
  PyStr.chr_isdigit c = true -> negb (PyStr.chr_isspace c) = true.
Proof.
  destruct c as [[] [] [] [] [] [] [] []]; vm_compute; intros H;
    first [reflexivity | discriminate H].
Qed.

(** *** The tokens of a key *)

Lemma digit_piece_all_isdigit (p : string) :
  PyStr.all_chr PyStr.is_decimal p = true -> PyStr.all_isdigit p = true.
Proof.
  induction p as [|c p IH]; simpl; [reflexivity|].
  intros H. apply andb_true_iff in H as [Hc Hp].
  now rewrite (decimal_isdigit c Hc), (IH Hp).
Qed.

Lemma all_isdigit_all_chr (p : string) :
  PyStr.all_isdigit p = PyStr.all_chr PyStr.chr_isdigit p.
Proof. induction p as [|c p IH]; simpl; [reflexivity | now rewrite IH]. Qed.

Lemma isdigit_strip (p : string) :
  PyStr.all_isdigit p = true -> PyStr.strip p = p.
Proof.
  intros H. apply strip_by_keep. rewrite all_isdigit_all_chr in H.
  revert H. apply all_chr_impl. exact isdigit_not_space.
Qed.

Lemma int_digits_decimal (s : string) :
  PyStr.all_chr PyStr.is_decimal s = true ->
  forall acc count,
    if PyStr.max_str_digits <? count + Z.of_nat (String.length s)
    then PyStr.int_digits false acc count s = Raise PyStr.digit_limit
    else exists n, PyStr.int_digits false acc count s = Ok n.
Proof.
  induction s as [|c s IH]; intros H acc count.
  - cbn [PyStr.int_digits String.length]. rewrite Z.add_0_r.
    destruct (PyStr.max_str_digits <? count); eauto.
  - simpl in H. apply andb_true_iff in H as [Hc Hs].
    cbn [PyStr.int_digits]. rewrite Hc.
    replace (count + Z.of_nat (String.length (String c s)))
      with (count + 1 + Z.of_nat (String.length s))
      by (cbn [String.length]; lia).
    apply IH, Hs.
Qed.

Lemma isdigit_not_sign (c : ascii) :
  PyStr.chr_isdigit c = true ->
  Ascii.eqb c "+" = false /\ Ascii.eqb c "-" = false.
Proof.
  intros H. split; apply Ascii.eqb_neq; intros ->; discriminate H.
Qed.

Lemma int_digit_piece (p : string) :
  digit_piece p = true ->
  if short_digits p then exists n, PyStr.int p = Ok n
  else PyStr.int p = Raise PyStr.digit_limit.
Proof.
  unfold digit_piece. intros H. apply andb_true_iff in H as [Hne Hall].
  unfold PyStr.int. rewrite (isdigit_strip p (digit_piece_all_isdigit p Hall)).
  destruct p as [|c p]; [discriminate Hne|].
  simpl in Hall. apply andb_true_iff in Hall as [Hc Hp].
  destruct (isdigit_not_sign c (decimal_isdigit c Hc)) as [-> ->].
  cbn [PyStr.int_digits]. rewrite Hc.
  pose proof (int_digits_decimal p Hp (10 * 0 + PyStr.digit_value c) (0 + 1))
    as Hint.
  unfold short_digits. cbn [String.length].
  destruct (Z.leb_spec (Z.of_nat (S (String.length p))) PyStr.max_str_digits);
    destruct (Z.ltb_spec PyStr.max_str_digits
                (0 + 1 + Z.of_nat (String.length p)));
    first [exact Hint | lia].
Qed.

Lemma key_of_digit_piece (p : string) :
  digit_piece p = true ->
  if short_digits p then exists n, key_of_text p = Ok (Num n)
  else key_of_text p = Raise PyStr.digit_limit.
Proof.
  intros H. unfold key_of_text.
  assert (Hd : PyStr.isdigit p = true).
  { unfold digit_piece in H. apply andb_true_iff in H as [Hne Hall].
    destruct p; [discriminate Hne|]. now apply digit_piece_all_isdigit. }
  rewrite Hd. pose proof (int_digit_piece p H) as Hint.
  destruct (short_digits p).
  - destruct Hint as [n ->]. now exists n.
  - now rewrite Hint.
Qed.

Lemma key_of_digit_piece_num (p : string) (t : token) :
  digit_piece p = true -> key_of_text p = Ok t -> exists n, t = Num n.
Proof.
  intros H Ht. pose proof (key_of_digit_piece p H) as Hk.
  destruct (short_digits p).
  - destruct Hk as [n Hn]. rewrite Hn in Ht. injection Ht as <-. eauto.
  - rewrite Hk in Ht. discriminate Ht.
Qed.

Lemma int_superscript (p : string) :
  PyStr.isdigit p = true -> text_piece p = true ->
  exists e, PyStr.int p = Raise e.
Proof.
  intros Hd Ht. unfold PyStr.int.
  destruct p as [|c p]; [discriminate Hd|].
  rewrite isdigit_strip by exact Hd.
  simpl in Hd. apply andb_true_iff in Hd as [Hc _].
  destruct (isdigit_not_sign c Hc) as [-> ->].
  unfold text_piece in Ht. simpl in Ht.
  apply negb_true_iff, orb_false_iff in Ht as [Hnd _].
  simpl. rewrite Hnd, andb_false_r. eauto.
Qed.

Lemma int_digits_error (s : string) :
  forall (b : bool) (acc count : Z) (e : exn),
    PyStr.int_digits b acc count s = Raise e ->
    e = PyStr.invalid_literal \/ e = PyStr.digit_limit.
Proof.
  induction s as [|c s IH]; intros b acc count e; simpl.
  - destruct b; [intros [= <-]; now left|].
    destruct (PyStr.max_str_digits <? count); [|discriminate].
    intros [= <-]. now right.
  - destruct (PyStr.is_decimal c); [apply IH|].
    destruct (Ascii.eqb c "_" && negb b); [apply IH|].
    intros [= <-]. now left.
Qed.

Lemma int_error (s : string) (e : exn) :
  PyStr.int s = Raise e ->
  e = PyStr.invalid_literal \/ e = PyStr.digit_limit.
Proof.
  unfold PyStr.int. destruct (PyStr.strip s) as [|c s'].
  - intros [= <-]. now left.
  - destruct (Ascii.eqb c "+"); [apply int_digits_error|].
    destruct (Ascii.eqb c "-"); [|apply int_digits_error].
    destruct (PyStr.int_digits true 0 0 s') eqn:E; [discriminate|].
    simpl. intros [= <-]. now apply int_digits_error in E.
Qed.

(** [int] raises nothing but [ValueError]. *)
Lemma int_value_error (s : string) (e : exn) :
  PyStr.int s = Raise e -> exists msg, e = ValueError msg.
Proof.
  intros H. apply int_error in H as [-> | ->]; eexists; reflexivity.
Qed.

Lemma key_of_text_piece (p : string) (t : token) :
  text_piece p = true -> key_of_text p = Ok t -> exists x, t = Text x.
Proof.
  intros Ht. unfold key_of_text.
  destruct (PyStr.isdigit p) eqn:Hd.
  - destruct (int_superscript p Hd Ht) as [e ->]. discriminate.
  - intros [= <-]. eauto.
Qed.

Lemma rmapM_key_alternates (l : list string) :
  forall (b : bool) (k : list token),
    pieces_alternate b l = true ->
    rmapM key_of_text l = Ok k ->
    key_alternates b k = true.
Proof.
  induction l as [|p l IH]; intros b k Hl Hk; simpl in *.
  - injection Hk as <-. reflexivity.
  - apply andb_true_iff in Hl as [Hp Hl].
    destruct (key_of_text p) as [t|e] eqn:Ht; [|discriminate Hk].
    simpl in Hk.
    destruct (rmapM key_of_text l) as [k'|e] eqn:Hk'; [|discriminate Hk].
    injection Hk as <-. simpl.
    rewrite (IH (negb b) k' Hl eq_refl), andb_true_r.
    destruct b; simpl in Hp.
    + destruct (key_of_digit_piece_num p t Hp Ht) as [n ->]. reflexivity.
    + destruct (key_of_text_piece p t Hp Ht) as [x ->]. reflexivity.
Qed.

Lemma natural_sort_key_alternates (s : string) (k : list token) :
  natural_sort_key s = Ok k -> key_alternates false k = true.
Proof.
  apply rmapM_key_alternates, split_digits_alternate.
Qed.

Lemma key_alternates_lookup (k : list token) :
  forall (b : bool) (i : nat) (t : token),
    key_alternates b k = true -> k !! i = Some t ->
    token_is_num t = if Nat.even i then b else negb b.
Proof.
  induction k as [|t0 k IH]; intros b i t Hk Hi; [discriminate Hi|].
  simpl in Hk. apply andb_true_iff in Hk as [Ht0 Hk].
  destruct i as [|i]; simpl in Hi.
  - injection Hi as <-. now apply Bool.eqb_prop in Ht0.
  - rewrite (IH (negb b) i t Hk Hi), Nat.even_succ, <- Nat.negb_even.
    destruct (Nat.even i); simpl; [reflexivity | apply negb_involutive].
Qed.

Lemma key_ltb_defined (k1 : list token) :
  forall (b : bool) (k2 : list token),
    key_alternates b k1 = true -> key_alternates b k2 = true ->
    exists r, key_ltb k1 k2 = Ok r.
Proof.
  induction k1 as [|x k1 IH]; intros b [|y k2] H1 H2; simpl; eauto.
  simpl in H1, H2.
  apply andb_true_iff in H1 as [Hx H1]. apply andb_true_iff in H2 as [Hy H2].
  destruct (token_eqb x y); [now apply (IH (negb b))|].
  apply Bool.eqb_prop in Hx, Hy.
  destruct x, y, b; simpl in *; try discriminate; eauto.
Qed.

(** *** Every string without superscript digits has a key *)

Lemma split_aux_all_chr (p : ascii -> bool) (s : string) :
  forall (b : bool) (acc : string),
    PyStr.all_chr p acc = true -> PyStr.all_chr p s = true ->
    Forall (fun x => PyStr.all_chr p x = true) (Re.split_aux b acc s).
Proof.
  induction s as [|c s IH]; intros b acc Hacc Hs.
  - destruct b; simpl; repeat constructor; assumption.
  - simpl in Hs. apply andb_true_iff in Hs as [Hc Hs]. cbn [Re.split_aux].
    destruct (PyStr.is_decimal c), b;
      repeat first [ assumption
                   | apply Forall_cons; split
                   | apply IH
                   | rewrite all_chr_snoc, Hacc, Hc; reflexivity
                   | simpl; rewrite Hc; reflexivity ].
Qed.

Lemma text_piece_not_isdigit (p : string) :
  text_piece p = true -> no_superscript p = true -> PyStr.isdigit p = false.
Proof.
  destruct p as [|c p]; [reflexivity|].
  unfold text_piece, no_superscript. simpl. intros Ht Hn.
  apply negb_true_iff, orb_false_iff in Ht as [Hd _].
  apply andb_true_iff in Hn as [Hc _].
  rewrite Hd in Hc. destruct (PyStr.chr_isdigit c); [discriminate Hc | reflexivity].
Qed.

Lemma rmapM_key_total (l : list string) :
  forall b : bool,
    pieces_alternate b l = true ->
    Forall (fun p => no_superscript p = true) l ->
    existsb long_digit_piece l = false ->
    exists k, rmapM key_of_text l = Ok k.
Proof.
  induction l as [|p l IH]; intros b Hl Hn Hlong; simpl; [eauto|].
  simpl in Hl. apply andb_true_iff in Hl as [Hp Hl].
  apply Forall_cons in Hn as [Hnp Hn].
  simpl in Hlong. apply orb_false_iff in Hlong as [Hplong Hlong].
  destruct (IH (negb b) Hl Hn Hlong) as [k ->].
  destruct b; simpl in Hp.
  - pose proof (key_of_digit_piece p Hp) as Hk.
    unfold long_digit_piece in Hplong. rewrite Hp in Hplong. simpl in Hplong.
    apply negb_false_iff in Hplong. rewrite Hplong in Hk.
    destruct Hk as [n ->]. simpl. eauto.
  - unfold key_of_text. rewrite (text_piece_not_isdigit p Hp Hnp). simpl. eauto.
Qed.

Lemma natural_sort_key_total (s : string) :
  no_superscript s = true -> no_long_run s = true ->
  exists k, natural_sort_key s = Ok k.
Proof.
  intros H Hlong. apply (rmapM_key_total _ false (split_digits_alternate s)).
  - apply split_aux_all_chr; [reflexivity | exact H].
  - unfold no_long_run in Hlong. now apply negb_true_iff in Hlong.
Qed.

(** *** The order on keys *)

Lemma token_eqb_eq (x y : token) : token_eqb x y = true <-> x = y.
Proof.
  destruct x as [n|s], y as [m|t]; simpl; split; try discriminate.
  - intros H. apply Z.eqb_eq in H. now subst.
  - intros [= ->]. apply Z.eqb_refl.
  - intros H. apply String.eqb_eq in H. now subst.
  - intros [= ->]. apply String.eqb_refl.
Qed.

Lemma token_eqb_refl (x : token) : token_eqb x x = true.
Proof. now apply token_eqb_eq. Qed.

Lemma key_ltb_irrefl (k : list token) : key_ltb k k = Ok false.
Proof.
  induction k as [|x k IH]; simpl; [reflexivity|].
  now rewrite token_eqb_refl.
Qed.

Lemma str_ltb_false_leb (s t : string) :
  PyStr.ltb t s = false <-> String.le s t.
Proof.
  unfold PyStr.ltb, String.le, String.leb.
  rewrite (String.compare_antisym s t).
  destruct (String.compare t s); simpl; split; intros H;
    first [ reflexivity | discriminate H | exact I | destruct H ].
Qed.

Lemma token_le_trans (x y z : token) :
  token_le x y -> token_le y z -> token_le x z.
Proof.
  unfold token_le.
  destruct x as [a|s], y as [b|t], z as [c|u]; simpl; try discriminate.
  - intros [= H1] [= H2]. f_equal. lia.
  - intros [= H1] [= H2]. f_equal.
    apply str_ltb_false_leb in H1, H2. apply str_ltb_false_leb.
    now transitivity t.
Qed.

Lemma token_le_antisym (x y : token) :
  token_le x y -> token_le y x -> x = y.
Proof.
  unfold token_le. destruct x as [a|s], y as [b|t]; simpl; try discriminate.
  - intros [= H1] [= H2]. f_equal. lia.
  - intros [= H1] [= H2]. f_equal.
    apply str_ltb_false_leb in H1, H2.
    apply (anti_symm String.le); assumption.
Qed.

Lemma token_le_total (x y : token) (r : bool) :
  token_ltb x y = Ok r -> r = true -> token_le x y.
Proof.
  unfold token_le. destruct x as [a|s], y as [b|t]; simpl; try discriminate.
  - intros [= <-] H. f_equal. lia.
  - intros [= <-] H. f_equal. apply str_ltb_false_leb.
    unfold PyStr.ltb in H. unfold String.le, String.leb.
    destruct (String.compare s t); first [exact I | discriminate H].
Qed.

Lemma key_le_unfold (x y : token) (a b : list token) :
  key_le (x :: a) (y :: b) <->
  if token_eqb y x then key_le a b else token_le x y.
Proof. unfold key_le, token_le. simpl. destruct (token_eqb y x); reflexivity. Qed.

Lemma token_eqb_sym (x y : token) : token_eqb x y = token_eqb y x.
Proof.
  destruct x, y; simpl; try reflexivity;
    [apply Z.eqb_sym | apply String.eqb_sym].
Qed.

Lemma key_le_trans (a : list token) :
  forall b c : list token, key_le a b -> key_le b c -> key_le a c.
Proof.
  induction a as [|x a IH]; intros [|y b] [|z c] H1 H2;
    try reflexivity; try discriminate.
  apply key_le_unfold in H1, H2. apply key_le_unfold.
  destruct (token_eqb y x) eqn:Eyx.
  - apply token_eqb_eq in Eyx as ->.
    destruct (token_eqb z x) eqn:Ezx; [now apply (IH b c) | exact H2].
  - destruct (token_eqb z y) eqn:Ezy.
    + apply token_eqb_eq in Ezy as ->. rewrite Eyx. exact H1.
    + destruct (token_eqb z x) eqn:Ezx.
      * apply token_eqb_eq in Ezx as ->.
        rewrite (token_le_antisym x y H1 H2), token_eqb_refl in Eyx.
        discriminate Eyx.
      * now apply (token_le_trans x y z).
Qed.

Lemma key_ltb_true_le (a : list token) :
  forall b : list token, key_ltb a b = Ok true -> key_le a b.
Proof.
  induction a as [|x a IH]; intros [|y b] H; try reflexivity;
    try discriminate.
  apply key_le_unfold. simpl in H. rewrite token_eqb_sym.
  destruct (token_eqb x y); [now apply IH|].
  now apply (token_le_total x y true).
Qed.

(** *** Sorting by key *)

Section SortProperties.
Context {A : Type}.
Implicit Types (x y : list token * A) (l : list (list token * A)).

Lemma insert_by_key_spec x l :
  keyed_alt x -> Forall keyed_alt l ->
  exists l', insert_by_key x l = Ok l'
             /\ l' ≡ₚ x :: l
             /\ (forall y, keyed_le y x -> HdRel keyed_le y l ->
                           HdRel keyed_le y l')
             /\ (Sorted keyed_le l -> Sorted keyed_le l').
Proof.
  intros Hx. induction l as [|y l IH]; intros Hl.
  - exists [x]. simpl. repeat split; auto.
  - apply Forall_cons in Hl as [Hy Hl]. simpl.
    destruct (key_ltb_defined (fst y) false (fst x) Hy Hx) as [r Hr].
    rewrite Hr. simpl. destruct r.
    + destruct (IH Hl) as (l' & -> & Hp & Hhd & Hs). simpl.
      exists (y :: l'). repeat split.
      * rewrite Hp. apply Permutation_swap.
      * intros z Hzx Hz. constructor. now inversion Hz.
      * intros Hyl. apply Sorted_inv in Hyl as [Hsl Hhl].
        constructor; [now apply Hs|].
        apply Hhd; [|exact Hhl]. now apply key_ltb_true_le.
    + exists (x :: y :: l). repeat split; auto.
Qed.

Lemma sort_keyed_spec l :
  Forall keyed_alt l ->
  exists l', sort_keyed l = Ok l' /\ l' ≡ₚ l /\ Sorted keyed_le l'.
Proof.
  induction l as [|x l IH]; intros Hl.
  - exists []. repeat split; auto.
  - apply Forall_cons in Hl as [Hx Hl].
    destruct (IH Hl) as (s & Hs & Hp & Hsorted). simpl. rewrite Hs. simpl.
    assert (Hall : Forall keyed_alt s) by (now rewrite Hp).
    destruct (insert_by_key_spec x s Hx Hall) as (l' & -> & Hp' & _ & Hs').
    exists l'. repeat split; [|now apply Hs'].
    rewrite Hp'. now constructor.
Qed.
End SortProperties.

Lemma natural_le_keys (a b : string) (ka kb : list token) :
  natural_sort_key a = Ok ka -> natural_sort_key b = Ok kb ->
  natural_le a b <-> key_le ka kb.
Proof.
  intros Ha Hb. unfold natural_le, natural_lt, key_le.
  rewrite Ha, Hb. reflexivity.
Qed.

Lemma natural_le_inv (a b : string) :
  natural_le a b ->
  exists ka kb, natural_sort_key a = Ok ka /\ natural_sort_key b = Ok kb
                /\ key_le ka kb.
Proof.
  unfold natural_le, natural_lt, key_le.
  destruct (natural_sort_key b) as [kb|]; [|discriminate].
  destruct (natural_sort_key a) as [ka|]; [|discriminate].
  simpl. eauto.
Qed.

Lemma natural_le_trans (a b c : string) :
  natural_le a b -> natural_le b c -> natural_le a c.
Proof.
  intros (ka & kb & Ha & Hb & H1)%natural_le_inv
         (kb' & kc & Hb' & Hc & H2)%natural_le_inv.
  rewrite Hb in Hb'. injection Hb' as <-.
  apply (natural_le_keys a c ka kc Ha Hc).
  now apply (key_le_trans ka kb kc).
Qed.

Lemma rmapM_keyed (l : list string) (ks : list (list token * string)) :
  rmapM (fun x => k <-? natural_sort_key x; Ok (k, x)) l = Ok ks ->
  map snd ks = l
  /\ Forall (fun p => natural_sort_key (snd p) = Ok (fst p)) ks.
Proof.
  revert ks. induction l as [|x l IH]; intros ks; simpl.
  - intros [= <-]. split; constructor.
  - destruct (natural_sort_key x) as [k|] eqn:Hk; [|discriminate]. simpl.
    destruct (rmapM _ l) as [ks'|]; [|discriminate]. simpl.
    intros [= <-]. destruct (IH ks' eq_refl) as [Hm Hf].
    split; [simpl; now rewrite Hm | now constructor].
Qed.

Lemma rmapM_keyed_total (l : list string) :
  Forall (fun x => exists k, natural_sort_key x = Ok k) l ->
  exists ks, rmapM (fun x => k <-? natural_sort_key x; Ok (k, x)) l = Ok ks.
Proof.
  induction 1 as [|x l [k Hk] _ [ks IH]]; simpl; [eauto|].
  rewrite Hk, IH. simpl. eauto.
Qed.

Lemma Sorted_keyed_names (ks : list (list token * string)) :
  Forall (fun p => natural_sort_key (snd p) = Ok (fst p)) ks ->
  Sorted keyed_le ks -> Sorted natural_le (map snd ks).
Proof.
  induction ks as [|p ks IH]; intros Hf Hs; simpl; [constructor|].
  apply Forall_cons in Hf as [Hp Hf]. apply Sorted_inv in Hs as [Hs Hhd].
  constructor; [now apply IH|].
  destruct ks as [|q ks]; simpl; constructor.
  apply Forall_cons in Hf as [Hq _]. apply HdRel_inv in Hhd.
  now apply (natural_le_keys _ _ _ _ Hp Hq).
Qed.

(** [names.sort(key=natural_sort_key)] succeeds when every name has a key,
    and gives a sorted rearrangement of the names. *)
Lemma list_sort_natural (l : list string) :
  Forall (fun x => exists k, natural_sort_key x = Ok k) l ->
  exists l', list_sort natural_sort_key l = Ok l'
             /\ l' ≡ₚ l /\ Sorted natural_le l'.
Proof.
  intros Hl. unfold list_sort.
  destruct (rmapM_keyed_total l Hl) as [ks Hks]. rewrite Hks. simpl.
  destruct (rmapM_keyed l ks Hks) as [Hm Hf].
  assert (Halt : Forall keyed_alt ks).
  { apply (Forall_impl _ _ _ Hf). intros p Hp.
    apply (natural_sort_key_alternates (snd p)), Hp. }
  destruct (sort_keyed_spec ks Halt) as (ks' & -> & Hp & Hs). simpl.
  exists (map snd ks'). repeat split.
  - rewrite Hp. now rewrite Hm.
  - apply Sorted_keyed_names; [|exact Hs]. now rewrite Hp.
Qed.

Lemma list_sort_natural_strong (l l' : list string) :
  list_sort natural_sort_key l = Ok l' ->
  l' ≡ₚ l /\ StronglySorted natural_le l'.
Proof.
  intros H.
  assert (Hl : Forall (fun x => exists k, natural_sort_key x = Ok k) l).
  { unfold list_sort in H.
    destruct (rmapM _ l) as [ks|] eqn:Hks; [|discriminate H].
    destruct (rmapM_keyed l ks Hks) as [<- Hf].
    apply Forall_fmap. apply (Forall_impl _ _ _ Hf). simpl. eauto. }
  destruct (list_sort_natural l Hl) as (l2 & H2 & Hp & Hs).
  rewrite H in H2. injection H2 as <-. split; [exact Hp|].
  apply Sorted_StronglySorted; [|exact Hs].
  intros a b c. apply natural_le_trans.
Qed.

(** ** Rounding to a binary format

    What [SpecFloat] computes, in terms of integers: the number of digits
    of a mantissa, the shifts that drop its low bits, and the result of
    [binary_round_aux] for a number in the normal range of the format. *)

Lemma digits2_pos_bounds (p : positive) :
  2 ^ (Z.pos (digits2_pos p) - 1) <= Z.pos p < 2 ^ Z.pos (digits2_pos p).
Proof.
  induction p as [p IH|p IH|]; cbn [digits2_pos].
  - rewrite Pos2Z.inj_succ.
    replace (Z.succ (Z.pos (digits2_pos p)) - 1) with (Z.pos (digits2_pos p))
      by lia.
    rewrite Z.pow_succ_r by lia.
    assert (2 ^ Z.pos (digits2_pos p)
            = 2 * 2 ^ (Z.pos (digits2_pos p) - 1)) as E.
    { rewrite <- Z.pow_succ_r by lia. f_equal. lia. }
    lia.
  - rewrite Pos2Z.inj_succ.
    replace (Z.succ (Z.pos (digits2_pos p)) - 1) with (Z.pos (digits2_pos p))
      by lia.
    rewrite Z.pow_succ_r by lia.
    assert (2 ^ Z.pos (digits2_pos p)
            = 2 * 2 ^ (Z.pos (digits2_pos p) - 1)) as E.
    { rewrite <- Z.pow_succ_r by lia. f_equal. lia. }
    lia.
  - simpl. lia.
Qed.

Lemma digits2_pos_unique (p : positive) (d : Z) :
  2 ^ (d - 1) <= Z.pos p < 2 ^ d -> Z.pos (digits2_pos p) = d.
Proof.
  intros [Hlo Hhi]. pose proof (digits2_pos_bounds p) as [Blo Bhi].
  assert (Hd : 0 < d).
  { destruct (Z.lt_ge_cases 0 d) as [|Hd]; [assumption|].
    assert (2 ^ d <= 2 ^ 0) by (apply Z.pow_le_mono_r; lia).
    change (2 ^ 0) with 1 in *. lia. }
  destruct (Z.lt_trichotomy (Z.pos (digits2_pos p)) d) as [Hlt | [Heq | Hgt]];
    [|exact Heq|].
  - assert (2 ^ Z.pos (digits2_pos p) <= 2 ^ (d - 1))
      by (apply Z.pow_le_mono_r; lia).
    lia.
  - assert (2 ^ d <= 2 ^ (Z.pos (digits2_pos p) - 1))
      by (apply Z.pow_le_mono_r; lia).
    lia.
Qed.

Lemma iter_pos_nat {A : Type} (f : A -> A) (p : positive) :
  forall x, SpecFloat.iter_pos f p x = Nat.iter (Pos.to_nat p) f x.
Proof.
  induction p as [p IH|p IH|]; intros x; cbn [SpecFloat.iter_pos].
  - rewrite !IH, Pos2Nat.inj_xI. cbn [Nat.mul]. rewrite Nat.add_0_r.
    rewrite <- Nat.iter_add. symmetry. apply Nat.iter_succ_r.
  - rewrite !IH, Pos2Nat.inj_xO. cbn [Nat.mul]. rewrite Nat.add_0_r.
    rewrite <- Nat.iter_add. reflexivity.
  - reflexivity.
Qed.

Lemma shr_1_div2 (mrs : shr_record) :
  0 <= shr_m mrs -> shr_m (shr_1 mrs) = shr_m mrs / 2.
Proof.
  destruct mrs as [m r s]. cbn [shr_m]. intros Hm. rewrite <- Z.div2_div.
  destruct m as [|[p|p|]|p]; try reflexivity. lia.
Qed.

Lemma iter_shr_1_div (n : nat) (mrs : shr_record) :
  0 <= shr_m mrs ->
  shr_m (Nat.iter n shr_1 mrs) = shr_m mrs / 2 ^ Z.of_nat n.
Proof.
  intros Hm. induction n as [|n IH].
  - simpl. now rewrite Z.div_1_r.
  - rewrite Nat.iter_succ, shr_1_div2.
    + rewrite IH, Z.div_div by lia. f_equal.
      rewrite Nat2Z.inj_succ, Z.pow_succ_r by lia. lia.
    + rewrite IH. apply Z.div_pos; lia.
Qed.

Lemma shr_1_even (m : Z) :
  0 <= m ->
  shr_1 (Build_shr_record (2 * m) false false) = Build_shr_record m false false.
Proof. intros _. destruct m as [|p|p]; reflexivity. Qed.

Lemma iter_shr_1_exact (n : nat) (m : Z) :
  0 <= m ->
  Nat.iter n shr_1 (Build_shr_record (m * 2 ^ Z.of_nat n) false false)
  = Build_shr_record m false false.
Proof.
  intros Hm. revert m Hm. induction n as [|n IH]; intros m Hm.
  - simpl. now rewrite Z.mul_1_r.
  - rewrite Nat.iter_succ_r.
    replace (m * 2 ^ Z.of_nat (S n)) with (2 * (m * 2 ^ Z.of_nat n)).
    + rewrite shr_1_even by lia. now apply IH.
    + rewrite Nat2Z.inj_succ, Z.pow_succ_r by lia. lia.
Qed.

Lemma round_nearest_even_cases (m : Z) (l : location) :
  round_nearest_even m l = m \/ round_nearest_even m l = m + 1.
Proof.
  destruct l as [|[| |]]; cbn [round_nearest_even]; auto.
  destruct (Z.even m); auto.
Qed.

Lemma shr_m_of_loc (m : Z) (l : location) : shr_m (shr_record_of_loc m l) = m.
Proof. destruct l as [|[| |]]; reflexivity. Qed.

Lemma digits2_pos_lower (p : positive) (k : Z) :
  2 ^ (k - 1) <= Z.pos p -> k <= Z.pos (digits2_pos p).
Proof.
  intros Hk. pose proof (digits2_pos_bounds p) as [_ Bhi].
  destruct (Z.le_gt_cases k (Z.pos (digits2_pos p))) as [|Hgt]; [assumption|].
  assert (2 ^ Z.pos (digits2_pos p) <= 2 ^ (k - 1))
    by (apply Z.pow_le_mono_r; lia).
  lia.
Qed.

Lemma digits2_pos_upper (p : positive) (k : Z) :
  0 <= k -> Z.pos p < 2 ^ k -> Z.pos (digits2_pos p) <= k.
Proof.
  intros H0 Hk. pose proof (digits2_pos_bounds p) as [Blo _].
  destruct (Z.le_gt_cases (Z.pos (digits2_pos p)) k) as [|Hgt]; [assumption|].
  assert (2 ^ k <= 2 ^ (Z.pos (digits2_pos p) - 1))
    by (apply Z.pow_le_mono_r; lia).
  lia.
Qed.

(** The quotient of a number of [d] digits by [2 ^ K] has [d - K]. *)
Lemma div_pow2_bounds (p : positive) (K : Z) :
  0 <= K < Z.pos (digits2_pos p) ->
  2 ^ (Z.pos (digits2_pos p) - K - 1) <= Z.pos p / 2 ^ K
  < 2 ^ (Z.pos (digits2_pos p) - K).
Proof.
  intros HK. pose proof (digits2_pos_bounds p) as [Blo Bhi].
  set (d := Z.pos (digits2_pos p)) in *.
  assert (HK2 : 0 < 2 ^ K) by (apply Z.pow_pos_nonneg; lia).
  split.
  - apply Z.div_le_lower_bound; [exact HK2|].
    rewrite <- Z.pow_add_r by lia.
    replace (K + (d - K - 1)) with (d - 1) by lia. exact Blo.
  - apply Z.div_lt_upper_bound; [exact HK2|].
    rewrite <- Z.pow_add_r by lia.
    replace (K + (d - K)) with d by lia. exact Bhi.
Qed.

(** Powers of two as rationals. *)

Lemma pow2_pos (e : Z) : (0 < 2 ^ e)%Q.
Proof. apply Qpower_0_lt. reflexivity. Qed.

Lemma pow2_add (a b : Z) : (2 ^ (a + b) == 2 ^ a * 2 ^ b)%Q.
Proof. apply Qpower_plus. discriminate. Qed.

Lemma pow2_le (a b : Z) : a <= b -> (2 ^ a <= 2 ^ b)%Q.
Proof. intros H. apply Qpower_le_compat_l; [exact H | discriminate]. Qed.

Lemma pow2_lt (a b : Z) : a < b -> (2 ^ a < 2 ^ b)%Q.
Proof. intros H. apply Qpower_lt_compat_l; [exact H | reflexivity]. Qed.

Lemma pow2_lt_inv (a b : Z) : (2 ^ a < 2 ^ b)%Q -> a < b.
Proof. intros H. apply (Qpower_lt_compat_l_inv 2); [exact H | reflexivity]. Qed.

Lemma pow2_le_inv (a b : Z) : (2 ^ a <= 2 ^ b)%Q -> a <= b.
Proof. intros H. apply (Qpower_le_compat_l_inv 2); [exact H | reflexivity]. Qed.

Lemma pow2_inject (k : Z) : 0 <= k -> (inject_Z (2 ^ k) == 2 ^ k)%Q.
Proof. intros H. now rewrite Zpower_Qpower. Qed.

Lemma pow2_succ (a : Z) : (2 ^ (a + 1) == 2 * 2 ^ a)%Q.
Proof. rewrite pow2_add. change (2 ^ 1)%Q with 2%Q. ring. Qed.

Lemma pow2_inv (a : Z) : (2 ^ a * 2 ^ (- a) == 1)%Q.
Proof. rewrite <- pow2_add, Z.add_opp_diag_r. reflexivity. Qed.

(** A mantissa of [d] digits at the exponent [e] is a number between
    [2 ^ (d + e - 1)] and [2 ^ (d + e)]. *)
Lemma digits_value_bounds (p : positive) (e : Z) :
  (2 ^ (Z.pos (digits2_pos p) + e - 1) <= inject_Z (Z.pos p) * 2 ^ e
   /\ inject_Z (Z.pos p) * 2 ^ e < 2 ^ (Z.pos (digits2_pos p) + e))%Q.
Proof.
  pose proof (digits2_pos_bounds p) as [Blo Bhi].
  pose proof (pow2_pos e) as He.
  assert (Qlo : (2 ^ (Z.pos (digits2_pos p) - 1) <= inject_Z (Z.pos p))%Q).
  { rewrite <- pow2_inject by lia. now rewrite <- Zle_Qle. }
  assert (Qhi : (inject_Z (Z.pos p) < 2 ^ Z.pos (digits2_pos p))%Q).
  { rewrite <- pow2_inject by lia. now rewrite <- Zlt_Qlt. }
  replace (Z.pos (digits2_pos p) + e - 1)
    with ((Z.pos (digits2_pos p) - 1) + e) by lia.
  rewrite !pow2_add. split; nra.
Qed.

Lemma pos_iter_xO (p k : positive) :
  Z.pos (Pos.iter xO p k) = Z.pos p * 2 ^ Z.pos k.
Proof.
  induction k as [|k IH] using Pos.peano_ind.
  - simpl. lia.
  - rewrite Pos.iter_succ, Pos2Z.inj_xO, IH, Pos2Z.inj_succ,
      Z.pow_succ_r by lia.
    lia.
Qed.

(** Aligning a mantissa on a lower exponent keeps the number. *)
Lemma shl_align_le (p : positive) (e e' : Z) :
  e' <= e ->
  exists p', shl_align p e e' = (p', e')
             /\ Z.pos p' = Z.pos p * 2 ^ (e - e').
Proof.
  intros He. unfold shl_align. destruct (e' - e) as [|k|k] eqn:Ek; try lia.
  - assert (e' = e) as -> by lia. exists p. rewrite Z.sub_diag. split;
      [reflexivity | lia].
  - exists (Pos.iter xO p k). split; [reflexivity|].
    rewrite pos_iter_xO. f_equal. f_equal. lia.
Qed.

Lemma shl_align_gt (p : positive) (e e' : Z) :
  e <= e' -> shl_align p e e' = (p, e).
Proof.
  intros He. unfold shl_align. destruct (e' - e) as [|k|k] eqn:Ek;
    try reflexivity. lia.
Qed.

Lemma digits2_pos_shift (p p' : positive) (k : Z) :
  0 <= k -> Z.pos p' = Z.pos p * 2 ^ k ->
  Z.pos (digits2_pos p') = Z.pos (digits2_pos p) + k.
Proof.
  intros Hk E. pose proof (digits2_pos_bounds p) as [Blo Bhi].
  assert (0 < 2 ^ k) by (apply Z.pow_pos_nonneg; lia).
  apply digits2_pos_unique. rewrite E. split.
  - replace (Z.pos (digits2_pos p) + k - 1)
      with ((Z.pos (digits2_pos p) - 1) + k) by lia.
    rewrite Z.pow_add_r by lia. nia.
  - rewrite Z.pow_add_r by lia. nia.
Qed.

(** The format: [prec] digits, exponents below [emax]. *)
Section Format.
Context (prec emax : Z) (Hprec : 0 < prec).

(** The shift that brings a mantissa of [d] digits down to [prec]. *)
Lemma shr_fexp_shift (p : positive) (e : Z) (l : location) :
  let K := Z.max (Z.pos (digits2_pos p) - prec) 0 in
  emin prec emax <= e + K ->
  shr_fexp prec emax (Z.pos p) e l
  = (Nat.iter (Z.to_nat K) shr_1 (shr_record_of_loc (Z.pos p) l), e + K).
Proof using Hprec.
  intros K HK. unfold shr_fexp, shr, fexp. cbn [Zdigits2].
  destruct (Z.max (Z.pos (digits2_pos p) + e - prec) (emin prec emax) - e)
    as [|k|k] eqn:Ek.
  - assert (K = 0) as -> by lia. now rewrite Z.add_0_r.
  - assert (K = Z.pos k) as -> by lia.
    rewrite iter_pos_nat. reflexivity.
  - assert (K = 0) as -> by lia. now rewrite Z.add_0_r.
Qed.

(** A mantissa of at most [prec] digits is left as it is. *)
Lemma shr_fexp_fits (p : positive) (e : Z) :
  Z.pos (digits2_pos p) <= prec ->
  emin prec emax <= e ->
  shr_fexp prec emax (Z.pos p) e loc_Exact
  = (Build_shr_record (Z.pos p) false false, e).
Proof using Hprec.
  intros Hd He. rewrite shr_fexp_shift by lia.
  replace (Z.max (Z.pos (digits2_pos p) - prec) 0) with 0 by lia.
  now rewrite Z.add_0_r.
Qed.

(** The mantissa [2 ^ prec], which rounding up can give, loses one bit. *)
Lemma shr_fexp_carry (e : Z) :
  emin prec emax <= e ->
  shr_fexp prec emax (2 ^ prec) e loc_Exact
  = (Build_shr_record (2 ^ (prec - 1)) false false, e + 1).
Proof using Hprec.
  intros He.
  assert (Hpos : 0 < 2 ^ prec) by (apply Z.pow_pos_nonneg; lia).
  destruct (2 ^ prec) as [|p|p] eqn:Ep; try lia.
  assert (Hd : Z.pos (digits2_pos p) = prec + 1).
  { apply digits2_pos_unique. rewrite <- Ep.
    replace (prec + 1 - 1) with prec by lia.
    split; [lia|]. rewrite Z.pow_add_r by lia. lia. }
  rewrite shr_fexp_shift by lia. rewrite Hd.
  replace (Z.max (prec + 1 - prec) 0) with 1 by lia.
  change (Z.to_nat 1) with 1%nat. rewrite Nat.iter_succ. simpl Nat.iter.
  cbn [shr_record_of_loc].
  rewrite <- Ep.
  replace (2 ^ prec) with (2 * 2 ^ (prec - 1)).
  - rewrite shr_1_even; [reflexivity|]. apply Z.pow_nonneg. lia.
  - rewrite <- Z.pow_succ_r by lia. f_equal. lia.
Qed.

(** A number that needs no rounding: the low bits that are dropped are
    zeros. *)
Lemma binary_round_aux_exact (s : bool) (p : positive) (e : Z) :
  let K := Z.max (Z.pos (digits2_pos p) - prec) 0 in
  (2 ^ K | Z.pos p) ->
  emin prec emax <= e + K ->
  e + K <= emax - prec ->
  binary_round_aux prec emax s (Z.pos p) e loc_Exact
  = S754_finite s (Z.to_pos (Z.pos p / 2 ^ K)) (e + K).
Proof using Hprec.
  intros K [q Hq] Hlo Hhi.
  assert (HK : 0 <= K < Z.pos (digits2_pos p)) by lia.
  assert (HK2 : 0 < 2 ^ K) by (apply Z.pow_pos_nonneg; lia).
  pose proof (div_pow2_bounds p K HK) as [Dlo Dhi].
  assert (Hdiv : Z.pos p / 2 ^ K = q)
    by (rewrite Hq; apply Z.div_mul; lia).
  rewrite Hdiv in *.
  assert (Hq0 : 0 < q).
  { assert (0 < 2 ^ (Z.pos (digits2_pos p) - K - 1))
      by (apply Z.pow_pos_nonneg; lia).
    lia. }
  unfold binary_round_aux.
  rewrite shr_fexp_shift by exact Hlo. fold K.
  cbn [shr_record_of_loc]. rewrite Hq.
  pose proof (iter_shr_1_exact (Z.to_nat K) q) as Hiter.
  rewrite Z2Nat.id in Hiter by lia. rewrite Hiter by lia.
  cbn [shr_m loc_of_shr_record round_nearest_even].
  destruct q as [|q'|q']; try lia.
  rewrite shr_fexp_fits.
  - cbn [shr_m]. replace (e + K <=? emax - prec) with true
      by (symmetry; apply Z.leb_le; lia).
    reflexivity.
  - apply digits2_pos_upper; [lia|].
    eapply Z.lt_le_trans; [exact Dhi|]. apply Z.pow_le_mono_r; lia.
  - exact Hlo.
Qed.

(** A number of at least [prec] digits in the normal range: the result
    is the number without its low bits, or the next one. *)
Lemma binary_round_aux_rounds (s : bool) (p : positive) (e : Z)
    (l : location) :
  let K := Z.pos (digits2_pos p) - prec in
  0 <= K ->
  emin prec emax <= e + K ->
  e + K + 1 <= emax - prec ->
  exists (m : positive) (e' : Z) (r : Z),
    binary_round_aux prec emax s (Z.pos p) e l = S754_finite s m e'
    /\ Z.pos (digits2_pos m) = prec
    /\ (r = Z.pos p / 2 ^ K \/ r = Z.pos p / 2 ^ K + 1)
    /\ ((Z.pos m = r /\ e' = e + K)
        \/ (2 * Z.pos m = r /\ e' = e + K + 1)).
Proof using Hprec.
  intros K HK Hlo Hhi.
  assert (HKd : 0 <= K < Z.pos (digits2_pos p)) by lia.
  pose proof (div_pow2_bounds p K HKd) as [Dlo Dhi].
  replace (Z.pos (digits2_pos p) - K - 1) with (prec - 1) in Dlo by lia.
  replace (Z.pos (digits2_pos p) - K) with prec in Dhi by lia.
  assert (Hp1 : 0 < 2 ^ (prec - 1)) by (apply Z.pow_pos_nonneg; lia).
  unfold binary_round_aux.
  rewrite shr_fexp_shift
    by (replace (Z.max (Z.pos (digits2_pos p) - prec) 0) with K by lia;
        exact Hlo).
  replace (Z.max (Z.pos (digits2_pos p) - prec) 0) with K by lia.
  set (mrs := Nat.iter (Z.to_nat K) shr_1 (shr_record_of_loc (Z.pos p) l)).
  assert (Hm : shr_m mrs = Z.pos p / 2 ^ K).
  { unfold mrs. rewrite iter_shr_1_div by (rewrite shr_m_of_loc; lia).
    rewrite shr_m_of_loc, Z2Nat.id by lia. reflexivity. }
  set (r := round_nearest_even (shr_m mrs) (loc_of_shr_record mrs)).
  assert (Hr : r = Z.pos p / 2 ^ K \/ r = Z.pos p / 2 ^ K + 1).
  { unfold r. rewrite <- Hm. apply round_nearest_even_cases. }
  assert (Hr2 : 2 ^ (prec - 1) <= r <= 2 ^ prec) by lia.
  destruct (Z.eq_dec r (2 ^ prec)) as [Heq | Hne].
  - rewrite Heq, shr_fexp_carry by exact Hlo.
    cbn [shr_m]. destruct (2 ^ (prec - 1)) as [|m|m] eqn:Em; try lia.
    replace (e + K + 1 <=? emax - prec) with true
      by (symmetry; apply Z.leb_le; lia).
    exists m, (e + K + 1), r. split; [reflexivity|]. split.
    + apply digits2_pos_unique. rewrite <- Em. split; [lia|].
      apply Z.pow_lt_mono_r; lia.
    + split; [exact Hr|]. right. split; [|reflexivity].
      rewrite Heq, <- Em, <- Z.pow_succ_r by lia. f_equal. lia.
  - destruct r as [|m|m] eqn:Er; try lia.
    assert (Hd : Z.pos (digits2_pos m) = prec)
      by (apply digits2_pos_unique; lia).
    rewrite shr_fexp_fits by lia.
    cbn [shr_m]. replace (e + K <=? emax - prec) with true
      by (symmetry; apply Z.leb_le; lia).
    exists m, (e + K), (Z.pos m). split; [reflexivity|]. split; [exact Hd|].
    split; [exact Hr|]. left. split; reflexivity.
Qed.

(** Rounding in the normal range: the result is within one unit in the
    last place of any number that lies between the mantissa and the next
    one, which is a relative error of at most [2 ^ (1 - prec)]. *)
Lemma binary_round_aux_faithful (s : bool) (p : positive) (e : Z)
    (l : location) (X : Q) :
  prec <= Z.pos (digits2_pos p) ->
  (inject_Z (Z.pos p) * 2 ^ e <= X)%Q ->
  (X < inject_Z (Z.pos p + 1) * 2 ^ e)%Q ->
  (2 ^ (emin prec emax + prec - 1) <= X)%Q ->
  (X < 2 ^ (emax - 1))%Q ->
  exists (m : positive) (e' : Z),
    binary_round_aux prec emax s (Z.pos p) e l = S754_finite s m e'
    /\ Z.pos (digits2_pos m) = prec
    /\ (X * (1 - 2 ^ (1 - prec)) <= inject_Z (Z.pos m) * 2 ^ e')%Q
    /\ (inject_Z (Z.pos m) * 2 ^ e' <= X * (1 + 2 ^ (1 - prec)))%Q.
Proof using Hprec.
  intros Hd Xlo Xhi Nlo Nhi.
  pose proof (digits_value_bounds p e) as [Vlo Vhi].
  pose proof (digits2_pos_bounds p) as [Blo Bhi].
  set (d := Z.pos (digits2_pos p)) in *.
  set (K := d - prec).
  pose proof (pow2_pos e) as He.
  assert (Hde : emin prec emax + prec - 1 < d + e).
  { apply pow2_lt_inv. eapply Qle_lt_trans; [exact Nlo|].
    eapply Qlt_le_trans; [exact Xhi|].
    assert (inject_Z (Z.pos p + 1) <= 2 ^ d)%Q.
    { rewrite <- pow2_inject by lia. rewrite <- Zle_Qle. lia. }
    rewrite pow2_add. nra. }
  assert (Hde2 : d + e - 1 < emax - 1).
  { apply pow2_lt_inv. eapply Qle_lt_trans; [exact Vlo|].
    eapply Qle_lt_trans; [exact Xlo | exact Nhi]. }
  destruct (binary_round_aux_rounds s p e l)
    as (m & e' & r & Hres & Hdm & Hr & Hme); fold d; fold K; try lia.
  fold d in Hr, Hme. fold K in Hr, Hme.
  exists m, e'. split; [exact Hres|]. split; [exact Hdm|].
  assert (HK2 : (0 < 2 ^ K)%Z) by (apply Z.pow_pos_nonneg; lia).
  set (m1 := (Z.pos p / 2 ^ K)%Z) in *.
  assert (Hdiv : (m1 * 2 ^ K <= Z.pos p < (m1 + 1) * 2 ^ K)%Z).
  { pose proof (Z.div_mod (Z.pos p) (2 ^ K) ltac:(lia)) as E.
    pose proof (Z.mod_pos_bound (Z.pos p) (2 ^ K) HK2) as B.
    fold m1 in E. lia. }
  pose proof (div_pow2_bounds p K ltac:(lia)) as [Dlo _].
  fold d in Dlo. fold m1 in Dlo.
  replace (d - K - 1)%Z with (prec - 1)%Z in Dlo by lia.
  set (U := (2 ^ (e + K))%Q).
  assert (HU : (0 < U)%Q) by apply pow2_pos.
  assert (HUe : (U == 2 ^ K * 2 ^ e)%Q)
    by (unfold U; rewrite Z.add_comm; apply pow2_add).
  assert (HKq : (inject_Z (2 ^ K) == 2 ^ K)%Q) by (apply pow2_inject; lia).
  assert (X1 : (inject_Z m1 * U <= X)%Q).
  { eapply Qle_trans; [|exact Xlo]. rewrite HUe, <- HKq.
    rewrite Qmult_assoc, <- inject_Z_mult.
    apply Qmult_le_compat_r; [|lra]. rewrite <- Zle_Qle. lia. }
  assert (X2 : (X <= (inject_Z m1 + 1) * U)%Q).
  { eapply Qle_trans; [apply Qlt_le_weak; exact Xhi|]. rewrite HUe, <- HKq.
    change 1%Q with (inject_Z 1). rewrite <- inject_Z_plus.
    rewrite Qmult_assoc, <- inject_Z_mult.
    apply Qmult_le_compat_r; [|lra]. rewrite <- Zle_Qle. lia. }
  assert (HP : (2 ^ (prec - 1) <= inject_Z m1)%Q).
  { rewrite <- pow2_inject by lia. now rewrite <- Zle_Qle. }
  assert (Hu : (2 ^ (prec - 1) * 2 ^ (1 - prec) == 1)%Q).
  { rewrite <- pow2_add. replace (prec - 1 + (1 - prec))%Z with 0%Z by lia.
    reflexivity. }
  pose proof (pow2_pos (1 - prec)) as Hupos.
  pose proof (pow2_pos (prec - 1)) as HPpos.
  set (u := (2 ^ (1 - prec))%Q) in *.
  set (P := (2 ^ (prec - 1))%Q) in *.
  assert (HUX : (U <= X * u)%Q).
  { assert (P * U <= X)%Q by nra.
    assert (P * U * u <= X * u)%Q by nra.
    assert (P * U * u == U)%Q
      by (transitivity ((P * u) * U)%Q; [ring | rewrite Hu; ring]).
    lra. }
  assert (HV : (inject_Z (Z.pos m) * 2 ^ e' == inject_Z r * U)%Q).
  { destruct Hme as [[E1 E2] | [E1 E2]]; subst e'.
    - rewrite E1. reflexivity.
    - rewrite <- E1, inject_Z_mult. unfold U.
      rewrite (pow2_succ (e + K)). change (inject_Z 2) with 2%Q. ring. }
  rewrite HV.
  assert (Hrq : (inject_Z r == inject_Z m1 \/ inject_Z r == inject_Z m1 + 1)%Q).
  { destruct Hr as [-> | ->]; [left; reflexivity|right].
    rewrite inject_Z_plus. reflexivity. }
  destruct Hrq as [-> | ->]; split; nra.
Qed.

(** [binary_round] of a mantissa that fits: it is aligned on [prec]
    digits and nothing is lost. *)
Lemma binary_round_small (s : bool) (p : positive) (e : Z) :
  let d := Z.pos (digits2_pos p) in
  d <= prec ->
  emin prec emax <= d + e - prec ->
  d + e <= emax ->
  binary_round prec emax s p e
  = S754_finite s (Z.to_pos (Z.pos p * 2 ^ (prec - d))) (d + e - prec).
Proof using Hprec.
  intros d Hd Hlo Hhi. unfold binary_round, fexp. fold d.
  replace (Z.max (d + e - prec) (emin prec emax)) with (d + e - prec) by lia.
  destruct (shl_align_le p e (d + e - prec) ltac:(lia)) as (p' & -> & Hp').
  replace (e - (d + e - prec)) with (prec - d) in Hp' by lia.
  pose proof (digits2_pos_shift p p' (prec - d) ltac:(lia) Hp') as Hd'.
  fold d in Hd'.
  rewrite binary_round_aux_exact; rewrite Hd'.
  - replace (Z.max (d + (prec - d) - prec) 0) with 0 by lia.
    rewrite Z.pow_0_r, Z.div_1_r, Z.add_0_r, Hp'. reflexivity.
  - replace (Z.max (d + (prec - d) - prec) 0) with 0 by lia.
    rewrite Z.pow_0_r. apply Z.divide_1_l.
  - lia.
  - lia.
Qed.

(** [binary_round] in the normal range: a float of [prec] digits within
    a relative [2 ^ (1 - prec)] of the number, and the number itself when
    its mantissa fits. *)
Lemma binary_round_faithful (s : bool) (p : positive) (e : Z) :
  let X := (inject_Z (Z.pos p) * 2 ^ e)%Q in
  (2 ^ (emin prec emax + prec - 1) <= X)%Q ->
  (X < 2 ^ (emax - 1))%Q ->
  exists (m : positive) (e' : Z),
    binary_round prec emax s p e = S754_finite s m e'
    /\ Z.pos (digits2_pos m) = prec
    /\ (X * (1 - 2 ^ (1 - prec)) <= inject_Z (Z.pos m) * 2 ^ e')%Q
    /\ (inject_Z (Z.pos m) * 2 ^ e' <= X * (1 + 2 ^ (1 - prec)))%Q
    /\ (Z.pos (digits2_pos p) <= prec -> (inject_Z (Z.pos m) * 2 ^ e' == X)%Q).
Proof using Hprec.
  intros X Nlo Nhi.
  pose proof (digits_value_bounds p e) as [Vlo Vhi]. fold X in Vlo, Vhi.
  set (d := Z.pos (digits2_pos p)) in *.
  assert (Hde : emin prec emax + prec - 1 < d + e).
  { apply pow2_lt_inv. eapply Qle_lt_trans; [exact Nlo | exact Vhi]. }
  assert (Hde2 : d + e - 1 < emax - 1).
  { apply pow2_lt_inv. eapply Qle_lt_trans; [exact Vlo | exact Nhi]. }
  pose proof (pow2_pos (1 - prec)) as Hu.
  assert (HX : (0 < X)%Q).
  { eapply Qlt_le_trans; [apply (pow2_pos (d + e - 1)) | exact Vlo]. }
  destruct (Z.le_gt_cases d prec) as [Hd | Hd].
  - pose proof (binary_round_small s p e Hd ltac:(fold d; lia)
                  ltac:(fold d; lia)) as Hres.
    fold d in Hres.
    assert (Hpos : 0 < Z.pos p * 2 ^ (prec - d))
      by (apply Z.mul_pos_pos; [lia | apply Z.pow_pos_nonneg; lia]).
    destruct (Z.pos p * 2 ^ (prec - d)) as [|m|m] eqn:Em; try lia.
    exists m, (d + e - prec). split; [exact Hres|].
    assert (Hdm : Z.pos (digits2_pos m) = prec).
    { rewrite (digits2_pos_shift p m (prec - d)) by lia. fold d. lia. }
    assert (HV : (inject_Z (Z.pos m) * 2 ^ (d + e - prec) == X)%Q).
    { rewrite <- Em, inject_Z_mult, pow2_inject by lia. unfold X.
      rewrite <- Qmult_assoc, <- pow2_add.
      replace (prec - d + (d + e - prec)) with e by lia. reflexivity. }
    split; [exact Hdm|]. rewrite HV.
    split; [nra|]. split; [nra|]. reflexivity.
  - unfold binary_round, fexp. fold d.
    rewrite shl_align_gt by lia.
    destruct (binary_round_aux_faithful s p e loc_Exact X)
      as (m & e' & Hres & Hdm & Hlo & Hhi); try assumption.
    + fold d. lia.
    + apply Qle_refl.
    + unfold X. rewrite inject_Z_plus. pose proof (pow2_pos e).
      change (inject_Z 1) with 1%Q. nra.
    + exists m, e'. split; [exact Hres|]. split; [exact Hdm|].
      split; [exact Hlo|]. split; [exact Hhi|]. lia.
Qed.

(** The product of two floats, the second of [prec] digits. *)
Lemma SFmul_faithful (sx sy : bool) (mx my : positive) (ex ey : Z) :
  let X := ((inject_Z (Z.pos mx) * 2 ^ ex)
            * (inject_Z (Z.pos my) * 2 ^ ey))%Q in
  Z.pos (digits2_pos my) = prec ->
  (2 ^ (emin prec emax + prec - 1) <= X)%Q ->
  (X < 2 ^ (emax - 1))%Q ->
  exists (m : positive) (e' : Z),
    SFmul prec emax (S754_finite sx mx ex) (S754_finite sy my ey)
    = S754_finite (xorb sx sy) m e'
    /\ Z.pos (digits2_pos m) = prec
    /\ (X * (1 - 2 ^ (1 - prec)) <= inject_Z (Z.pos m) * 2 ^ e')%Q
    /\ (inject_Z (Z.pos m) * 2 ^ e' <= X * (1 + 2 ^ (1 - prec)))%Q.
Proof using Hprec.
  intros X Hdy Nlo Nhi. cbn [SFmul].
  assert (HX : (X == inject_Z (Z.pos (mx * my)) * 2 ^ (ex + ey))%Q).
  { unfold X. rewrite Pos2Z.inj_mul, inject_Z_mult, pow2_add. ring. }
  apply binary_round_aux_faithful.
  - apply digits2_pos_lower. rewrite Pos2Z.inj_mul.
    pose proof (digits2_pos_bounds my) as [Blo _]. rewrite Hdy in Blo.
    assert (0 < 2 ^ (prec - 1)) by (apply Z.pow_pos_nonneg; lia). nia.
  - rewrite HX. apply Qle_refl.
  - rewrite HX, inject_Z_plus. pose proof (pow2_pos (ex + ey)).
    change (inject_Z 1) with 1%Q. nra.
  - exact Nlo.
  - exact Nhi.
Qed.

(** The quotient of two floats in the normal range. [X] is the exact
    quotient. *)
Lemma SFdiv_faithful (sx sy : bool) (mx my : positive) (ex ey : Z) (X : Q) :
  (X * (inject_Z (Z.pos my) * 2 ^ ey) == inject_Z (Z.pos mx) * 2 ^ ex)%Q ->
  (2 ^ (emin prec emax + prec + 1) <= X)%Q ->
  (X < 2 ^ (emax - 1))%Q ->
  exists (m : positive) (e' : Z),
    SFdiv prec emax (S754_finite sx mx ex) (S754_finite sy my ey)
    = S754_finite (xorb sx sy) m e'
    /\ Z.pos (digits2_pos m) = prec
    /\ (X * (1 - 2 ^ (1 - prec)) <= inject_Z (Z.pos m) * 2 ^ e')%Q
    /\ (inject_Z (Z.pos m) * 2 ^ e' <= X * (1 + 2 ^ (1 - prec)))%Q.
Proof using Hprec.
  intros HX Nlo Nhi. cbn [SFdiv]. unfold SFdiv_core_binary. cbn [Zdigits2].
  pose proof (digits_value_bounds mx ex) as [Alo Ahi].
  pose proof (digits_value_bounds my ey) as [Blo Bhi].
  pose proof (digits2_pos_bounds mx) as [ZAlo ZAhi].
  pose proof (digits2_pos_bounds my) as [ZBlo ZBhi].
  set (d1 := Z.pos (digits2_pos mx)) in *.
  set (d2 := Z.pos (digits2_pos my)) in *.
  set (A := (inject_Z (Z.pos mx) * 2 ^ ex)%Q) in *.
  set (B := (inject_Z (Z.pos my) * 2 ^ ey)%Q) in *.
  set (x' := d1 + ex - (d2 + ey)).
  assert (HB : (0 < B)%Q).
  { eapply Qlt_le_trans; [apply (pow2_pos (d2 + ey - 1)) | exact Blo]. }
  assert (Hx' : (X < 2 ^ (x' + 1))%Q).
  { assert (E : (2 ^ (x' + 1) * 2 ^ (d2 + ey - 1) == 2 ^ (d1 + ex))%Q).
    { rewrite <- pow2_add. replace (x' + 1 + (d2 + ey - 1)) with (d1 + ex)
        by (unfold x'; lia).
      reflexivity. }
    pose proof (pow2_pos (x' + 1)). pose proof (pow2_pos (d2 + ey - 1)).
    destruct (Qlt_le_dec X (2 ^ (x' + 1))) as [|Hge]; [assumption|].
    exfalso. nra. }
  assert (Hxe : emin prec emax + prec < x').
  { assert (emin prec emax + prec + 1 < x' + 1); [|lia].
    apply pow2_lt_inv. eapply Qle_lt_trans; [exact Nlo | exact Hx']. }
  unfold fexp. fold x'.
  replace (Z.max (x' - prec) (emin prec emax)) with (x' - prec) by lia.
  set (e0 := Z.min (x' - prec) (ex - ey)).
  set (s := ex - ey - e0).
  assert (Hs : 0 <= s) by (unfold s, e0; lia).
  assert (Hs2 : prec - d1 + d2 <= s) by (unfold s, e0, x'; lia).
  set (m' := match s with
             | 0 => Z.pos mx
             | Z.pos _ => Z.shiftl (Z.pos mx) s
             | Z.neg _ => 0
             end).
  assert (Hm' : m' = Z.pos mx * 2 ^ s).
  { unfold m'. destruct s as [|k|k] eqn:Es; try lia.
    apply Z.shiftl_mul_pow2. lia. }
  assert (HS2 : 0 < 2 ^ s) by (apply Z.pow_pos_nonneg; lia).
  pose proof (Z_div_mod m' (Z.pos my) ltac:(lia)) as Hdiv.
  destruct (Z.div_eucl m' (Z.pos my)) as [q r]. destruct Hdiv as [Hq Hr].
  assert (Hq1 : 2 ^ (prec - 1) <= q).
  { assert (E1 : 2 ^ (d1 - 1 + s) = 2 ^ (d1 - 1) * 2 ^ s)
      by (apply Z.pow_add_r; lia).
    assert (E2 : 2 ^ (d2 + (prec - 1)) = 2 ^ d2 * 2 ^ (prec - 1))
      by (apply Z.pow_add_r; lia).
    assert (E3 : 2 ^ (d2 + (prec - 1)) <= 2 ^ (d1 - 1 + s))
      by (apply Z.pow_le_mono_r; lia).
    assert (0 < 2 ^ (prec - 1)) by (apply Z.pow_pos_nonneg; lia).
    destruct (Z.le_gt_cases (2 ^ (prec - 1)) q) as [|Hlt]; [assumption|].
    exfalso. nia. }
  assert (Hp1 : 0 < 2 ^ (prec - 1)) by (apply Z.pow_pos_nonneg; lia).
  destruct q as [|pq|pq]; try lia.
  assert (HU : (0 < 2 ^ e0)%Q) by apply pow2_pos.
  assert (HA : (A == inject_Z m' * 2 ^ e0 * 2 ^ ey)%Q).
  { unfold A. rewrite Hm', inject_Z_mult, pow2_inject by lia.
    replace ex with (s + e0 + ey) at 1 by (unfold s; lia).
    rewrite !pow2_add. ring. }
  assert (HXm : (X * inject_Z (Z.pos my)
                 == (inject_Z (Z.pos my) * inject_Z (Z.pos pq) + inject_Z r)
                    * 2 ^ e0)%Q).
  { rewrite <- inject_Z_mult, <- inject_Z_plus, <- Hq.
    pose proof (pow2_pos ey) as Hey.
    apply (Qmult_inj_r _ _ (2 ^ ey)%Q); [lra|].
    rewrite <- HA, <- HX. unfold B. ring. }
  assert (Hmy : (0 < inject_Z (Z.pos my))%Q)
    by (change 0%Q with (inject_Z 0); rewrite <- Zlt_Qlt; lia).
  assert (Hr0 : (0 <= inject_Z r)%Q)
    by (change 0%Q with (inject_Z 0); rewrite <- Zle_Qle; lia).
  assert (Hr1 : (inject_Z r < inject_Z (Z.pos my))%Q)
    by (rewrite <- Zlt_Qlt; lia).
  apply binary_round_aux_faithful.
  - apply digits2_pos_lower. exact Hq1.
  - destruct (Qlt_le_dec X (inject_Z (Z.pos pq) * 2 ^ e0)) as [Hlt|];
      [exfalso; nra | assumption].
  - rewrite inject_Z_plus. change (inject_Z 1) with 1%Q.
    destruct (Qlt_le_dec X ((inject_Z (Z.pos pq) + 1) * 2 ^ e0)) as [|Hge];
      [assumption | exfalso; nra].
  - eapply Qle_trans; [|exact Nlo]. apply pow2_le. lia.
  - exact Nhi.
Qed.

(** The difference of two positive floats: zero when they are equal,
    else a float with the sign of the difference and within a relative
    [2 ^ (1 - prec)] of it. *)
Lemma SFsub_faithful (mx my : positive) (ex ey : Z) :
  let X := (inject_Z (Z.pos mx) * 2 ^ ex)%Q in
  let Y := (inject_Z (Z.pos my) * 2 ^ ey)%Q in
  let r := SFsub prec emax (S754_finite false mx ex)
                 (S754_finite false my ey) in
  emin prec emax + prec - 1 <= Z.min ex ey ->
  (X < 2 ^ (emax - 1))%Q ->
  (Y < 2 ^ (emax - 1))%Q ->
  ((X == Y)%Q /\ r = S754_zero false)
  \/ exists (s : bool) (m : positive) (e' : Z) (D : Q),
       r = S754_finite s m e'
       /\ (D == if s then Y - X else X - Y)%Q
       /\ Z.pos (digits2_pos m) = prec
       /\ (2 ^ Z.min ex ey <= D)%Q
       /\ (D * (1 - 2 ^ (1 - prec)) <= inject_Z (Z.pos m) * 2 ^ e')%Q
       /\ (inject_Z (Z.pos m) * 2 ^ e' <= D * (1 + 2 ^ (1 - prec)))%Q.
Proof using Hprec.
  intros X Y r Hez HXhi HYhi. unfold r. cbn [SFsub cond_Zopp].
  set (ez := Z.min ex ey) in *.
  destruct (shl_align_le mx ex ez ltac:(unfold ez; lia)) as (px & -> & Hpx).
  destruct (shl_align_le my ey ez ltac:(unfold ez; lia)) as (py & -> & Hpy).
  cbn [fst].
  pose proof (pow2_pos ez) as Hz.
  assert (EX : (X == inject_Z (Z.pos px) * 2 ^ ez)%Q).
  { unfold X. rewrite Hpx, inject_Z_mult, pow2_inject by (unfold ez; lia).
    rewrite <- Qmult_assoc, <- pow2_add.
    replace (ex - ez + ez) with ex by lia. reflexivity. }
  assert (EY : (Y == inject_Z (Z.pos py) * 2 ^ ez)%Q).
  { unfold Y. rewrite Hpy, inject_Z_mult, pow2_inject by (unfold ez; lia).
    rewrite <- Qmult_assoc, <- pow2_add.
    replace (ey - ez + ez) with ey by lia. reflexivity. }
  assert (HX0 : (0 < X)%Q).
  { rewrite EX. apply Qmult_lt_0_compat; [|exact Hz].
    change 0%Q with (inject_Z 0). rewrite <- Zlt_Qlt. lia. }
  assert (HY0 : (0 < Y)%Q).
  { rewrite EY. apply Qmult_lt_0_compat; [|exact Hz].
    change 0%Q with (inject_Z 0). rewrite <- Zlt_Qlt. lia. }
  destruct (Z.pos px - Z.pos py) as [|pm|pm] eqn:EM; cbn [binary_normalize].
  - left. split; [|reflexivity].
    assert (Z.pos px = Z.pos py) as E by lia. rewrite EX, EY, E. reflexivity.
  - right.
    assert (ED : (X - Y == inject_Z (Z.pos pm) * 2 ^ ez)%Q).
    { rewrite <- EM, EX, EY. unfold Z.sub.
      rewrite inject_Z_plus, inject_Z_opp. ring. }
    assert (H1 : (1 <= inject_Z (Z.pos pm))%Q)
      by (change 1%Q with (inject_Z 1); rewrite <- Zle_Qle; lia).
    destruct (binary_round_faithful false pm ez)
      as (m & e' & Hres & Hdm & Hlo & Hhi & _).
    + eapply Qle_trans; [apply (pow2_le _ ez); exact Hez|]. nra.
    + rewrite <- ED. lra.
    + exists false, m, e', (X - Y)%Q. split; [exact Hres|].
      split; [reflexivity|]. split; [exact Hdm|].
      rewrite ED. split; [nra|]. split; assumption.
  - right.
    assert (ED : (Y - X == inject_Z (Z.pos pm) * 2 ^ ez)%Q).
    { assert (Z.pos pm = Z.pos py - Z.pos px) as -> by lia.
      rewrite EX, EY. unfold Z.sub.
      rewrite inject_Z_plus, inject_Z_opp. ring. }
    assert (H1 : (1 <= inject_Z (Z.pos pm))%Q)
      by (change 1%Q with (inject_Z 1); rewrite <- Zle_Qle; lia).
    destruct (binary_round_faithful true pm ez)
      as (m & e' & Hres & Hdm & Hlo & Hhi & _).
    + eapply Qle_trans; [apply (pow2_le _ ez); exact Hez|]. nra.
    + rewrite <- ED. lra.
    + exists true, m, e', (Y - X)%Q. split; [exact Hres|].
      split; [reflexivity|]. split; [exact Hdm|].
      rewrite ED. split; [nra|]. split; assumption.
Qed.

(** The order of positive floats of [prec] digits is the order of the
    numbers. *)
Lemma SFltb_positive (mx my : positive) (ex ey : Z) :
  let X := (inject_Z (Z.pos mx) * 2 ^ ex)%Q in
  let Y := (inject_Z (Z.pos my) * 2 ^ ey)%Q in
  Z.pos (digits2_pos mx) = prec ->
  Z.pos (digits2_pos my) = prec ->
  if SFltb (S754_finite false mx ex) (S754_finite false my ey)
  then (X < Y)%Q else (Y <= X)%Q.
Proof using Hprec.
  intros X Y Hdx Hdy. unfold SFltb. cbn [SFcompare].
  pose proof (digits_value_bounds mx ex) as [Xlo Xhi].
  pose proof (digits_value_bounds my ey) as [Ylo Yhi].
  rewrite Hdx in Xlo, Xhi. rewrite Hdy in Ylo, Yhi.
  fold X in Xlo, Xhi. fold Y in Ylo, Yhi.
  destruct (Z.compare_spec ex ey) as [Ec | Ec | Ec].
  - subst ey. pose proof (pow2_pos ex) as He.
    rewrite Pos.compare_cont_spec. cbn [Pos.switch_Eq].
    destruct (Pos.compare_spec mx my) as [Em | Em | Em].
    + subst my. apply Qle_refl.
    + unfold X, Y. apply Qmult_lt_compat_r; [exact He|].
      rewrite <- Zlt_Qlt. lia.
    + unfold X, Y. apply Qmult_le_compat_r; [|lra].
      rewrite <- Zle_Qle. lia.
  - eapply Qlt_le_trans; [exact Xhi|]. eapply Qle_trans; [|exact Ylo].
    apply pow2_le. lia.
  - eapply Qle_trans; [apply Qlt_le_weak; exact Yhi|].
    eapply Qle_trans; [|exact Xlo]. apply pow2_le. lia.
Qed.

End Format.

(** ** binary64 *)

Lemma prec_pos : 0 < Float.prec.
Proof. reflexivity. Qed.

(** A float whose number is positive is a finite one with the sign
    bit clear. *)
Lemma to_Q_positive (x : Float.float) :
  (0 < Float.to_Q x)%Q ->
  exists m e, x = S754_finite false m e
              /\ (Float.to_Q x == inject_Z (Z.pos m) * 2 ^ e)%Q.
Proof.
  destruct x as [s|s| |s m e]; cbn [Float.to_Q]; try (intros H; lra).
  assert (0 < inject_Z (Z.pos m) * 2 ^ e)%Q.
  { apply Qmult_lt_0_compat; [|apply pow2_pos].
    change 0%Q with (inject_Z 0). rewrite <- Zlt_Qlt. lia. }
  destruct s; [intros H0; lra|]. intros _. exists m, e.
  split; reflexivity.
Qed.

(** The exponent of a float of [prec] digits, from a bound on its
    number. *)
Lemma exponent_lower (prec : Z) (m : positive) (e L : Z) :
  Z.pos (digits2_pos m) = prec ->
  (2 ^ L <= inject_Z (Z.pos m) * 2 ^ e)%Q -> L - prec < e.
Proof.
  intros Hd HL. pose proof (digits_value_bounds m e) as [_ Vhi].
  rewrite Hd in Vhi. assert (L < prec + e); [|lia].
  apply pow2_lt_inv. eapply Qle_lt_trans; [exact HL | exact Vhi].
Qed.

(** An [int] below [2 ^ 53] converts to the float of the same number. *)
Lemma of_int_exact (n : Z) :
  0 < n < 2 ^ 53 ->
  exists m e,
    Float.of_int n = S754_finite false m e
    /\ Z.pos (digits2_pos m) = 53
    /\ - 52 <= e
    /\ Z.pos m = n * 2 ^ (- e)
    /\ (inject_Z (Z.pos m) * 2 ^ e == inject_Z n)%Q.
Proof.
  intros [Hn0 Hn]. destruct n as [|p|p]; try lia.
  unfold Float.of_int. cbn [binary_normalize].
  pose proof (digits2_pos_upper p 53 ltac:(lia) Hn) as Hd.
  assert (Hd1 : 1 <= Z.pos (digits2_pos p)) by lia.
  rewrite (binary_round_small Float.prec Float.emax prec_pos)
    by (unfold Float.prec, Float.emax, emin; lia).
  unfold Float.prec.
  set (d := Z.pos (digits2_pos p)) in *.
  assert (Hpos : 0 < Z.pos p * 2 ^ (53 - d))
    by (apply Z.mul_pos_pos; [lia | apply Z.pow_pos_nonneg; lia]).
  destruct (Z.pos p * 2 ^ (53 - d)) as [|m|m] eqn:Em; try lia.
  exists m, (d + 0 - 53). cbn [Z.to_pos]. split; [reflexivity|].
  split.
  { rewrite (digits2_pos_shift p m (53 - d)) by lia. fold d. lia. }
  split; [lia|]. split.
  { rewrite <- Em. f_equal. f_equal. lia. }
  rewrite <- Em, inject_Z_mult, pow2_inject by lia.
  rewrite <- Qmult_assoc, <- pow2_add.
  replace (53 - d + (d + 0 - 53)) with 0 by lia.
  change (2 ^ 0)%Q with 1%Q. ring.
Qed.

(** A float of 53 digits whose low 29 bits are zeros is a binary32 (when
    its exponent is in range): the conversion gives it back. *)
Lemma to_single_exact (m : positive) (e : Z) :
  Z.pos (digits2_pos m) = 53 ->
  (2 ^ 29 | Z.pos m) ->
  - 178 <= e <= 75 ->
  Float.to_single (S754_finite false m e) = S754_finite false m e.
Proof.
  intros Hd Hdiv He. unfold Float.to_single.
  cbn [cond_Zopp binary_normalize]. unfold binary_round at 1.
  rewrite Hd. unfold fexp at 1.
  replace (Z.max (53 + e - 24) (emin 24 128)) with (e + 29)
    by (unfold emin; lia).
  rewrite shl_align_gt by lia.
  rewrite (binary_round_aux_exact 24 128 eq_refl); rewrite Hd;
    change (Z.max (53 - 24) 0) with 29; [|exact Hdiv | unfold emin; lia | lia].
  destruct Hdiv as [q Hq].
  assert (Hq0 : 0 < q) by lia.
  rewrite Hq, Z.div_mul by lia.
  destruct q as [|pq|pq]; try lia. cbn [Z.to_pos cond_Zopp binary_normalize].
  assert (Hdq : Z.pos (digits2_pos pq) = 24).
  { pose proof (digits2_pos_shift pq m 29 ltac:(lia) Hq). lia. }
  rewrite (binary_round_small Float.prec Float.emax prec_pos);
    rewrite Hdq; unfold Float.prec, Float.emax;
    [|lia | unfold emin; lia | lia].
  replace (24 + (e + 29) - 53) with e by lia.
  change (53 - 24) with 29. rewrite <- Hq. reflexivity.
Qed.

(** A target of at most [2 ^ 24] points is kept by the page box. *)
Lemma to_single_of_int (n : Z) :
  0 < n <= 2 ^ 24 ->
  Float.to_single (Float.of_int n) = Float.of_int n
  /\ (Float.to_Q (Float.of_int n) == inject_Z n)%Q.
Proof.
  intros Hn.
  destruct (of_int_exact n ltac:(lia)) as (m & e & Hof & Hd & He & Hm & HQ).
  rewrite Hof. split; [|exact HQ].
  pose proof (digits2_pos_bounds m) as [Blo Bhi]. rewrite Hd in Blo, Bhi.
  assert (He2 : e <= - 28).
  { destruct (Z.le_gt_cases e (- 28)) as [|Hgt]; [assumption|].
    assert (2 ^ (- e) <= 2 ^ 27) by (apply Z.pow_le_mono_r; lia).
    change (2 ^ (53 - 1)) with (2 ^ 24 * 2 ^ 28) in Blo.
    change (2 ^ 27) with 134217728 in *. change (2 ^ 24) with 16777216 in *.
    change (2 ^ 28) with 268435456 in *. nia. }
  apply to_single_exact; [exact Hd | | lia].
  destruct (Z.eq_dec e (- 28)) as [-> | Hne].
  - assert (n = 2 ^ 24) as ->.
    { change (- - 28) with 28 in Hm.
      change (2 ^ (53 - 1)) with (2 ^ 24 * 2 ^ 28) in Blo.
      change (2 ^ 24) with 16777216 in *.
      change (2 ^ 28) with 268435456 in *. lia. }
    rewrite Hm. exists (2 ^ 23). reflexivity.
  - exists (n * 2 ^ (- e - 29)). rewrite Hm, <- Z.mul_assoc.
    rewrite <- Z.pow_add_r by lia. f_equal. f_equal. lia.
Qed.

(** The operations of the script on binary64, for numbers in the normal
    range: each result is a float of 53 digits within a relative
    [2 ^ -52] of the exact result. *)

Lemma float_div_faithful (s : bool) (mx my : positive) (ex ey : Z) (X : Q) :
  (X * (inject_Z (Z.pos my) * 2 ^ ey) == inject_Z (Z.pos mx) * 2 ^ ex)%Q ->
  (2 ^ (-1020) <= X)%Q ->
  (X < 2 ^ 1023)%Q ->
  exists (m : positive) (e : Z),
    Float.div (S754_finite s mx ex) (S754_finite false my ey)
    = Ok (S754_finite s m e)
    /\ Z.pos (digits2_pos m) = 53
    /\ (X * (1 - 2 ^ (-52)) <= inject_Z (Z.pos m) * 2 ^ e)%Q
    /\ (inject_Z (Z.pos m) * 2 ^ e <= X * (1 + 2 ^ (-52)))%Q.
Proof.
  intros HX Nlo Nhi.
  destruct (SFdiv_faithful Float.prec Float.emax prec_pos s false mx my ex ey
              X HX Nlo Nhi) as (m & e & Hres & Hd & Hlo & Hhi).
  rewrite xorb_false_r in Hres.
  exists m, e. unfold Float.div. cbn [Float.is_zero]. rewrite Hres.
  repeat split; assumption.
Qed.

Lemma float_mul_faithful (mx my : positive) (ex ey : Z) :
  let X := ((inject_Z (Z.pos mx) * 2 ^ ex)
            * (inject_Z (Z.pos my) * 2 ^ ey))%Q in
  Z.pos (digits2_pos my) = 53 ->
  (2 ^ (-1022) <= X)%Q ->
  (X < 2 ^ 1023)%Q ->
  exists (m : positive) (e : Z),
    Float.mul (S754_finite false mx ex) (S754_finite false my ey)
    = S754_finite false m e
    /\ Z.pos (digits2_pos m) = 53
    /\ (X * (1 - 2 ^ (-52)) <= inject_Z (Z.pos m) * 2 ^ e)%Q
    /\ (inject_Z (Z.pos m) * 2 ^ e <= X * (1 + 2 ^ (-52)))%Q.
Proof.
  intros X Hd Nlo Nhi.
  exact (SFmul_faithful Float.prec Float.emax prec_pos false false mx my ex ey
           Hd Nlo Nhi).
Qed.

Lemma float_sub_faithful (mx my : positive) (ex ey : Z) :
  let X := (inject_Z (Z.pos mx) * 2 ^ ex)%Q in
  let Y := (inject_Z (Z.pos my) * 2 ^ ey)%Q in
  let r := Float.sub (S754_finite false mx ex) (S754_finite false my ey) in
  - 1022 <= Z.min ex ey ->
  (X < 2 ^ 1023)%Q ->
  (Y < 2 ^ 1023)%Q ->
  ((X == Y)%Q /\ r = S754_zero false)
  \/ exists (s : bool) (m : positive) (e : Z) (D : Q),
       r = S754_finite s m e
       /\ (D == if s then Y - X else X - Y)%Q
       /\ Z.pos (digits2_pos m) = 53
       /\ (2 ^ Z.min ex ey <= D)%Q
       /\ (D * (1 - 2 ^ (-52)) <= inject_Z (Z.pos m) * 2 ^ e)%Q
       /\ (inject_Z (Z.pos m) * 2 ^ e <= D * (1 + 2 ^ (-52)))%Q.
Proof.
  intros X Y r Hez HX HY.
  exact (SFsub_faithful Float.prec Float.emax prec_pos mx my ex ey
           Hez HX HY).
Qed.

(** [min] on two positive floats of 53 digits. *)
Lemma py_min_positive (ma mb : positive) (ea eb : Z) :
  let A := (inject_Z (Z.pos ma) * 2 ^ ea)%Q in
  let B := (inject_Z (Z.pos mb) * 2 ^ eb)%Q in
  Z.pos (digits2_pos ma) = 53 ->
  Z.pos (digits2_pos mb) = 53 ->
  exists (m : positive) (e : Z),
    py_min (S754_finite false ma ea) (S754_finite false mb eb)
    = S754_finite false m e
    /\ Z.pos (digits2_pos m) = 53
    /\ (inject_Z (Z.pos m) * 2 ^ e == Qmin A B)%Q.
Proof.
  intros A B Ha Hb. unfold py_min, Float.ltb.
  pose proof (SFltb_positive Float.prec prec_pos mb ma eb ea Hb Ha)
    as Hlt.
  cbv zeta in Hlt. fold A in Hlt. fold B in Hlt.
  destruct (SFltb (S754_finite false mb eb) (S754_finite false ma ea)).
  - exists mb, eb. split; [reflexivity|]. split; [exact Hb|]. fold B.
    symmetry. apply Q.min_r. lra.
  - exists ma, ea. split; [reflexivity|]. split; [exact Ha|]. fold A.
    symmetry. apply Q.min_l. exact Hlt.
Qed.

(** One axis of the geometry: the new dimension and the offset, for a
    scale that is within a relative [2 ^ -52] of [S], a number that keeps
    the side [C] within the target [T]. *)
Lemma axis_geometry (t : Z) (mc ms : positive) (ec es : Z) (S : Q) :
  let T := inject_Z t in
  let C := (inject_Z (Z.pos mc) * 2 ^ ec)%Q in
  let sv := (inject_Z (Z.pos ms) * 2 ^ es)%Q in
  0 < t < 2 ^ 53 ->
  (2 ^ (-256) <= C)%Q -> (C <= 2 ^ 256)%Q ->
  Z.pos (digits2_pos ms) = 53 ->
  (2 ^ (-256) <= S)%Q ->
  (C * S <= T)%Q ->
  (S * (1 - 2 ^ (-52)) <= sv)%Q -> (sv <= S * (1 + 2 ^ (-52)))%Q ->
  exists off,
    Float.div (Float.sub (Float.of_int t)
                 (Float.mul (S754_finite false mc ec)
                            (S754_finite false ms es)))
              (Float.of_int 2) = Ok off
    /\ Float.is_finite off = true
    /\ Float.is_finite (Float.mul (S754_finite false mc ec)
                                  (S754_finite false ms es)) = true
    /\ (C * S * (1 - 2 ^ (-50))
        <= Float.to_Q (Float.mul (S754_finite false mc ec)
                                 (S754_finite false ms es)))%Q
    /\ (Float.to_Q (Float.mul (S754_finite false mc ec)
                              (S754_finite false ms es))
        <= C * S * (1 + 2 ^ (-50)))%Q
    /\ ((T - C * S) / 2 - T * 2 ^ (-50) <= Float.to_Q off)%Q
    /\ (Float.to_Q off <= (T - C * S) / 2 + T * 2 ^ (-50))%Q.
Proof.
  intros T C sv Ht Clo Chi Hds Slo HCS Svlo Svhi.
  destruct (of_int_exact t Ht) as (mt & et & Hof & Hdt & Het & _ & ET).
  fold T in ET. rewrite Hof.
  assert (HT1 : (1 <= T)%Q)
    by (unfold T; change 1%Q with (inject_Z 1); rewrite <- Zle_Qle; lia).
  assert (HT2 : (T < 2 ^ 53)%Q).
  { unfold T. rewrite <- (pow2_inject 53) by lia. rewrite <- Zlt_Qlt. lia. }
  assert (HC0 : (0 < C)%Q) by lra.
  assert (HS0 : (0 < S)%Q) by lra.
  assert (Shi : (S <= 2 ^ 309)%Q) by nra.
  set (A := (C * S)%Q) in *.
  assert (HA0 : (0 < A)%Q) by (unfold A; nra).
  assert (HAlo : (2 ^ (-512) <= A)%Q) by (unfold A; nra).
  assert (HP : (A * (1 - 2 ^ (-52)) <= C * sv
                /\ C * sv <= A * (1 + 2 ^ (-52)))%Q)
    by (unfold A; split; nra).
  destruct HP as [Plo Phi].
  destruct (float_mul_faithful mc ms ec es Hds) as (mn & en & Hmul & Hdn & Nlo & Nhi).
  { fold C. fold sv. lra. }
  { fold C. fold sv. lra. }
  fold C in Nlo, Nhi. fold sv in Nlo, Nhi.
  rewrite Hmul. cbn [Float.is_finite Float.to_Q].
  set (NW := (inject_Z (Z.pos mn) * 2 ^ en)%Q) in *.
  set (P := (C * sv)%Q) in *.
  assert (Hen : - 514 - 53 < en).
  { apply (exponent_lower 53 mn en (-514) Hdn). fold NW. lra. }
  assert (HTA : ((T - A) / 2 == (T - A) * (1 # 2))%Q) by field.
  destruct (float_sub_faithful mt mn et en ltac:(lia))
    as [[Heq Hsub] | (s & md & ed & D & Hsub & HD & Hdd & Dlo & Vlo & Vhi)].
  { rewrite ET. lra. }
  { fold NW. lra. }
  - rewrite Hsub. exists (S754_zero false). split; [reflexivity|].
    split; [reflexivity|]. split; [reflexivity|]. cbn [Float.to_Q].
    rewrite ET in Heq. fold NW in Heq. rewrite HTA.
    repeat split; lra.
  - rewrite Hsub.
    assert (HD2 : (s = true /\ D == NW - T)%Q \/ (s = false /\ D == T - NW)%Q).
    { destruct s; [left | right]; (split; [reflexivity|]);
        rewrite HD, ET; reflexivity. }
    clear HD.
    set (V := (inject_Z (Z.pos md) * 2 ^ ed)%Q) in *.
    assert (Dlo2 : (2 ^ (-567) <= D)%Q).
    { eapply Qle_trans; [|exact Dlo]. apply pow2_le. lia. }
    change (Float.of_int 2) with (S754_finite false 4503599627370496 (-51)).
    destruct (float_div_faithful s md 4503599627370496 ed (-51) (V / 2))
      as (mo & eo & Hdiv & Hdo & Olo & Ohi).
    { fold V.
      assert (E2 : (inject_Z 4503599627370496 * 2 ^ (-51) == 2)%Q)
        by reflexivity.
      rewrite E2. field. }
    { assert (2 ^ (-568) <= V)%Q by lra.
      apply Qle_shift_div_l; lra. }
    { apply Qlt_shift_div_r; [lra|].
      assert (D <= T + NW)%Q by (destruct HD2 as [[_ E] | [_ E]]; lra).
      lra. }
    rewrite Hdiv. exists (S754_finite s mo eo). split; [reflexivity|].
    split; [reflexivity|]. split; [reflexivity|].
    set (O := (inject_Z (Z.pos mo) * 2 ^ eo)%Q) in *.
    assert (HV2 : (V / 2 == V * (1 # 2))%Q) by (field).
    rewrite HV2 in Olo, Ohi. rewrite HTA.
    split; [lra|]. split; [lra|].
    cbn [Float.to_Q]. fold O.
    destruct HD2 as [[-> E] | [-> E]]; split; lra.
Qed.

(** ** The geometry of a resized page *)

(** The example of the specification, as the script computes it: a page of
    600 x 800 and a target of 300 x 300. *)
Example geometry_600x800_to_300x300 :
  exists g,
    page_geometry 300 300 (Float.of_int 600) (Float.of_int 800) = Ok g
    /\ Float.to_Q (scale g) == 3 # 8
    /\ Float.to_Q (new_width g) == 225 # 1
    /\ Float.to_Q (new_height g) == 300 # 1
    /\ Float.to_Q (x_offset g) == 75 # 2
    /\ Float.to_Q (y_offset g) == 0
    /\ within_target 300 300 g = true.
Proof.
  eexists. split; [vm_compute; reflexivity|].
  repeat split; vm_compute; reflexivity.
Qed.

(** C4, as stated, fails on the floats the script computes with: for an A4
    page of 595 x 842 points and a target of 400 x 600, the new width is
    the float after 400 and the horizontal offset is negative. *)
Lemma a4_to_400x600_exceeds_target :
  (g <-? page_geometry 400 600 (Float.of_int 595) (Float.of_int 842);
   Ok (within_target 400 600 g,
       Float.ltb (Float.of_int 400) (new_width g),
       Float.ltb (x_offset g) (Float.of_int 0)))
  = Ok (false, true, true).
Proof. vm_compute. reflexivity. Qed.

(** C4 (corrected): for targets below [2 ^ 53] and a page whose sides
    are between [2 ^ -256] and [2 ^ 256], the geometry is computed without
    an exception and all its numbers are finite. With [s] the smaller of
    the exact quotients [targetW / w] and [targetH / h], the exact scaled
    dimensions [w * s] and [h * s] do not exceed the targets; the floats
    of the script are these numbers up to rounding: the scale is within a
    relative [2 ^ -52] of [s], the new dimensions are within a relative
    [2 ^ -50] of [w * s] and [h * s], and the offsets are within
    [target * 2 ^ -50] of [(targetW - w * s) / 2] and
    [(targetH - h * s) / 2]. So a new dimension exceeds its target by at
    most [target * 2 ^ -50], and an offset is negative by at most that. *)
Theorem page_geometry_within_rounding (target_width target_height : Z)
    (current_width current_height : Float.float) :
  0 < target_width < 2 ^ 53 ->
  0 < target_height < 2 ^ 53 ->
  (2 ^ (-256) <= Float.to_Q current_width)%Q ->
  (Float.to_Q current_width <= 2 ^ 256)%Q ->
  (2 ^ (-256) <= Float.to_Q current_height)%Q ->
  (Float.to_Q current_height <= 2 ^ 256)%Q ->
  let tw := inject_Z target_width in
  let th := inject_Z target_height in
  let w := Float.to_Q current_width in
  let h := Float.to_Q current_height in
  let s := Qmin (tw / w) (th / h) in
  exists g,
    page_geometry target_width target_height current_width current_height
    = Ok g
    /\ (Float.is_finite (scale g) && Float.is_finite (new_width g)
        && Float.is_finite (new_height g) && Float.is_finite (x_offset g)
        && Float.is_finite (y_offset g) = true)
    /\ (w * s <= tw /\ h * s <= th)%Q
    /\ (s * (1 - 2 ^ (-52)) <= Float.to_Q (scale g)
        /\ Float.to_Q (scale g) <= s * (1 + 2 ^ (-52)))%Q
    /\ (w * s * (1 - 2 ^ (-50)) <= Float.to_Q (new_width g)
        /\ Float.to_Q (new_width g) <= w * s * (1 + 2 ^ (-50)))%Q
    /\ (h * s * (1 - 2 ^ (-50)) <= Float.to_Q (new_height g)
        /\ Float.to_Q (new_height g) <= h * s * (1 + 2 ^ (-50)))%Q
    /\ ((tw - w * s) / 2 - tw * 2 ^ (-50) <= Float.to_Q (x_offset g)
        /\ Float.to_Q (x_offset g) <= (tw - w * s) / 2 + tw * 2 ^ (-50))%Q
    /\ ((th - h * s) / 2 - th * 2 ^ (-50) <= Float.to_Q (y_offset g)
        /\ Float.to_Q (y_offset g) <= (th - h * s) / 2 + th * 2 ^ (-50))%Q
    /\ (Float.to_Q (new_width g) <= tw * (1 + 2 ^ (-50))
        /\ Float.to_Q (new_height g) <= th * (1 + 2 ^ (-50)))%Q
    /\ (- (tw * 2 ^ (-50)) <= Float.to_Q (x_offset g)
        /\ - (th * 2 ^ (-50)) <= Float.to_Q (y_offset g))%Q.
Proof.
  intros Htw Hth Wlo Whi Hlo Hhi tw th w h s.
  destruct (to_Q_positive current_width ltac:(lra)) as (mw & ew & -> & _).
  destruct (to_Q_positive current_height ltac:(lra)) as (mh & eh & -> & _).
  change (Float.to_Q (S754_finite false mw ew)) with w in Wlo, Whi.
  change (Float.to_Q (S754_finite false mh eh)) with h in Hlo, Hhi.
  destruct (of_int_exact target_width Htw)
    as (mt & et & Hofw & Hdt & Het & _ & ETW).
  destruct (of_int_exact target_height Hth)
    as (mu & eu & Hofh & Hdu & Heu & _ & ETH).
  fold tw in ETW. fold th in ETH.
  assert (Htw1 : (1 <= tw)%Q).
  { unfold tw. change 1%Q with (inject_Z 1). rewrite <- Zle_Qle. lia. }
  assert (Htw2 : (tw < 2 ^ 53)%Q).
  { unfold tw. rewrite <- (pow2_inject 53) by lia. rewrite <- Zlt_Qlt. lia. }
  assert (Hth1 : (1 <= th)%Q).
  { unfold th. change 1%Q with (inject_Z 1). rewrite <- Zle_Qle. lia. }
  assert (Hth2 : (th < 2 ^ 53)%Q).
  { unfold th. rewrite <- (pow2_inject 53) by lia. rewrite <- Zlt_Qlt. lia. }
  assert (Hqx : (tw / w * w == tw)%Q) by (field; lra).
  assert (Hqy : (th / h * h == th)%Q) by (field; lra).
  set (qx := (tw / w)%Q) in *. set (qy := (th / h)%Q) in *.
  assert (Hqx1 : (2 ^ (-256) <= qx)%Q) by nra.
  assert (Hqx2 : (qx <= 2 ^ 309)%Q) by nra.
  assert (Hqy1 : (2 ^ (-256) <= qy)%Q) by nra.
  assert (Hqy2 : (qy <= 2 ^ 309)%Q) by nra.
  destruct (float_div_faithful false mt mw et ew qx)
    as (mx & ex & Hsx & Hdx & SXlo & SXhi);
    [change (inject_Z (Z.pos mw) * 2 ^ ew)%Q with w; rewrite ETW; exact Hqx
    | lra | lra |].
  destruct (float_div_faithful false mu mh eu eh qy)
    as (my & ey & Hsy & Hdy & SYlo & SYhi);
    [change (inject_Z (Z.pos mh) * 2 ^ eh)%Q with h; rewrite ETH; exact Hqy
    | lra | lra |].
  destruct (py_min_positive mx my ex ey Hdx Hdy)
    as (ms & es & Hmin & Hds & Esv).
  set (sx := (inject_Z (Z.pos mx) * 2 ^ ex)%Q) in *.
  set (sy := (inject_Z (Z.pos my) * 2 ^ ey)%Q) in *.
  set (sv := (inject_Z (Z.pos ms) * 2 ^ es)%Q) in *.
  assert (Hs : (2 ^ (-256) <= s /\ s <= qx /\ s <= qy
                /\ s * (1 - 2 ^ (-52)) <= sv /\ sv <= s * (1 + 2 ^ (-52)))%Q).
  { rewrite Esv. unfold s.
    destruct (Q.min_spec qx qy) as [[H1 ->] | [H1 ->]];
      destruct (Q.min_spec sx sy) as [[H2 ->] | [H2 ->]];
      repeat split; lra. }
  destruct Hs as (Hs1 & Hsx1 & Hsy1 & Svlo & Svhi).
  assert (HWS : (w * s <= tw)%Q) by nra.
  assert (HHS : (h * s <= th)%Q) by nra.
  destruct (axis_geometry target_width mw ms ew es s Htw Wlo Whi Hds Hs1
              HWS Svlo Svhi)
    as (xo & Hxo & Fxo & Fnw & NWlo & NWhi & XOlo & XOhi).
  destruct (axis_geometry target_height mh ms eh es s Hth Hlo Hhi Hds Hs1
              HHS Svlo Svhi)
    as (yo & Hyo & Fyo & Fnh & NHlo & NHhi & YOlo & YOhi).
  fold tw in XOlo, XOhi. fold th in YOlo, YOhi.
  change (inject_Z (Z.pos mw) * 2 ^ ew)%Q with w in NWlo, NWhi, XOlo, XOhi.
  change (inject_Z (Z.pos mh) * 2 ^ eh)%Q with h in NHlo, NHhi, YOlo, YOhi.
  unfold page_geometry, Float.from_int. rewrite Hofw, Hofh.
  cbn [rbind]. rewrite Hsx. cbn [rbind]. rewrite Hsy. cbn [rbind].
  rewrite Hmin.
  change (Float.of_int 2) with (S754_finite false 4503599627370496 (-51))
    in Hxo, Hyo |- *.
  cbn [rbind]. rewrite <- Hofw, Hxo. cbn [rbind]. rewrite <- Hofh, Hyo.
  cbn [rbind].
  eexists. split; [reflexivity|].
  cbn [scale new_width new_height x_offset y_offset].
  split.
  { rewrite Fnw, Fnh, Fxo, Fyo. reflexivity. }
  split; [split; assumption|].
  split; [cbn [Float.to_Q]; fold sv; split; assumption|].
  split; [split; assumption|]. split; [split; assumption|].
  split; [split; assumption|]. split; [split; assumption|].
  assert (HTX : ((tw - w * s) / 2 == (tw - w * s) * (1 # 2))%Q) by field.
  assert (HTY : ((th - h * s) / 2 == (th - h * s) * (1 # 2))%Q) by field.
  rewrite HTX in XOlo. rewrite HTY in YOlo.
  assert (0 < w * s)%Q by nra. assert (0 < h * s)%Q by nra.
  split; split; lra.
Qed.

Lemma page_geometry_within_rounding_witness :
  let tw := inject_Z 400 in
  let th := inject_Z 600 in
  let w := Float.to_Q (Float.of_int 595) in
  let h := Float.to_Q (Float.of_int 842) in
  let s := Qmin (tw / w) (th / h) in
  exists g,
    page_geometry 400 600 (Float.of_int 595) (Float.of_int 842) = Ok g
    /\ (Float.is_finite (scale g) && Float.is_finite (new_width g)
        && Float.is_finite (new_height g) && Float.is_finite (x_offset g)
        && Float.is_finite (y_offset g) = true)
    /\ (w * s <= tw /\ h * s <= th)%Q
    /\ (s * (1 - 2 ^ (-52)) <= Float.to_Q (scale g)
        /\ Float.to_Q (scale g) <= s * (1 + 2 ^ (-52)))%Q
    /\ (w * s * (1 - 2 ^ (-50)) <= Float.to_Q (new_width g)
        /\ Float.to_Q (new_width g) <= w * s * (1 + 2 ^ (-50)))%Q
    /\ (h * s * (1 - 2 ^ (-50)) <= Float.to_Q (new_height g)
        /\ Float.to_Q (new_height g) <= h * s * (1 + 2 ^ (-50)))%Q
    /\ ((tw - w * s) / 2 - tw * 2 ^ (-50) <= Float.to_Q (x_offset g)
        /\ Float.to_Q (x_offset g) <= (tw - w * s) / 2 + tw * 2 ^ (-50))%Q
    /\ ((th - h * s) / 2 - th * 2 ^ (-50) <= Float.to_Q (y_offset g)
        /\ Float.to_Q (y_offset g) <= (th - h * s) / 2 + th * 2 ^ (-50))%Q
    /\ (Float.to_Q (new_width g) <= tw * (1 + 2 ^ (-50))
        /\ Float.to_Q (new_height g) <= th * (1 + 2 ^ (-50)))%Q
    /\ (- (tw * 2 ^ (-50)) <= Float.to_Q (x_offset g)
        /\ - (th * 2 ^ (-50)) <= Float.to_Q (y_offset g))%Q.
Proof.
  apply (page_geometry_within_rounding 400 600 (Float.of_int 595)
           (Float.of_int 842)); try lia; vm_compute; discriminate.
Defined.

(** ** The natural sort key *)

(** C9: the split of [natural_sort_key] loses nothing: the pieces
    [re.split] returns, which the key is made from one by one, give the
    string back when they are concatenated in order. *)
Theorem split_loss_free (s : string) :
  natural_sort_key s = rmapM key_of_text (Re.split_digits s)
  /\ String.concat "" (Re.split_digits s) = s.
Proof.
  split; [reflexivity|].
  unfold Re.split_digits. now rewrite concat_split_aux.
Qed.

(** C10: in the keys of any two strings, the tokens at even positions are
    strings and those at odd positions are integers, so a comparison of the
    two keys never meets an integer and a string at the same position and
    always gives an answer. *)
Theorem key_comparison_never_mixed (s1 s2 : string) (k1 k2 : list token) :
  natural_sort_key s1 = Ok k1 ->
  natural_sort_key s2 = Ok k2 ->
  (forall i t, k1 !! i = Some t -> token_is_num t = Nat.odd i)
  /\ (forall i t, k2 !! i = Some t -> token_is_num t = Nat.odd i)
  /\ (forall i x y, k1 !! i = Some x -> k2 !! i = Some y ->
                    token_is_num x = token_is_num y)
  /\ exists r, key_ltb k1 k2 = Ok r.
Proof.
  intros H1%natural_sort_key_alternates H2%natural_sort_key_alternates.
  assert (Hpos : forall k i t,
             key_alternates false k = true -> k !! i = Some t ->
             token_is_num t = Nat.odd i).
  { intros k i t Hk Hi.
    rewrite (key_alternates_lookup k false i t Hk Hi), <- Nat.negb_even.
    now destruct (Nat.even i). }
  repeat split.
  - intros i t. now apply Hpos.
  - intros i t. now apply Hpos.
  - intros i x y Hx Hy.
    now rewrite (Hpos k1 i x H1 Hx), (Hpos k2 i y H2 Hy).
  - now apply (key_ltb_defined k1 false k2).
Qed.

Lemma key_comparison_never_mixed_witness :
  let k1 := [Text "img"; Num 2; Text ".png"] in
  let k2 := [Text "img"; Num 10; Text ".png"] in
  (forall i t, k1 !! i = Some t -> token_is_num t = Nat.odd i)
  /\ (forall i t, k2 !! i = Some t -> token_is_num t = Nat.odd i)
  /\ (forall i x y, k1 !! i = Some x -> k2 !! i = Some y ->
                    token_is_num x = token_is_num y)
  /\ exists r, key_ltb k1 k2 = Ok r.
Proof.
  apply (key_comparison_never_mixed "img2.png" "img10.png"); reflexivity.
Defined.

(** A superscript two passes [isdigit] and is refused by [int]: the key
    of such a name does not exist, and no comparison takes place. *)
Example key_of_superscript_two :
  natural_sort_key (String "178" EmptyString)
  = Raise PyStr.invalid_literal.
Proof. reflexivity. Qed.

(** C1, as stated, fails: the key of "img10.png" is not below the key of
    "img2a.png", because 10 is compared with 2 as a number. *)
Lemma img10_not_before_img2a :
  ~ (natural_lt "img2.png" "img10.png" = Ok true
     /\ natural_lt "img10.png" "img2a.png" = Ok true).
Proof. intros [_ H]. vm_compute in H. discriminate H. Qed.

(** C1 (amended): the key of "img2.png" is below the key of "img10.png",
    and the key of "img2a.png" lies between them; the key of "img10.png"
    is below the key of "imgA.png". *)
Theorem natural_order_examples :
  natural_lt "img2.png" "img10.png" = Ok true
  /\ natural_lt "img2.png" "img2a.png" = Ok true
  /\ natural_lt "img2a.png" "img10.png" = Ok true
  /\ natural_lt "img10.png" "imgA.png" = Ok true.
Proof. repeat split; reflexivity. Qed.

Example sort_chapters :
  list_sort natural_sort_key ["ch10.pdf"; "ch2.pdf"; "ch1.pdf"]
  = Ok ["ch1.pdf"; "ch2.pdf"; "ch10.pdf"].
Proof. reflexivity. Qed.

Example split_examples :
  Re.split_digits "img2.png" = ["img"; "2"; ".png"]
  /\ Re.split_digits "2a" = [""; "2"; "a"]
  /\ Re.split_digits "" = [""]
  /\ Re.split_digits "a1b22" = ["a"; "1"; "b"; "22"; ""].
Proof. repeat split; reflexivity. Qed.

(** ** Running a script *)

Ltac run_M :=
  cbv [bind ret raise lift try_except try_except_ValueError print input
       get_fs put_file path_exists path_isdir alloc_doc fitz_open fitz_new
       fitz_close getsize zip_open insert_pdf];
  cbn [fs stdin stdout open_docs next_doc].

(** ** The merge loop *)

Lemma merge_one_readable (out : list page) (p : string) (d : document)
    (w : world) :
  fs w !! p = Some (Pdf d) -> doc_insert_error d = None ->
  Mergepdf.merge_one out p w
  = (Ok (out ++ doc_pages d),
     set_docs w (({[next_doc w]} ∪ open_docs w) ∖ {[next_doc w]})
              (S (next_doc w))).
Proof.
  intros Hp Hd.
  unfold Mergepdf.merge_one. run_M. rewrite Hp. run_M. rewrite Hd. reflexivity.
Qed.

Lemma merge_one_insert_error (out : list page) (p : string) (d : document)
    (msg : string) (w : world) :
  fs w !! p = Some (Pdf d) -> doc_insert_error d = Some msg ->
  Mergepdf.merge_one out p w
  = (Ok out,
     add_out (set_docs w ({[next_doc w]} ∪ open_docs w) (S (next_doc w)))
             ["WARNING: Could not merge " +:+ p +:+ ": " +:+ msg]).
Proof.
  intros Hp Hd.
  unfold Mergepdf.merge_one. run_M. rewrite Hp. run_M. rewrite Hd. reflexivity.
Qed.

Lemma merge_one_open_error (out : list page) (p : string) (w : world) :
  (forall d, fs w !! p <> Some (Pdf d)) ->
  exists msg,
    Mergepdf.merge_one out p w
    = (Ok out,
       add_out w ["WARNING: Could not merge " +:+ p +:+ ": " +:+ msg]).
Proof.
  intros Hp.
  unfold Mergepdf.merge_one. run_M. destruct (fs w !! p) as [[| |d|]|] eqn:E; simpl;
    try (eexists; reflexivity).
  now destruct (Hp d).
Qed.

Lemma merge_loop_readable (pdf_files : list string) (docs : list document) :
  forall (out : list page) (w : world),
    Forall2 (readable w) pdf_files docs ->
    exists ds n,
      Mergepdf.merge_loop out pdf_files w
      = (Ok (out ++ concat (map doc_pages docs)), set_docs w ds n).
Proof.
  revert docs. induction pdf_files as [|p rest IH];
    intros docs out w H; inversion H as [|? d ? docs' [Hp Hd] Hrest]; subst.
  - exists (open_docs w), (next_doc w). simpl. rewrite app_nil_r.
    destruct w; reflexivity.
  - cbn [Mergepdf.merge_loop]. unfold bind at 1.
    rewrite (merge_one_readable out p d w Hp Hd).
    edestruct (IH docs' (out ++ doc_pages d)) as (ds & n & ->).
    { eapply Forall2_impl; [exact Hrest|]. intros ? ? Hr. exact Hr. }
    exists ds, n. simpl. now rewrite app_assoc.
Qed.

Lemma length_concat_pages (docs : list document) :
  length (concat (map doc_pages docs)) = sum_list (map page_count docs).
Proof.
  induction docs as [|d docs IH]; simpl; [reflexivity|].
  rewrite length_app, IH. reflexivity.
Qed.

(** C6: for a list of readable documents, the merge saves one document
    whose pages are the pages of the inputs, concatenated in the order of
    the list; their number is the sum of the page counts. PyMuPDF refuses
    to save a document without pages, so one page at least is asked for. *)
Theorem merge_concatenates_pages (P : platform) (pdf_files : list string)
    (docs : list document) (output_path : string) (w : world) :
  Forall2 (readable w) pdf_files docs ->
  concat (map doc_pages docs) <> [] ->
  write_error P output_path = None ->
  exists w',
    Mergepdf.merge_pdfs_high_quality P pdf_files output_path w = (Ok tt, w')
    /\ fs w' !! output_path
       = Some (Pdf (Document (concat (map doc_pages docs)) None))
    /\ length (concat (map doc_pages docs))
       = sum_list (map page_count docs)
    /\ stdout w' = stdout w.
Proof.
  intros Hr Hne Hw.
  unfold Mergepdf.merge_pdfs_high_quality, fitz_new.
  unfold bind at 1. unfold alloc_doc at 1.
  unfold bind at 1.
  destruct (merge_loop_readable pdf_files docs []
              (set_docs w ({[next_doc w]} ∪ open_docs w) (S (next_doc w))))
    as (ds & n & Hloop).
  { eapply Forall2_impl; [exact Hr|]. intros ? ? H. exact H. }
  unfold set_docs in Hloop. cbn [fs stdin stdout open_docs next_doc] in Hloop.
  rewrite Hloop. unfold fitz_save. simpl app.
  pose proof (length_concat_pages docs) as Hlen.
  destruct (concat (map doc_pages docs)) as [|pg pgs]; [easy|].
  rewrite Hw. run_M. eexists. split; [reflexivity|].
  cbn [fs stdout]. split; [apply lookup_insert_eq|]. split; [exact Hlen|].
  reflexivity.
Qed.

Lemma merge_concatenates_pages_witness :
  exists w',
    Mergepdf.merge_pdfs_high_quality quiet_platform
      ["/d/a.pdf"; "/d/b.pdf"; "/d/c.pdf"] "/d/out.pdf" world_3_5_2
    = (Ok tt, w')
    /\ fs w' !! "/d/out.pdf"
       = Some (Pdf (doc_of_bodies
                      ["a1"; "a2"; "a3"; "b1"; "b2"; "b3"; "b4"; "b5";
                       "c1"; "c2"]))
    /\ length (doc_pages (doc_of_bodies
                      ["a1"; "a2"; "a3"; "b1"; "b2"; "b3"; "b4"; "b5";
                       "c1"; "c2"])) = 10%nat
    /\ stdout w' = [].
Proof.
  apply (merge_concatenates_pages quiet_platform
           ["/d/a.pdf"; "/d/b.pdf"; "/d/c.pdf"]
           [doc_of_bodies ["a1"; "a2"; "a3"];
            doc_of_bodies ["b1"; "b2"; "b3"; "b4"; "b5"];
            doc_of_bodies ["c1"; "c2"]]
           "/d/out.pdf" world_3_5_2).
  - repeat constructor.
  - discriminate.
  - reflexivity.
Defined.

(** ** The archive converter *)

Lemma rmapM_total {A B} (f : A -> result B) (Q : A -> B -> Prop)
    (l : list A) :
  Forall (fun x => exists y, f x = Ok y /\ Q x y) l ->
  exists ys, rmapM f l = Ok ys /\ Forall2 Q l ys.
Proof.
  induction 1 as [|x l (y & Hy & HQ) _ (ys & IH & HF)]; simpl.
  - exists []. split; [reflexivity | constructor].
  - rewrite Hy, IH. simpl. exists (y :: ys). split; [reflexivity|].
    now constructor.
Qed.

Lemma Forall2_compose {A B C} (Q : A -> B -> Prop) (R : B -> C -> Prop)
    (l : list A) (m : list B) (n : list C) :
  Forall2 Q l m -> Forall2 R m n ->
  Forall2 (fun a c => exists b, Q a b /\ R b c) l n.
Proof.
  intros H. revert n. induction H as [|a b l m Hab _ IH]; intros n Hn.
  - inversion Hn. constructor.
  - inversion Hn as [|? c ? n' Hbc Hrest]; subst. constructor; eauto.
Qed.

Lemma concat_singletons {A} (groups : list (list A)) :
  Forall (fun g => length g = 1%nat) groups ->
  length (concat groups) = length groups.
Proof.
  induction 1 as [|g groups Hg _ IH]; [reflexivity|].
  simpl. rewrite length_app, Hg, IH. reflexivity.
Qed.

(** C7, as stated, fails: [img2pdf] makes a page for each frame of an
    image, so an archive of two qualifying entries, one of them an image
    of two frames, gives a document of three pages. *)
Lemma two_frame_image_gives_two_pages :
  exists pages w',
    Mergepdf.cbz_to_pdf animated_platform "/in/comic.cbz" "/in/comic.pdf"
                        world_folder
    = (Ok (Some "/in/comic.pdf"), w')
    /\ fs w' !! "/in/comic.pdf" = Some (Pdf (Document pages None))
    /\ length pages = 3%nat
    /\ length (List.filter Mergepdf.is_image_name (namelist comic_archive))
       = 2%nat.
Proof.
  eexists _, _. split; [reflexivity|].
  split; [vm_compute; reflexivity|]. split; reflexivity.
Qed.

(** C7 (amended): the converter writes the pages of the entries whose name
    ends in .jpg, .jpeg or .png whatever the case, and of no other entry.
    The entries are taken in the order [sort(key=natural_sort_key)] gives
    their names, and each gives one page for each frame of its image,
    holding the bytes of the entry: one page for each entry when every
    image has one frame. It is asked that there is such an entry, that the
    sort returns, that the entries can be read, that [img2pdf] accepts
    them and that the output can be written. *)
Theorem cbz_one_page_per_image (P : platform) (cbz_path output_path : string)
    (archive : list zip_entry) (names : list string) (w : world) :
  fs w !! cbz_path = Some (Zip archive) ->
  List.filter Mergepdf.is_image_name (namelist archive) <> [] ->
  list_sort natural_sort_key
            (List.filter Mergepdf.is_image_name (namelist archive))
  = Ok names ->
  Forall (fun name => exists data,
              zip_read archive name = Ok data
              /\ is_Some (image_layout P data))
         (List.filter Mergepdf.is_image_name (namelist archive)) ->
  write_error P output_path = None ->
  exists (groups : list (list page)) (w' : world),
    Mergepdf.cbz_to_pdf P cbz_path output_path w = (Ok (Some output_path), w')
    /\ fs w' !! output_path = Some (Pdf (Document (concat groups) None))
    /\ names ≡ₚ List.filter Mergepdf.is_image_name (namelist archive)
    /\ StronglySorted natural_le names
    /\ Forall2 (fun name pages => exists data frames,
                    zip_read archive name = Ok data
                    /\ image_layout P data = Some frames
                    /\ pages = map (fun '(width, height) =>
                                      ImagePage width height data) frames)
               names groups
    /\ (Forall (fun pages => length pages = 1%nat) groups ->
        length (concat groups)
        = length (List.filter Mergepdf.is_image_name (namelist archive))).
Proof.
  intros Hfs Hne Hsort Hread Hw.
  set (images := List.filter Mergepdf.is_image_name (namelist archive)) in *.
  destruct (list_sort_natural_strong images names Hsort) as [Hperm Hsorted].
  assert (Hread' : Forall (fun name => exists data,
              zip_read archive name = Ok data
              /\ is_Some (image_layout P data)) names).
  { now rewrite Hperm. }
  destruct (rmapM_total (zip_read archive)
              (fun name data => zip_read archive name = Ok data
                                /\ is_Some (image_layout P data)) names)
    as (datas & Hdatas & Hnd).
  { apply (Forall_impl _ _ _ Hread'). intros x (data & H1 & H2). eauto. }
  destruct (rmapM_total (image_pages P)
              (fun img pages => exists frames,
                   image_layout P img = Some frames
                   /\ pages = map (fun '(width, height) =>
                                     ImagePage width height img) frames)
              datas)
    as (groups & Hgroups & Hdg).
  { clear -Hnd. induction Hnd as [|name data ? ? [_ [frames Hl]] _ IH];
      constructor; [|exact IH].
    unfold image_pages. rewrite Hl. eauto. }
  exists groups.
  unfold Mergepdf.cbz_to_pdf. run_M. rewrite Hfs. run_M.
  fold images. destruct images as [|i0 images'] eqn:Eim; [easy|].
  rewrite Hsort. run_M. rewrite Hdatas. run_M.
  unfold open_wb. rewrite Hw. run_M.
  unfold img2pdf_convert. rewrite Hgroups. cbn [rbind]. run_M.
  eexists. split; [reflexivity|]. cbn [fs].
  split; [apply lookup_insert_eq|].
  split; [exact Hperm|]. split; [exact Hsorted|]. split.
  - eapply Forall2_impl; [exact (Forall2_compose _ _ _ _ _ Hnd Hdg)|].
    intros name pages (data & [Hz _] & frames & Hl & ->). eauto.
  - intros Hone. rewrite (concat_singletons groups Hone).
    rewrite <- (Forall2_length _ _ _ Hdg), <- (Forall2_length _ _ _ Hnd).
    now rewrite Hperm.
Qed.

Lemma cbz_one_page_per_image_witness :
  exists (groups : list (list page)) (w' : world),
    Mergepdf.cbz_to_pdf quiet_platform "/in/comic.cbz" "/in/comic.pdf"
                        world_folder
    = (Ok (Some "/in/comic.pdf"), w')
    /\ fs w' !! "/in/comic.pdf" = Some (Pdf (Document (concat groups) None))
    /\ ["a.png"; "b.png"] ≡ₚ ["b.png"; "a.png"]
    /\ StronglySorted natural_le ["a.png"; "b.png"]
    /\ Forall2 (fun name pages => exists data frames,
                    zip_read comic_archive name = Ok data
                    /\ image_layout quiet_platform data = Some frames
                    /\ pages = map (fun '(width, height) =>
                                      ImagePage width height data) frames)
               ["a.png"; "b.png"] groups
    /\ (Forall (fun pages => length pages = 1%nat) groups ->
        length (concat groups) = 2%nat).
Proof.
  apply (cbz_one_page_per_image quiet_platform "/in/comic.cbz"
           "/in/comic.pdf" comic_archive ["a.png"; "b.png"] world_folder).
  - reflexivity.
  - discriminate.
  - reflexivity.
  - repeat constructor; eexists; (split; [reflexivity|]); eexists; reflexivity.
  - reflexivity.
Defined.

(** The example of the specification: b.png, a.png and readme.txt give two
    pages, a.png first. *)
Example comic_archive_pages :
  exists w',
    Mergepdf.cbz_to_pdf quiet_platform "/in/comic.cbz" "/in/comic.pdf"
                        world_folder
    = (Ok (Some "/in/comic.pdf"), w')
    /\ fs w' !! "/in/comic.pdf"
       = Some (Pdf (Document
                      [ImagePage (Float.of_int 100) (Float.of_int 100)
                                 "bytes of a";
                       ImagePage (Float.of_int 100) (Float.of_int 100)
                                 "bytes of b"] None))
    /\ stdout w' = [].
Proof. eexists. split; [reflexivity|]. split; vm_compute; reflexivity. Qed.

(** ** Failures of one source *)




(** A whole run of the merge tool on the folder: the archive without
    images and the file that does not open are reported, and the output
    holds the pages of the other three sources in natural order. *)
Example merge_run_skips_bad_sources :
  let w' := snd (Mergepdf.main folder_platform world_folder) in
  fst (Mergepdf.main folder_platform world_folder) = Ok tt
  /\ fs w' !! "/in/out.pdf"
     = Some (Pdf (Document
          [ImagePage (Float.of_int 100) (Float.of_int 100) "bytes of a";
           ImagePage (Float.of_int 100) (Float.of_int 100) "bytes of b";
           blank_page "p1"; blank_page "p2"; blank_page "q1"] None))
  /\ stdout w'
     = ["WARNING: No images found in /in/notes.cbz";
        "WARNING: Could not merge /in/broken.pdf: cannot open broken document";
        "Process completed successfully!"].
Proof. vm_compute. repeat split; reflexivity. Qed.

(** ** The handles of the merge loop *)

Lemma alloc_release (docs : gset nat) (h : nat) :
  h ∉ docs -> ({[h]} ∪ docs) ∖ {[h]} = docs.
Proof.
  intros Hh. apply set_eq. intros x.
  rewrite elem_of_difference, elem_of_union, elem_of_singleton.
  split.
  - intros [[Hx|Hx] Hne]; [contradiction | exact Hx].
  - intros Hx. split; [now right|]. intros ->. contradiction.
Qed.

Lemma fresh_next (w : world) : fresh w -> next_doc w ∉ open_docs w.
Proof. intros H Hin. apply H in Hin. lia. Qed.

(** A document that opens and is inserted is closed before the round
    ends; one that does not open never had a handle. *)
Lemma merge_one_releases_handle (out : list page) (p : string)
    (d : document) (w : world) :
  fresh w -> readable w p d ->
  exists out', Mergepdf.merge_one out p w
               = (Ok out', set_docs w (open_docs w) (S (next_doc w))).
Proof.
  intros Hf [Hp Hd]. rewrite (merge_one_readable out p d w Hp Hd).
  rewrite (alloc_release _ _ (fresh_next w Hf)). eauto.
Qed.

(** A document that opens and that [insert_pdf] refuses stays open: the
    [except] branch is entered before [pdf_doc.close()] is reached. *)
Lemma merge_one_leaves_handle_open (out : list page) (p : string)
    (d : document) (msg : string) (rest : list string) (w : world) :
  fs w !! p = Some (Pdf d) -> doc_insert_error d = Some msg ->
  exists w',
    Mergepdf.merge_one out p w = (Ok out, w')
    /\ next_doc w ∈ open_docs w'
    /\ Mergepdf.merge_loop out (p :: rest) w
       = Mergepdf.merge_loop out rest w'.
Proof.
  intros Hp Hd. eexists. split; [apply (merge_one_insert_error out p d msg w Hp Hd)|].
  split.
  - cbn [add_out set_docs open_docs].
    apply elem_of_union. left. now apply elem_of_singleton.
  - cbn [Mergepdf.merge_loop]. unfold bind at 1.
    rewrite (merge_one_insert_error out p d msg w Hp Hd). reflexivity.
Qed.

(** C3 fails on a document that opens and that [insert_pdf] refuses, such
    as one that needs a password: no document is open before the round for
    /in/locked.pdf, its handle is open when the round for /in/part1.pdf
    begins, and no [close()] has reached it when the merge returns. *)
Theorem locked_pdf_handle_stays_open :
  let w1 := snd (Mergepdf.merge_one [] "/in/locked.pdf" world_folder) in
  fst (Mergepdf.merge_one [] "/in/locked.pdf" world_folder) = Ok []
  /\ elements (open_docs world_folder) = []
  /\ elements (open_docs w1) = [0%nat]
  /\ Mergepdf.merge_loop [] ["/in/locked.pdf"; "/in/part1.pdf"] world_folder
     = Mergepdf.merge_loop [] ["/in/part1.pdf"] w1
  /\ elements (open_docs (snd (Mergepdf.merge_pdfs_high_quality
                 folder_platform ["/in/locked.pdf"; "/in/part1.pdf"]
                 "/in/out.pdf" world_folder))) = [1%nat].
Proof. vm_compute. repeat split; reflexivity. Qed.

(** ** The resize loop *)

Lemma only_dirs_added_refl (w : world) : only_dirs_added w w.
Proof. repeat split; auto. Qed.

Lemma only_dirs_added_trans (w w1 w2 : world) :
  only_dirs_added w w1 -> only_dirs_added w1 w2 -> only_dirs_added w w2.
Proof.
  intros (A1 & A2 & A3 & A4 & A5) (B1 & B2 & B3 & B4 & B5).
  repeat split; try congruence.
  intros p. destruct (A5 p) as [E | [E1 E2]], (B5 p) as [F | [F1 F2]].
  - left. congruence.
  - right. split; congruence.
  - right. split; congruence.
  - congruence.
Qed.

Lemma only_dirs_added_put (w : world) (d : string) :
  fs w !! d = None ->
  only_dirs_added w (World (<[d := Dir]> (fs w)) (stdin w) (stdout w)
                           (open_docs w) (next_doc w)).
Proof.
  intros Hd. repeat split. cbn [fs]. intros p.
  destruct (decide (p = d)) as [-> | Hne].
  - right. split; [exact Hd | apply lookup_insert_eq].
  - left. now apply lookup_insert_ne.
Qed.

Lemma page_geometry_float_defined (target_width target_height : Z)
    (w h : Float.float) :
  (exists x, Float.from_int target_width = Ok x) ->
  (exists y, Float.from_int target_height = Ok y) ->
  Float.is_zero w = false -> Float.is_zero h = false ->
  exists g, page_geometry target_width target_height w h = Ok g.
Proof.
  intros [x Hx] [y Hy] Hw Hh. unfold page_geometry. simpl.
  rewrite Hx, Hy. simpl. unfold Float.div.
  rewrite Hw, Hh. simpl. eauto.
Qed.

Lemma resize_page_ok (P : platform) (target_width target_height : Z)
    (d : document) (p : page) (w : world) :
  doc_load_error d = None ->
  resizable P target_width target_height p ->
  exists out,
    Resizepdf.resize_page P target_width target_height d p w = (Ok out, w)
    /\ resized_from target_width target_height p out.
Proof.
  intros Hload (g & Hg & Hpix & Hins).
  unfold Resizepdf.resize_page, Resizepdf.load_page. rewrite Hload.
  run_M. destruct (Resizepdf.page_rect p) as [cw ch]. simpl in Hg.
  run_M. rewrite Hg. unfold Resizepdf.get_pixmap, Resizepdf.insert_image.
  rewrite Hpix. run_M. rewrite Hins. run_M.
  eexists. split; [reflexivity|]. unfold resized_from. eauto 10.
Qed.

Lemma resize_pages_ok (P : platform) (target_width target_height : Z)
    (d : document) (pages : list page) (w : world) :
  doc_load_error d = None ->
  Forall (resizable P target_width target_height) pages ->
  exists outs,
    mapM (Resizepdf.resize_page P target_width target_height d) pages w
    = (Ok outs, w)
    /\ Forall2 (resized_from target_width target_height) pages outs.
Proof.
  intros Hload.
  induction 1 as [|p pages Hp _ (outs & IH & HF)]; simpl.
  - exists []. split; [reflexivity | constructor].
  - destruct (resize_page_ok P target_width target_height d p w Hload Hp)
      as (out & Hout & Hfrom).
    unfold bind at 1. rewrite Hout. unfold bind at 1. rewrite IH.
    exists (out :: outs). split; [reflexivity | now constructor].
Qed.

(** *** What [mkdir] changes: it only adds directories at free paths *)

Lemma make_parents_frame (P : platform) (dirs : list string) :
  forall (r : result unit) (w w1 : world),
    make_parents P dirs w = (r, w1) ->
    only_dirs_added w w1.
Proof.
  induction dirs as [|d dirs IH]; intros r w w1.
  - intros [= _ <-]. apply only_dirs_added_refl.
  - cbn [make_parents]. run_M.
    destruct (fs w !! d) as [[| | |]|] eqn:Hd;
      try (intros [= _ <-]; apply only_dirs_added_refl).
    + apply IH.
    + destruct (mkdir_error P d);
        [intros [= _ <-]; apply only_dirs_added_refl|].
      run_M. intros H. apply IH in H.
      eapply only_dirs_added_trans; [|exact H].
      now apply only_dirs_added_put.
Qed.

Lemma mkdir_frame (P : platform) (path : string) (r : result unit)
    (w w1 : world) :
  mkdir P path w = (r, w1) -> only_dirs_added w w1.
Proof.
  unfold mkdir.
  destruct (PyStr.any_chr (Ascii.eqb "000") path);
    [intros [= _ <-]; apply only_dirs_added_refl|].
  unfold bind at 1.
  destruct (make_parents P (OsPath.ancestors path) w) as [[[]|e] w0] eqn:Hp;
    [|intros [= _ <-]; now apply make_parents_frame in Hp].
  apply make_parents_frame in Hp. run_M.
  destruct (fs w0 !! path) as [[| | |]|] eqn:Hd;
    try (intros [= _ <-]; exact Hp).
  destruct (mkdir_error P path); [intros [= _ <-]; exact Hp|].
  run_M. intros [= _ <-].
  eapply only_dirs_added_trans; [exact Hp|].
  now apply only_dirs_added_put.
Qed.

Lemma only_dirs_added_lookup (w w1 : world) (p : string) (n : node) :
  only_dirs_added w w1 -> fs w !! p = Some n -> fs w1 !! p = Some n.
Proof.
  intros (_ & _ & _ & _ & H) Hp.
  destruct (H p) as [E | [E _]]; congruence.
Qed.



(** When [mkdir] returns, the directory is there. *)
Lemma mkdir_made (P : platform) (path : string) (w w1 : world) :
  mkdir P path w = (Ok tt, w1) -> fs w1 !! path = Some Dir.
Proof.
  unfold mkdir.
  destruct (PyStr.any_chr (Ascii.eqb "000") path); [discriminate|].
  unfold bind at 1.
  destruct (make_parents P (OsPath.ancestors path) w) as [[[]|e0] w0];
    [|discriminate].
  run_M. destruct (fs w0 !! path) as [[| | |]|] eqn:Hd; try discriminate.
  - now intros [= <-].
  - destruct (mkdir_error P path); [discriminate|]. run_M.
    intros [= <-]. cbn [fs]. apply lookup_insert_eq.
Qed.

(** What [mkdir] adds is the directory asked for or one of its
    ancestors. *)
Lemma make_parents_adds (P : platform) (dirs : list string) :
  forall (r : result unit) (w w1 : world),
    make_parents P dirs w = (r, w1) ->
    forall p, fs w1 !! p = fs w !! p
              \/ (fs w !! p = None /\ fs w1 !! p = Some Dir /\ In p dirs).
Proof.
  induction dirs as [|d dirs IH]; intros r w w1.
  - intros [= _ <-] p. now left.
  - cbn [make_parents]. run_M.
    destruct (fs w !! d) as [[| | |]|] eqn:Hd;
      try (intros [= _ <-] p; now left).
    + intros H p. destruct (IH _ _ _ H p) as [E | (E1 & E2 & E3)];
        [now left | right; repeat split; [assumption .. | now right]].
    + destruct (mkdir_error P d); [intros [= _ <-] p; now left|].
      run_M. intros H p.
      destruct (IH _ _ _ H p) as [E | (E1 & E2 & E3)]; cbn [fs] in *.
      * destruct (decide (p = d)) as [-> | Hne].
        -- right. rewrite E, lookup_insert_eq.
           repeat split; [assumption | now left].
        -- left. rewrite E. now apply lookup_insert_ne.
      * destruct (decide (p = d)) as [-> | Hne].
        -- rewrite lookup_insert_eq in E1. discriminate E1.
        -- rewrite lookup_insert_ne in E1 by congruence.
           right. repeat split; [assumption .. | now right].
Qed.

Lemma mkdir_adds (P : platform) (path : string) (r : result unit)
    (w w1 : world) :
  mkdir P path w = (r, w1) ->
  forall p, fs w1 !! p = fs w !! p
            \/ (fs w !! p = None /\ fs w1 !! p = Some Dir
                /\ In p (OsPath.ancestors path ++ [path])).
Proof.
  unfold mkdir.
  destruct (PyStr.any_chr (Ascii.eqb "000") path);
    [intros [= _ <-] p; now left|].
  unfold bind at 1.
  destruct (make_parents P (OsPath.ancestors path) w) as [[[]|e] w0] eqn:Hp.
  2: { intros [= _ <-] p.
       destruct (make_parents_adds _ _ _ _ _ Hp p) as [E | (E1 & E2 & E3)];
         [now left | right; repeat split; [assumption ..|]].
       apply in_or_app. now left. }
  assert (Hw0 : forall p,
             fs w0 !! p = fs w !! p
             \/ (fs w !! p = None /\ fs w0 !! p = Some Dir
                 /\ In p (OsPath.ancestors path ++ [path]))).
  { intros p.
    destruct (make_parents_adds _ _ _ _ _ Hp p) as [E | (E1 & E2 & E3)];
      [now left | right; repeat split; [assumption ..|]].
    apply in_or_app. now left. }
  run_M.
  destruct (fs w0 !! path) as [[| | |]|] eqn:Hd;
    try (intros [= _ <-]; exact Hw0).
  destruct (mkdir_error P path); [intros [= _ <-]; exact Hw0|].
  run_M. intros [= _ <-] p. cbn [fs].
  destruct (decide (p = path)) as [-> | Hne].
  - rewrite lookup_insert_eq.
    destruct (Hw0 path) as [E | (E1 & E2 & E3)].
    + right. rewrite <- E, Hd. repeat split.
      apply in_or_app. right. now left.
    + rewrite Hd in E2. discriminate E2.
  - rewrite lookup_insert_ne by congruence. apply Hw0.
Qed.

(** Something that is not a directory stands where the directory is
    asked for: [mkdir] raises. *)
Lemma mkdir_blocked (P : platform) (path : string) (n : node) (w : world) :
  fs w !! path = Some n -> n <> Dir ->
  exists e w1, mkdir P path w = (Raise e, w1).
Proof.
  intros Hn Hnd. unfold mkdir.
  destruct (PyStr.any_chr (Ascii.eqb "000") path); [run_M; eauto|].
  unfold bind at 1.
  destruct (make_parents P (OsPath.ancestors path) w) as [[[]|e0] w0] eqn:Hp;
    [|eauto].
  apply make_parents_frame in Hp. run_M.
  rewrite (only_dirs_added_lookup w w0 path n Hp Hn).
  destruct n; [contradiction | eauto | eauto | eauto].
Qed.

Lemma resize_pdf_mkdir_raise (P : platform)
    (input_path output_dir output_name : string)
    (target_width target_height : Z) (e : exn) (w w1 : world) :
  is_Some (fs w !! input_path) ->
  mkdir P output_dir w = (Raise e, w1) ->
  Resizepdf.resize_pdf P input_path output_dir output_name
                       target_width target_height w = (Raise e, w1).
Proof.
  intros Hex Hmk. unfold Resizepdf.resize_pdf. run_M.
  rewrite bool_decide_eq_true_2 by exact Hex. cbn [negb].
  rewrite Hmk. reflexivity.
Qed.

Lemma resized_from_rect (target_width target_height : Z) (src out : page) :
  resized_from target_width target_height src out ->
  Resizepdf.page_rect out
  = (Float.to_single (Float.of_int target_width),
     Float.to_single (Float.of_int target_height)).
Proof. intros (x0 & y0 & x1 & y1 & s & ->). reflexivity. Qed.

(** C5, as stated, fails on the box of the page: [new_page] keeps the
    width and the height as binary32, and a target of 16777217 points
    gives pages that are 16777216 points wide. *)
Lemma wide_target_is_rounded :
  exists (pages : list page) (w' : world),
    Resizepdf.resize_pdf quiet_platform "/in/part1.pdf" "/in" "small.pdf"
                         16777217 300 world_folder = (Ok true, w')
    /\ fs w' !! "/in/small.pdf" = Some (Pdf (Document pages None))
    /\ length pages = 2%nat
    /\ Forall (fun pg =>
                 (Float.to_Q (fst (Resizepdf.page_rect pg)) == 16777216 # 1)%Q
                 /\ ~ (Float.to_Q (fst (Resizepdf.page_rect pg))
                       == 16777217 # 1)%Q)
              pages.
Proof.
  eexists _, _. split; [vm_compute; reflexivity|].
  split; [vm_compute; reflexivity|]. split; [reflexivity|].
  repeat constructor; vm_compute; discriminate.
Qed.

(** C5 (corrected): for an input that opens, whose pages load and are
    resizable, and that has a page, when the output directory is there or
    can be made and the output can be written, the resize returns [True]
    and writes a document with one page for each page of the input, in
    the same order, each made by [new_page] with the target width and
    height. The box of such a page holds the binary32 nearest to each
    target: it is the target itself for targets up to [2 ^ 24]. *)
Theorem resize_keeps_pages_and_target_size (P : platform)
    (input_path output_dir output_name : string)
    (target_width target_height : Z) (d : document) (w w1 : world) :
  fs w !! input_path = Some (Pdf d) ->
  doc_load_error d = None ->
  mkdir P output_dir w = (Ok tt, w1) ->
  doc_pages d <> [] ->
  Forall (resizable P target_width target_height) (doc_pages d) ->
  write_error P (OsPath.join output_dir output_name) = None ->
  exists (pages : list page) (w' : world),
    Resizepdf.resize_pdf P input_path output_dir output_name
                         target_width target_height w = (Ok true, w')
    /\ fs w' !! OsPath.join output_dir output_name
       = Some (Pdf (Document pages None))
    /\ length pages = length (doc_pages d)
    /\ Forall2 (resized_from target_width target_height) (doc_pages d) pages
    /\ Forall (fun pg => Resizepdf.page_rect pg
                         = (Float.to_single (Float.of_int target_width),
                            Float.to_single (Float.of_int target_height)))
              pages
    /\ (0 < target_width <= 2 ^ 24 ->
        Forall (fun pg =>
                  (Float.to_Q (fst (Resizepdf.page_rect pg))
                   == inject_Z target_width)%Q) pages)
    /\ (0 < target_height <= 2 ^ 24 ->
        Forall (fun pg =>
                  (Float.to_Q (snd (Resizepdf.page_rect pg))
                   == inject_Z target_height)%Q) pages).
Proof.
  intros Hin Hload Hmk Hne Hpages Hw.
  pose proof (mkdir_frame _ _ _ _ _ Hmk) as Hframe.
  pose proof (only_dirs_added_lookup _ _ _ _ Hframe Hin) as Hin1.
  unfold Resizepdf.resize_pdf. run_M. rewrite Hin.
  rewrite bool_decide_eq_true_2 by eauto. cbn [negb].
  rewrite Hmk. rewrite Hin1. run_M.
  match goal with
  | |- context [mapM ?f ?l ?w0] =>
      destruct (resize_pages_ok P target_width target_height d (doc_pages d)
                  w0 Hload Hpages) as (pages & Hmap & HF)
  end.
  rewrite Hmap. unfold fitz_save.
  destruct pages as [|pg pgs] eqn:Epages.
  { apply Forall2_length in HF. destruct (doc_pages d); [easy | discriminate HF]. }
  rewrite Hw. run_M.
  assert (Hsome : exists n,
             <[OsPath.join output_dir output_name :=
                 Pdf (Document (pg :: pgs) None)]> (fs w1) !! input_path
             = Some n).
  { destruct (decide (OsPath.join output_dir output_name = input_path))
      as [E|E].
    - rewrite E, lookup_insert_eq. eauto.
    - rewrite lookup_insert_ne by exact E. eauto. }
  destruct Hsome as [n ->]. cbn [fs]. rewrite lookup_insert_eq.
  eexists _, _. split; [reflexivity|]. cbn [fs].
  rewrite lookup_insert_eq. split; [reflexivity|].
  split; [symmetry; apply (Forall2_length _ _ _ HF)|].
  split; [exact HF|].
  assert (Hrect : Forall (fun pg0 =>
                    Resizepdf.page_rect pg0
                    = (Float.to_single (Float.of_int target_width),
                       Float.to_single (Float.of_int target_height)))
                    (pg :: pgs)).
  { clear -HF. induction HF; constructor; eauto using resized_from_rect. }
  split; [exact Hrect|]. split.
  - intros Ht. destruct (to_single_of_int target_width Ht) as [E1 E2].
    apply (Forall_impl _ _ _ Hrect). intros pg0 ->. cbn [fst].
    rewrite E1. exact E2.
  - intros Ht. destruct (to_single_of_int target_height Ht) as [E1 E2].
    apply (Forall_impl _ _ _ Hrect). intros pg0 ->. cbn [snd].
    rewrite E1. exact E2.
Qed.

Lemma resize_keeps_pages_and_target_size_witness :
  exists (pages : list page) (w' : world),
    Resizepdf.resize_pdf quiet_platform "/in/part1.pdf" "/out/small"
                         "small.pdf" 300 16777216 world_folder = (Ok true, w')
    /\ fs w' !! OsPath.join "/out/small" "small.pdf"
       = Some (Pdf (Document pages None))
    /\ length pages = 2%nat
    /\ Forall2 (resized_from 300 16777216)
               [blank_page "p1"; blank_page "p2"] pages
    /\ Forall (fun pg => Resizepdf.page_rect pg
                         = (Float.to_single (Float.of_int 300),
                            Float.to_single (Float.of_int 16777216)))
              pages
    /\ (0 < 300 <= 2 ^ 24 ->
        Forall (fun pg =>
                  (Float.to_Q (fst (Resizepdf.page_rect pg))
                   == inject_Z 300)%Q) pages)
    /\ (0 < 16777216 <= 2 ^ 24 ->
        Forall (fun pg =>
                  (Float.to_Q (snd (Resizepdf.page_rect pg))
                   == inject_Z 16777216)%Q) pages).
Proof.
  apply (resize_keeps_pages_and_target_size quiet_platform "/in/part1.pdf"
           "/out/small" "small.pdf" 300 16777216
           (doc_of_bodies ["p1"; "p2"]) world_folder
           (snd (mkdir quiet_platform "/out/small" world_folder))).
  - reflexivity.
  - reflexivity.
  - vm_compute. reflexivity.
  - discriminate.
  - constructor; [|constructor; [|constructor]];
      (eexists; split; [vm_compute; reflexivity|]); split; reflexivity.
  - reflexivity.
Defined.

(** A page whose rectangle has no width stops the resize: the division
    raises, nothing is saved and [False] is returned. *)
Example resize_zero_width_page :
  let flat := Document [PdfPage (Float.of_int 0) (Float.of_int 792) "x"] None in
  let w := set_file world_folder "/in/flat.pdf" (Pdf flat) in
  let r := Resizepdf.resize_pdf quiet_platform "/in/flat.pdf" "/in"
                                "small.pdf" 300 300 w in
  fst r = Ok false
  /\ fs (snd r) !! "/in/small.pdf" = None
  /\ stdout (snd r) = ["ERROR during process: division by zero"].
Proof. vm_compute. repeat split; reflexivity. Qed.

(** ** The output directory *)

(** C2 (amended): a failure to create the output directory is caught in
    one place and fatal in the other. [get_output_directory], the same in
    both tools, tries to create the directory only when nothing is at the
    path the user typed; when that fails it prints the error with its
    cause, returns the default directory in its place, and [main] goes on
    with it: nothing is tried again. A path where something is already is
    returned as it is; when that is not a directory, the resize tool,
    once the run is confirmed, ends with the exception of the [mkdir] of
    [resize_pdf], which stands before its [try]: nothing is printed and
    no file is changed. *)
Theorem output_directory_falls_back (P : platform)
    (default_dir line : string) (rest : list string) (w : world) :
  let requested :=
    PyStr.strip_chars (PyStr.strip_chars (PyStr.strip line) dquote) "'" in
  stdin w = line :: rest ->
  PyStr.eqb (PyStr.strip line) "" = false ->
  (forall (e : exn) (w1 : world),
     fs w !! requested = None ->
     mkdir P requested (with_stdin w rest) = (Raise e, w1) ->
     let w' :=
       add_out w1 ["ERROR: Could not create directory: " +:+ str_of_exn e;
                   "Using default directory: " +:+ default_dir] in
     Mergepdf.get_output_directory P default_dir w = (Ok default_dir, w')
     /\ Resizepdf.get_output_directory P default_dir w = (Ok default_dir, w')
     /\ (forall (A : Type) (k : string -> M A),
           bind (Mergepdf.get_output_directory P default_dir) k w
           = k default_dir w')
     /\ (forall (A : Type) (k : string -> M A),
           bind (Resizepdf.get_output_directory P default_dir) k w
           = k default_dir w'))
  /\ (forall n : node,
        fs w !! requested = Some n ->
        Mergepdf.get_output_directory P default_dir w
        = (Ok requested, with_stdin w rest)
        /\ Resizepdf.get_output_directory P default_dir w
           = (Ok requested, with_stdin w rest))
  /\ (forall (n : node) (input_path output_name : string)
             (target_width target_height : Z) (confirm : string)
             (rest' : list string),
        fs w !! requested = Some n -> n <> Dir ->
        default_dir = OsPath.dirname input_path ->
        is_Some (fs w !! input_path) ->
        rest = confirm :: rest' ->
        PyStr.eqb (PyStr.lower (PyStr.strip confirm)) "no" = false ->
        exists (e : exn) (w' : world),
          Resizepdf.run P input_path output_name target_width target_height w
          = (Raise e, w')
          /\ mkdir P requested (with_stdin w rest') = (Raise e, w')
          /\ stdout w' = stdout w
          /\ (forall p m, fs w !! p = Some m -> fs w' !! p = Some m)).
Proof.
  intros requested Hline Hasked.
  assert (Hsame : Mergepdf.get_output_directory P default_dir w
                  = Resizepdf.get_output_directory P default_dir w)
    by reflexivity.
  assert (Hfound : forall n : node,
             fs w !! requested = Some n ->
             Resizepdf.get_output_directory P default_dir w
             = (Ok requested, with_stdin w rest)).
  { intros n Hn. unfold Resizepdf.get_output_directory. run_M.
    rewrite Hline, Hasked. cbn [fs]. fold requested. rewrite Hn.
    rewrite bool_decide_eq_true_2 by eauto. reflexivity. }
  split; [|split].
  - intros e w1 Hmissing Hfail w'.
    assert (Hr : Resizepdf.get_output_directory P default_dir w
                 = (Ok default_dir, w')).
    { unfold Resizepdf.get_output_directory. run_M. rewrite Hline, Hasked.
      cbn [fs]. fold requested. rewrite Hmissing.
      rewrite bool_decide_eq_false_2 by (intros [? ?]; congruence).
      unfold with_stdin in Hfail. rewrite Hfail.
      unfold w', add_out. cbn [fs stdin stdout open_docs next_doc].
      now rewrite <- app_assoc. }
    rewrite Hsame. repeat split; try assumption; intros A k; unfold bind;
      rewrite ?Hsame, Hr; reflexivity.
  - intros n Hn. rewrite Hsame. split; exact (Hfound n Hn).
  - intros n input_path output_name target_width target_height confirm rest'
           Hn Hnd -> Hin -> Hconfirm.
    destruct (mkdir_blocked P requested n
                (with_stdin w rest') Hn Hnd) as (e & w' & Hmk).
    exists e, w'. unfold Resizepdf.run. unfold bind at 1.
    rewrite (Hfound n Hn). run_M. unfold with_stdin in Hmk |- *.
    cbn [fs stdin stdout open_docs next_doc]. rewrite Hconfirm.
    rewrite (resize_pdf_mkdir_raise P input_path requested output_name
               target_width target_height e
               (World (fs w) rest' (stdout w) (open_docs w) (next_doc w))
               w' Hin Hmk).
    split; [reflexivity|]. split; [exact Hmk|].
    pose proof (mkdir_frame _ _ _ _ _ Hmk) as Hframe.
    split; [apply Hframe|].
    intros p m Hp. exact (only_dirs_added_lookup _ _ p m Hframe Hp).
Qed.

(** C2, as stated, fails: in a run of each tool where the directory asked
    for cannot be made, the error is printed, the default directory /in
    takes its place and the output is written there. *)
Lemma mkdir_failure_is_not_fatal :
  let wm := snd (Mergepdf.main readonly_platform merge_session) in
  let wr := snd (Resizepdf.main readonly_platform resize_session) in
  fst (Mergepdf.main readonly_platform merge_session) = Ok tt
  /\ stdout wm
     = ["ERROR: Could not create directory: [Errno 13] Permission denied: '/ro/out'";
        "Using default directory: /in"; "Process completed successfully!"]
  /\ fs wm !! "/in/out.pdf"
     = Some (Pdf (doc_of_bodies ["p1"; "p2"; "q1"]))
  /\ fst (Resizepdf.main readonly_platform resize_session) = Ok tt
  /\ stdout wr
     = ["ERROR: Could not create directory: [Errno 13] Permission denied: '/ro/out'";
        "Using default directory: /in"; "Process completed successfully!";
        "Operation completed successfully!"]
  /\ is_Some (fs wr !! "/in/small.pdf").
Proof.
  vm_compute. repeat split; try reflexivity. eexists. reflexivity.
Qed.

Lemma output_directory_falls_back_witness :
  let w := with_stdin merge_session ["/ro/out"; ""] in
  let w1 := snd (mkdir readonly_platform "/ro/out" (with_stdin w [""])) in
  let w' :=
    add_out w1
      ["ERROR: Could not create directory: "
       +:+ str_of_exn (OSError "[Errno 13] Permission denied: '/ro/out'");
       "Using default directory: " +:+ "/in"] in
  Mergepdf.get_output_directory readonly_platform "/in" w = (Ok "/in", w')
  /\ Resizepdf.get_output_directory readonly_platform "/in" w = (Ok "/in", w')
  /\ (forall (A : Type) (k : string -> M A),
        bind (Mergepdf.get_output_directory readonly_platform "/in") k w
        = k "/in" w')
  /\ (forall (A : Type) (k : string -> M A),
        bind (Resizepdf.get_output_directory readonly_platform "/in") k w
        = k "/in" w').
Proof.
  apply (proj1 (output_directory_falls_back readonly_platform "/in" "/ro/out"
                  [""] (with_stdin merge_session ["/ro/out"; ""])
                  eq_refl eq_refl)
           (OSError "[Errno 13] Permission denied: '/ro/out'")
           (snd (mkdir readonly_platform "/ro/out"
                   (with_stdin (with_stdin merge_session ["/ro/out"; ""])
                               [""]))));
    reflexivity.
Defined.

(** The output directory typed is the path of a file: the resize tool
    ends with the exception of [mkdir]. *)
Example output_directory_is_a_file :
  exists msg w',
    Resizepdf.main quiet_platform
      (with_stdin world_folder
         ["/in/part1.pdf"; "300"; "300"; "small"; "/in/part2.pdf"; ""])
    = (Raise (OSError msg), w')
    /\ stdout w' = []
    /\ fs w' = fs world_folder.
Proof. eexists _, _. split; [vm_compute; reflexivity|]. split; reflexivity. Qed.

(** ** The prompt loops

    Each round of a [while True] loop reads a line, so the lines left on
    the input bound the rounds: with more fuel than lines the fuel is never
    used up, and the result does not depend on it. *)

Lemma get_valid_folder_path_loop_fuel (n : nat) :
  forall (m : nat) (w : world),
    (length (stdin w) < n)%nat -> (length (stdin w) < m)%nat ->
    Mergepdf.get_valid_folder_path_loop n w
    = Mergepdf.get_valid_folder_path_loop m w.
Proof.
  induction n as [|n IH]; intros m w Hn Hm; [lia|].
  destruct m as [|m]; [lia|].
  cbn [Mergepdf.get_valid_folder_path_loop]. run_M.
  destruct (stdin w) as [|line rest] eqn:E; [reflexivity|].
  cbn [fs]. destruct (fs w !! Mergepdf.clean_path line) as [[| | |]|];
    try reflexivity; apply IH; cbn [stdin]; simpl in Hn, Hm; lia.
Qed.

Lemma get_valid_path_loop_fuel (n : nat) :
  forall (m : nat) (w : world),
    (length (stdin w) < n)%nat -> (length (stdin w) < m)%nat ->
    Resizepdf.get_valid_path_loop n w = Resizepdf.get_valid_path_loop m w.
Proof.
  induction n as [|n IH]; intros m w Hn Hm; [lia|].
  destruct m as [|m]; [lia|].
  cbn [Resizepdf.get_valid_path_loop]. run_M.
  destruct (stdin w) as [|line rest] eqn:E; [reflexivity|].
  cbn [fs].
  destruct (bool_decide (is_Some (fs w !! Resizepdf.clean_path line)));
    [destruct (PyStr.endswith _ ".pdf"); [reflexivity|] |];
    apply IH; cbn [stdin]; simpl in Hn, Hm; lia.
Qed.

Lemma get_valid_dimension_round_stdin (w : world) :
  (exists r w', Resizepdf.get_valid_dimension_round w = (Ok r, w')
                /\ (length (stdin w') < length (stdin w))%nat
                /\ match r with Some v => 0 < v | None => True end)
  \/ (Resizepdf.get_valid_dimension_round w = (Raise EOFError, w)
      /\ stdin w = []).
Proof.
  unfold Resizepdf.get_valid_dimension_round. run_M.
  destruct (stdin w) as [|line rest] eqn:E; [right; now split|].
  left. destruct (PyStr.int (PyStr.strip line)) as [v|e] eqn:Ev.
  - destruct (0 <? v) eqn:Hv.
    + eexists _, _. split; [reflexivity|]. cbn [stdin]. split; [simpl; lia|].
      now apply Z.ltb_lt.
    + eexists _, _. split; [reflexivity|]. cbn [stdin]. split; [simpl; lia|].
      exact I.
  - destruct (int_value_error _ _ Ev) as [m ->].
    eexists _, _. split; [reflexivity|]. cbn [stdin]. split; [simpl; lia|].
    exact I.
Qed.

Lemma get_valid_dimension_loop_fuel (n : nat) :
  forall (m : nat) (w : world),
    (length (stdin w) < n)%nat -> (length (stdin w) < m)%nat ->
    Resizepdf.get_valid_dimension_loop n w
    = Resizepdf.get_valid_dimension_loop m w.
Proof.
  induction n as [|n IH]; intros m w Hn Hm; [lia|].
  destruct m as [|m]; [lia|].
  cbn [Resizepdf.get_valid_dimension_loop]. unfold bind.
  destruct (get_valid_dimension_round_stdin w)
    as [(r & w' & -> & Hlen & _) | [-> _]]; [|reflexivity].
  destruct r as [v|]; [reflexivity|]. apply IH; lia.
Qed.

(** [get_valid_dimension] only returns positive numbers. *)
Lemma get_valid_dimension_positive (w w' : world) (v : Z) :
  Resizepdf.get_valid_dimension w = (Ok v, w') -> 0 < v.
Proof.
  unfold Resizepdf.get_valid_dimension.
  generalize (S (length (stdin w))). intros n. revert w.
  induction n as [|n IH]; intros w; [discriminate|].
  cbn [Resizepdf.get_valid_dimension_loop]. unfold bind.
  destruct (get_valid_dimension_round_stdin w)
    as [(r & w1 & -> & _ & Hr) | [-> _]]; [|discriminate].
  destruct r as [v1|]; [|apply IH].
  unfold ret. intros [= <- _]. exact Hr.
Qed.

(** ** What a run that produced an output went through *)

Lemma try_except_returns {A} (body : M A) (handler : exn -> M A) (w : world) :
  (forall e w1, exists a w2, handler e w1 = (Ok a, w2)) ->
  exists a w', try_except body handler w = (Ok a, w').
Proof.
  intros H. unfold try_except. destruct (body w) as [[a|e] w1]; eauto.
Qed.

(** Neither the converter nor a round of the merge loop lets an exception
    out. *)
Lemma cbz_to_pdf_never_raises (P : platform) (cbz_path output_path : string)
    (w : world) :
  exists r w', Mergepdf.cbz_to_pdf P cbz_path output_path w = (Ok r, w').
Proof.
  apply try_except_returns. intros e w1. run_M. eauto.
Qed.

Lemma merge_one_never_raises (out : list page) (pdf_path : string)
    (w : world) :
  exists out' w', Mergepdf.merge_one out pdf_path w = (Ok out', w').
Proof.
  apply try_except_returns. intros e w1. run_M. eauto.
Qed.

Lemma rmapM_inv {A B} (f : A -> result B) (l : list A) :
  forall ys, rmapM f l = Ok ys -> Forall2 (fun x y => f x = Ok y) l ys.
Proof.
  induction l as [|x l IH]; intros ys; simpl.
  - intros [= <-]. constructor.
  - destruct (f x) as [y|] eqn:Hy; [|discriminate]. simpl.
    destruct (rmapM f l) as [ys'|]; [|discriminate]. simpl.
    intros [= <-]. constructor; [exact Hy | now apply IH].
Qed.

(** Whenever the converter returns a path, it is the output path, and the
    document written there has the pages of the qualifying entries, in
    natural order, one for each frame. *)
Lemma cbz_to_pdf_output_inv (P : platform) (cbz_path output_path r : string)
    (w w' : world) :
  Mergepdf.cbz_to_pdf P cbz_path output_path w = (Ok (Some r), w') ->
  exists (archive : list zip_entry) (names : list string)
         (groups : list (list page)),
    fs w !! cbz_path = Some (Zip archive)
    /\ r = output_path
    /\ fs w' !! output_path = Some (Pdf (Document (concat groups) None))
    /\ names ≡ₚ List.filter Mergepdf.is_image_name (namelist archive)
    /\ StronglySorted natural_le names
    /\ Forall2 (fun name pages => exists data frames,
                    zip_read archive name = Ok data
                    /\ image_layout P data = Some frames
                    /\ pages = map (fun '(width, height) =>
                                      ImagePage width height data) frames)
               names groups.
Proof.
  unfold Mergepdf.cbz_to_pdf. run_M.
  destruct (fs w !! cbz_path) as [[|archive| |]|] eqn:Hfs;
    try (run_M; discriminate).
  run_M.
  destruct (List.filter Mergepdf.is_image_name (namelist archive))
    as [|i0 images] eqn:Eim; [run_M; discriminate|].
  destruct (list_sort natural_sort_key (i0 :: images)) as [names|] eqn:Hsort;
    [|run_M; discriminate].
  destruct (list_sort_natural_strong _ _ Hsort) as [Hperm Hsorted].
  run_M.
  destruct (rmapM (zip_read archive) names) as [datas|] eqn:Hdatas;
    [|run_M; discriminate].
  unfold open_wb.
  destruct (write_error P output_path); [run_M; discriminate|].
  run_M. unfold img2pdf_convert.
  destruct (rmapM _ datas) as [groups|] eqn:Hgroups; [|run_M; discriminate].
  cbn [rbind]. run_M. intros [= <- <-].
  exists archive, names, groups. split; [reflexivity|]. split; [reflexivity|].
  cbn [fs]. split; [apply lookup_insert_eq|].
  split; [rewrite Eim; exact Hperm|]. split; [exact Hsorted|].
  eapply Forall2_impl;
    [exact (Forall2_compose _ _ _ _ _ (rmapM_inv _ _ _ Hdatas)
              (rmapM_inv _ _ _ Hgroups))|].
  intros name pages (data & Hz & Hl). unfold image_pages in Hl.
  destruct (image_layout P data) as [frames|] eqn:El; [|discriminate Hl].
  injection Hl as <-. eauto.
Qed.

Lemma resize_page_inv (P : platform) (target_width target_height : Z)
    (d : document) (p out : page) (w w' : world) :
  Resizepdf.resize_page P target_width target_height d p w = (Ok out, w') ->
  w' = w /\ doc_load_error d = None
  /\ resized_from target_width target_height p out.
Proof.
  unfold Resizepdf.resize_page, Resizepdf.load_page.
  destruct (doc_load_error d); [run_M; discriminate|]. run_M.
  destruct (Resizepdf.page_rect p) as [cw ch].
  run_M. destruct (page_geometry _ _ cw ch) as [g|]; [|discriminate].
  unfold Resizepdf.get_pixmap, Resizepdf.insert_image.
  destruct (pixmap_error P p (scale g)); [run_M; discriminate|]. run_M.
  destruct (insert_image_error P _ _ _ _); [run_M; discriminate|]. run_M.
  intros [= <- <-]. split; [reflexivity|]. split; [reflexivity|].
  unfold resized_from. eauto 10.
Qed.

Lemma resize_pages_inv (P : platform) (target_width target_height : Z)
    (d : document) (pages : list page) :
  forall (outs : list page) (w w' : world),
    mapM (Resizepdf.resize_page P target_width target_height d) pages w
    = (Ok outs, w') ->
    w' = w /\ Forall2 (resized_from target_width target_height) pages outs.
Proof.
  induction pages as [|p pages IH]; intros outs w w'; simpl.
  - unfold ret. intros [= <- <-]. split; [reflexivity | constructor].
  - unfold bind at 1.
    destruct (Resizepdf.resize_page P _ _ d p w) as [[out|] w1] eqn:Hp;
      [|discriminate].
    apply resize_page_inv in Hp as (-> & _ & Hfrom). unfold bind at 1.
    destruct (mapM _ pages w) as [[outs'|] w2] eqn:Hrest; [|discriminate].
    apply IH in Hrest as [-> HF]. unfold ret. intros [= <- <-].
    split; [reflexivity | now constructor].
Qed.

(** Whenever [resize_pdf] returns [True], the input was a document and the
    output holds one page of the target size for each of its pages, in
    order. *)
Lemma resize_pdf_output_inv (P : platform)
    (input_path output_dir output_name : string)
    (target_width target_height : Z) (w w' : world) :
  Resizepdf.resize_pdf P input_path output_dir output_name
                       target_width target_height w = (Ok true, w') ->
  exists (d : document) (pages : list page),
    fs w !! input_path = Some (Pdf d)
    /\ fs w' !! OsPath.join output_dir output_name
       = Some (Pdf (Document pages None))
    /\ Forall2 (resized_from target_width target_height) (doc_pages d) pages.
Proof.
  unfold Resizepdf.resize_pdf. run_M.
  destruct (bool_decide (is_Some (fs w !! input_path))) eqn:Hex;
    cbn [negb]; [|discriminate].
  apply bool_decide_eq_true_1 in Hex.
  destruct (mkdir P output_dir w) as [[[]|] w1] eqn:Hmk; [|discriminate].
  assert (Hsame : fs w1 !! input_path = fs w !! input_path).
  { destruct Hex as [n Hn]. rewrite Hn.
    exact (only_dirs_added_lookup _ _ _ _ (mkdir_frame _ _ _ _ _ Hmk) Hn). }
  cbn [fs]. rewrite Hsame.
  destruct (fs w !! input_path) as [[| |d|]|] eqn:Hin; run_M;
    try discriminate.
  match goal with
  | |- context [mapM ?f ?l ?w0] =>
      destruct (mapM f l w0) as [[pages|] w2] eqn:Hmap; [|discriminate]
  end.
  apply resize_pages_inv in Hmap as [-> HF].
  unfold fitz_save. destruct pages as [|pg pgs]; [run_M; discriminate|].
  destruct (write_error P _); [run_M; discriminate|]. run_M. cbn [fs].
  match goal with
  | |- context [<[?k := ?v]> ?m !! input_path] =>
      destruct (<[k := v]> m !! input_path); [|discriminate]
  end.
  cbn [fs stdin stdout open_docs next_doc]. rewrite lookup_insert_eq.
  cbn [fs stdin stdout open_docs next_doc]. intros [= <-].
  exists d, (pg :: pgs). split; [reflexivity|]. cbn [fs].
  split; [apply lookup_insert_eq | exact HF].
Qed.

(** ** More examples *)

Example image_names :
  Mergepdf.is_image_name "page01.JPG" = true
  /\ Mergepdf.is_image_name "cover.jpeg" = true
  /\ Mergepdf.is_image_name "dir/A.Png" = true
  /\ Mergepdf.is_image_name ".png" = true
  /\ Mergepdf.is_image_name "readme.txt" = false
  /\ Mergepdf.is_image_name "a.png/" = false
  /\ Mergepdf.is_image_name "png" = false.
Proof. repeat split; reflexivity. Qed.

(** A target too large for a float: the conversion raises, nothing is
    saved and [False] is returned. *)
Example resize_huge_target :
  let r := Resizepdf.resize_pdf quiet_platform "/in/part1.pdf" "/in"
                                "small.pdf" (10 ^ 400) 300 world_folder in
  fst r = Ok false
  /\ fs (snd r) !! "/in/small.pdf" = None
  /\ stdout (snd r)
     = ["ERROR during process: int too large to convert to float"].
Proof. vm_compute. repeat split; reflexivity. Qed.

Example path_examples :
  OsPath.splitext "/in/vol.1/comic.cbz" = ("/in/vol.1/comic", ".cbz")
  /\ OsPath.splitext "/in/.cbz" = ("/in/.cbz", "")
  /\ OsPath.dirname "/in/part1.pdf" = "/in"
  /\ OsPath.dirname "part1.pdf" = ""
  /\ OsPath.join "/in" "out.pdf" = "/in/out.pdf"
  /\ OsPath.join "" "out.pdf" = "out.pdf"
  /\ OsPath.join "/in" "/tmp/out.pdf" = "/tmp/out.pdf".
Proof. repeat split; reflexivity. Qed.

Example int_examples :
  PyStr.int " +1_0 " = Ok 10
  /\ PyStr.int "-007" = Ok (-7)
  /\ PyStr.int "1__0" = Raise PyStr.invalid_literal
  /\ PyStr.int "" = Raise PyStr.invalid_literal
  /\ PyStr.int "12a" = Raise PyStr.invalid_literal.
Proof. repeat split; reflexivity. Qed.

(** * Further properties *)

(** ** More on the natural sort key *)

Lemma split_aux_text (t : string) :
  forall (acc s : string),
    text_piece t = true ->
    Re.split_aux false acc (t +:+ s) = Re.split_aux false (acc +:+ t) s.
Proof.
  induction t as [|c t IH]; intros acc s Ht.
  - now rewrite append_empty_l, append_empty_r.
  - unfold text_piece in Ht. simpl in Ht.
    apply negb_true_iff, orb_false_iff in Ht as [Hc Ht].
    rewrite append_cons. cbn [Re.split_aux]. rewrite Hc.
    rewrite IH by (unfold text_piece; now rewrite Ht).
    now rewrite snoc_append.
Qed.

Lemma split_aux_digits (d : string) :
  forall (acc s : string),
    PyStr.all_chr PyStr.is_decimal d = true ->
    Re.split_aux true acc (d +:+ s) = Re.split_aux true (acc +:+ d) s.
Proof.
  induction d as [|c d IH]; intros acc s Hd.
  - now rewrite append_empty_l, append_empty_r.
  - simpl in Hd. apply andb_true_iff in Hd as [Hc Hd].
    rewrite append_cons. cbn [Re.split_aux]. rewrite Hc.
    rewrite IH by exact Hd. now rewrite snoc_append.
Qed.

Lemma split_aux_leave_digits (acc u : string) :
  starts_nondigit u = true ->
  Re.split_aux true acc u = acc :: Re.split_digits u.
Proof.
  destruct u as [|c u]; [reflexivity|]. unfold Re.split_digits. simpl.
  intros Hc. apply negb_true_iff in Hc. now rewrite Hc.
Qed.

(** A text, a digit run and a rest that does not go on with a digit are
    split where they meet. *)
Lemma split_digits_text_digits (t d u : string) :
  text_piece t = true -> digit_piece d = true -> starts_nondigit u = true ->
  Re.split_digits (t +:+ d +:+ u) = t :: d :: Re.split_digits u.
Proof.
  intros Ht Hd Hu. unfold Re.split_digits.
  rewrite split_aux_text by exact Ht. rewrite append_empty_l.
  unfold digit_piece in Hd. apply andb_true_iff in Hd as [Hne Hall].
  destruct d as [|c d]; [discriminate Hne|].
  simpl in Hall. apply andb_true_iff in Hall as [Hc Hall].
  rewrite append_cons. cbn [Re.split_aux]. rewrite Hc.
  rewrite split_aux_digits by exact Hall.
  now rewrite split_aux_leave_digits.
Qed.

Lemma key_text_digits (t d u : string) (k : list token) :
  text_piece t = true -> digit_piece d = true -> starts_nondigit u = true ->
  natural_sort_key (t +:+ d +:+ u) = Ok k ->
  exists n rest,
    PyStr.int d = Ok n /\ k = Text (PyStr.lower t) :: Num n :: rest.
Proof.
  intros Ht Hd Hu. unfold natural_sort_key.
  rewrite (split_digits_text_digits t d u Ht Hd Hu). simpl.
  destruct (key_of_text t) as [kt|] eqn:Ekt; [|discriminate]. simpl.
  destruct (key_of_text d) as [kd|] eqn:Hn; [|discriminate]. simpl.
  destruct (key_of_digit_piece_num d kd Hd Hn) as [n ->].
  destruct (rmapM key_of_text (Re.split_digits u)) as [rest|];
    [|discriminate]. simpl.
  intros [= <-]. exists n, rest. split.
  - unfold key_of_text in Hn.
    destruct (PyStr.isdigit d); [|discriminate Hn].
    destruct (PyStr.int d); [|discriminate Hn]. simpl in Hn. congruence.
  - unfold key_of_text in Ekt. destruct (PyStr.isdigit t) eqn:Edig.
    + destruct (int_superscript t Edig Ht) as [e He]. rewrite He in Ekt.
      discriminate Ekt.
    + now injection Ekt as <-.
Qed.

(** X1: two names with the same text before their first digit run are
    ordered by the value of that run, whatever follows it: the one with
    the smaller number comes first. *)
Theorem numbers_compare_by_value (t d1 d2 u1 u2 : string)
    (k1 k2 : list token) (n1 n2 : Z) :
  text_piece t = true ->
  digit_piece d1 = true -> digit_piece d2 = true ->
  starts_nondigit u1 = true -> starts_nondigit u2 = true ->
  natural_sort_key (t +:+ d1 +:+ u1) = Ok k1 ->
  natural_sort_key (t +:+ d2 +:+ u2) = Ok k2 ->
  PyStr.int d1 = Ok n1 -> PyStr.int d2 = Ok n2 ->
  n1 < n2 ->
  natural_lt (t +:+ d1 +:+ u1) (t +:+ d2 +:+ u2) = Ok true
  /\ natural_lt (t +:+ d2 +:+ u2) (t +:+ d1 +:+ u1) = Ok false.
Proof.
  intros Ht Hd1 Hd2 Hu1 Hu2 Hk1 Hk2 Hn1 Hn2 Hlt.
  destruct (key_text_digits t d1 u1 k1 Ht Hd1 Hu1 Hk1)
    as (m1 & r1 & Hm1 & ->).
  destruct (key_text_digits t d2 u2 k2 Ht Hd2 Hu2 Hk2)
    as (m2 & r2 & Hm2 & ->).
  assert (m1 = n1) by congruence. assert (m2 = n2) by congruence. subst.
  unfold natural_lt. rewrite Hk1, Hk2. simpl.
  unfold PyStr.eqb. rewrite String.eqb_refl.
  assert (E12 : (n1 =? n2) = false) by (apply Z.eqb_neq; lia).
  assert (E21 : (n2 =? n1) = false) by (apply Z.eqb_neq; lia).
  rewrite E12, E21. split; f_equal; [apply Z.ltb_lt | apply Z.ltb_ge]; lia.
Qed.

Lemma numbers_compare_by_value_witness :
  natural_lt ("img" +:+ "2" +:+ ".png") ("img" +:+ "10" +:+ "a.png") = Ok true
  /\ natural_lt ("img" +:+ "10" +:+ "a.png") ("img" +:+ "2" +:+ ".png")
     = Ok false.
Proof.
  apply (numbers_compare_by_value "img" "2" "10" ".png" "a.png"
           [Text "img"; Num 2; Text ".png"]
           [Text "img"; Num 10; Text "a.png"] 2 10);
    first [reflexivity | lia].
Defined.

(** *** The key does not see the case of letters *)

Lemma lower_decimal (c : ascii) :
  PyStr.is_decimal (PyStr.chr_lower c) = PyStr.is_decimal c.
Proof. destruct c as [[] [] [] [] [] [] [] []]; reflexivity. Qed.

Lemma lower_chr_isdigit (c : ascii) :
  PyStr.chr_isdigit (PyStr.chr_lower c) = PyStr.chr_isdigit c.
Proof. destruct c as [[] [] [] [] [] [] [] []]; reflexivity. Qed.

Lemma lower_lower_chr (c : ascii) :
  PyStr.chr_lower (PyStr.chr_lower c) = PyStr.chr_lower c.
Proof. destruct c as [[] [] [] [] [] [] [] []]; reflexivity. Qed.

Lemma lower_isdigit_chr (c : ascii) :
  PyStr.chr_isdigit c = true -> PyStr.chr_lower c = c.
Proof.
  destruct c as [[] [] [] [] [] [] [] []]; vm_compute; intros H;
    first [reflexivity | discriminate H].
Qed.

Lemma lower_lower (s : string) : PyStr.lower (PyStr.lower s) = PyStr.lower s.
Proof.
  induction s as [|c s IH]; simpl; [reflexivity|].
  now rewrite lower_lower_chr, IH.
Qed.

Lemma lower_append (s t : string) :
  PyStr.lower (s +:+ t) = PyStr.lower s +:+ PyStr.lower t.
Proof.
  induction s as [|c s IH]; [reflexivity|].
  rewrite append_cons. simpl. rewrite IH. reflexivity.
Qed.

Lemma lower_all_isdigit (s : string) :
  PyStr.all_isdigit (PyStr.lower s) = PyStr.all_isdigit s.
Proof.
  induction s as [|c s IH]; simpl; [reflexivity|].
  now rewrite lower_chr_isdigit, IH.
Qed.

Lemma lower_isdigit (s : string) :
  PyStr.isdigit (PyStr.lower s) = PyStr.isdigit s.
Proof. destruct s as [|c s]; [reflexivity|]. apply (lower_all_isdigit (String c s)). Qed.

Lemma lower_of_digits (s : string) :
  PyStr.all_isdigit s = true -> PyStr.lower s = s.
Proof.
  induction s as [|c s IH]; simpl; [reflexivity|].
  intros H. apply andb_true_iff in H as [Hc Hs].
  now rewrite (lower_isdigit_chr c Hc), (IH Hs).
Qed.

Lemma key_of_text_lower (p : string) :
  key_of_text (PyStr.lower p) = key_of_text p.
Proof.
  unfold key_of_text. rewrite lower_isdigit.
  destruct (PyStr.isdigit p) eqn:Hd.
  - destruct p as [|c p]; [discriminate Hd|].
    now rewrite (lower_of_digits (String c p) Hd).
  - now rewrite lower_lower.
Qed.

Lemma split_aux_lower (s : string) :
  forall (b : bool) (acc : string),
    Re.split_aux b (PyStr.lower acc) (PyStr.lower s)
    = map PyStr.lower (Re.split_aux b acc s).
Proof.
  induction s as [|c s IH]; intros b acc.
  - destruct b; reflexivity.
  - simpl. rewrite lower_decimal.
    assert (Hsnoc : Re.snoc (PyStr.lower acc) (PyStr.chr_lower c)
                    = PyStr.lower (Re.snoc acc c)).
    { unfold Re.snoc. now rewrite lower_append. }
    destruct (PyStr.is_decimal c), b; simpl;
      rewrite ?Hsnoc, <- ?IH; reflexivity.
Qed.

Lemma rmapM_map {A B C} (f : B -> result C) (g : A -> B) (l : list A) :
  rmapM f (map g l) = rmapM (fun x => f (g x)) l.
Proof. induction l as [|x l IH]; simpl; [reflexivity | now rewrite IH]. Qed.

Lemma rmapM_ext {A B} (f g : A -> result B) (l : list A) :
  (forall x, f x = g x) -> rmapM f l = rmapM g l.
Proof.
  intros H. induction l as [|x l IH]; simpl; [reflexivity|].
  now rewrite H, IH.
Qed.

(** X2: the key of a name is the key of the name in lower case: two names
    that differ only by the case of their letters have the same key. *)
Theorem natural_sort_key_ignores_case (s : string) :
  natural_sort_key (PyStr.lower s) = natural_sort_key s.
Proof.
  unfold natural_sort_key, Re.split_digits.
  change "" with (PyStr.lower "") at 1.
  rewrite split_aux_lower, rmapM_map.
  apply rmapM_ext, key_of_text_lower.
Qed.

(** *** When the key exists *)

Lemma digit_piece_not_text (p : string) :
  digit_piece p = true -> text_piece p = false.
Proof.
  unfold digit_piece, text_piece. intros H.
  apply andb_true_iff in H as [Hne Hall].
  destruct p as [|c p]; [discriminate Hne|].
  simpl in Hall. apply andb_true_iff in Hall as [Hc _].
  simpl. now rewrite Hc.
Qed.

Lemma text_piece_not_digit (p : string) :
  text_piece p = true -> digit_piece p = false.
Proof.
  intros Ht. destruct (digit_piece p) eqn:Hd; [|reflexivity].
  apply digit_piece_not_text in Hd. congruence.
Qed.

Lemma key_of_piece (b : bool) (p : string) :
  piece_kind b p = true ->
  if unkeyed_piece p
  then exists msg, key_of_text p = Raise (ValueError msg)
  else exists t, key_of_text p = Ok t.
Proof.
  intros Hp. unfold unkeyed_piece, superscript_piece, long_digit_piece.
  destruct b; simpl in Hp.
  - rewrite Hp, (digit_piece_not_text p Hp), andb_false_r. simpl.
    pose proof (key_of_digit_piece p Hp) as Hk.
    destruct (short_digits p); simpl.
    + destruct Hk as [n ->]. eauto.
    + rewrite Hk. unfold PyStr.digit_limit. eauto.
  - rewrite Hp, (text_piece_not_digit p Hp), andb_true_r, orb_false_r.
    unfold key_of_text. destruct (PyStr.isdigit p) eqn:Hd; [|eauto].
    destruct (int_superscript p Hd Hp) as [e He]. rewrite He.
    destruct (int_value_error p e He) as [msg ->]. simpl. eauto.
Qed.

Lemma rmapM_key_cases (l : list string) :
  forall b : bool,
    pieces_alternate b l = true ->
    if existsb unkeyed_piece l
    then exists msg, rmapM key_of_text l = Raise (ValueError msg)
    else exists k, rmapM key_of_text l = Ok k.
Proof.
  induction l as [|p l IH]; intros b Hl; simpl; [eauto|].
  simpl in Hl. apply andb_true_iff in Hl as [Hp Hl].
  pose proof (key_of_piece b p Hp) as Hk.
  destruct (unkeyed_piece p); simpl.
  - destruct Hk as [msg ->]. simpl. eauto.
  - destruct Hk as [t ->]. simpl.
    specialize (IH (negb b) Hl).
    destruct (existsb unkeyed_piece l).
    + destruct IH as [msg ->]. simpl. eauto.
    + destruct IH as [k ->]. simpl. eauto.
Qed.

(** X3: the key of a name is a list of tokens or a [ValueError], and it is
    the error exactly when [int] refuses one of the pieces that [isdigit]
    accepts: a piece between two runs of decimal digits that is made of
    superscript digits only, or a run of more than 4300 decimal digits. *)
Theorem natural_sort_key_raises_iff (s : string) :
  ((exists k, natural_sort_key s = Ok k)
   \/ (exists msg, natural_sort_key s = Raise (ValueError msg)))
  /\ ((exists e, natural_sort_key s = Raise e)
      <-> existsb unkeyed_piece (Re.split_digits s) = true).
Proof.
  pose proof (rmapM_key_cases _ false (split_digits_alternate s)) as Hc.
  unfold natural_sort_key.
  destruct (existsb unkeyed_piece (Re.split_digits s)).
  - destruct Hc as [msg Hc]. rewrite Hc. split; [right; eauto|].
    split; [reflexivity | eauto].
  - destruct Hc as [k Hc]. rewrite Hc. split; [left; eauto|].
    split; [intros [e He]; discriminate He | discriminate].
Qed.

(** A run of 4301 digits has no key, nor has a name that holds one. *)
Example key_of_long_run :
  existsb unkeyed_piece (Re.split_digits ("a" +:+ nines 4301 +:+ ".png"))
  = true
  /\ natural_sort_key ("a" +:+ nines 4301 +:+ ".png")
     = Raise PyStr.digit_limit
  /\ exists k, natural_sort_key ("a" +:+ nines 4300 +:+ ".png") = Ok k.
Proof.
  split; [vm_compute; reflexivity|]. split; [vm_compute; reflexivity|].
  eexists. vm_compute. reflexivity.
Qed.

(** *** The order of the keys *)

(** X4: on names that have keys, "not greater" by key is a total
    preorder, and a name that is smaller than another is not greater than
    it: the comparisons [list.sort] makes are consistent. *)
Theorem natural_order_total_preorder (a b c : string)
    (ka kb kc : list token) :
  natural_sort_key a = Ok ka ->
  natural_sort_key b = Ok kb ->
  natural_sort_key c = Ok kc ->
  natural_le a a
  /\ (natural_le a b \/ natural_le b a)
  /\ (natural_le a b -> natural_le b c -> natural_le a c)
  /\ (natural_lt a b = Ok true -> natural_lt b a = Ok false).
Proof.
  intros Ha Hb Hc.
  pose proof (natural_sort_key_alternates a ka Ha) as Aa.
  pose proof (natural_sort_key_alternates b kb Hb) as Ab.
  assert (Hasym : natural_lt a b = Ok true -> natural_lt b a = Ok false).
  { unfold natural_lt. rewrite Ha, Hb. simpl. apply key_ltb_true_le. }
  repeat split.
  - apply (natural_le_keys a a ka ka Ha Ha). apply key_ltb_irrefl.
  - destruct (key_ltb_defined kb false ka Ab Aa) as [[] Hr].
    + right. apply (natural_le_keys b a kb ka Hb Ha).
      now apply key_ltb_true_le.
    + left. now apply (natural_le_keys a b ka kb Ha Hb).
  - apply natural_le_trans.
  - exact Hasym.
Qed.

Lemma natural_order_total_preorder_witness :
  natural_le "ch2.pdf" "ch2.pdf"
  /\ (natural_le "ch2.pdf" "ch10.pdf" \/ natural_le "ch10.pdf" "ch2.pdf")
  /\ (natural_le "ch2.pdf" "ch10.pdf" -> natural_le "ch10.pdf" "ch10a.pdf" ->
      natural_le "ch2.pdf" "ch10a.pdf")
  /\ (natural_lt "ch2.pdf" "ch10.pdf" = Ok true ->
      natural_lt "ch10.pdf" "ch2.pdf" = Ok false).
Proof.
  apply (natural_order_total_preorder "ch2.pdf" "ch10.pdf" "ch10a.pdf"
           [Text "ch"; Num 2; Text ".pdf"] [Text "ch"; Num 10; Text ".pdf"]
           [Text "ch"; Num 10; Text "a.pdf"]); reflexivity.
Defined.

(** *** Sorting names *)

(** X5: sorting names that have keys by [natural_sort_key] does not raise
    and gives a rearrangement of the names in which no name is greater
    than a later one. *)
Theorem sort_by_natural_key (l : list string) :
  Forall (fun x => exists k, natural_sort_key x = Ok k) l ->
  exists l', list_sort natural_sort_key l = Ok l'
             /\ l' ≡ₚ l /\ StronglySorted natural_le l'.
Proof.
  intros Hl. destruct (list_sort_natural l Hl) as (l' & Hs & _ & _).
  exists l'. split; [exact Hs|]. now apply list_sort_natural_strong.
Qed.

Lemma sort_by_natural_key_witness :
  exists l', list_sort natural_sort_key ["ch10.pdf"; "Ch2.pdf"; "ch1.pdf"]
             = Ok l'
             /\ l' ≡ₚ ["ch10.pdf"; "Ch2.pdf"; "ch1.pdf"]
             /\ StronglySorted natural_le l'.
Proof.
  apply sort_by_natural_key.
  repeat constructor; eexists; reflexivity.
Defined.

Lemma insert_by_key_head {A} (x : list token * A)
    (l : list (list token * A)) :
  HdRel keyed_le x l -> insert_by_key x l = Ok (x :: l).
Proof.
  destruct l as [|y l]; [reflexivity|].
  intros H. apply HdRel_inv in H. simpl.
  unfold keyed_le, key_le in H. rewrite H. reflexivity.
Qed.

Lemma sort_keyed_sorted {A} (l : list (list token * A)) :
  Sorted keyed_le l -> sort_keyed l = Ok l.
Proof.
  induction l as [|x l IH]; [reflexivity|].
  intros H. apply Sorted_inv in H as [Hs Hhd]. simpl.
  rewrite (IH Hs). simpl. now apply insert_by_key_head.
Qed.

Lemma keyed_sorted (l : list string) (ks : list (list token * string)) :
  rmapM (fun x => k <-? natural_sort_key x; Ok (k, x)) l = Ok ks ->
  Sorted natural_le l -> Sorted keyed_le ks.
Proof.
  intros Hks. destruct (rmapM_keyed l ks Hks) as [Hm Hf]. subst l.
  induction ks as [|p ks IH]; intros Hs; [constructor|].
  apply Forall_cons in Hf as [Hp Hf]. simpl in Hs.
  apply Sorted_inv in Hs as [Hs Hhd].
  constructor.
  - apply IH; [|exact Hf|exact Hs].
    simpl in Hks. rewrite Hp in Hks. simpl in Hks.
    destruct (rmapM _ (map snd ks)) as [ks'|] eqn:E; [|discriminate Hks].
    simpl in Hks. injection Hks as Hks. subst ks'. reflexivity.
  - destruct ks as [|q ks]; constructor.
    apply Forall_cons in Hf as [Hq _]. simpl in Hhd. apply HdRel_inv in Hhd.
    now apply (natural_le_keys _ _ _ _ Hp Hq).
Qed.

(** X6: sorting leaves a sorted list of names as it is; so sorting a
    second time changes nothing. *)
Theorem sort_by_natural_key_idempotent (l l' : list string) :
  list_sort natural_sort_key l = Ok l' ->
  list_sort natural_sort_key l' = Ok l'.
Proof.
  intros H.
  destruct (list_sort_natural_strong l l' H) as [Hperm Hsorted].
  assert (Hkeys : Forall (fun x => exists k, natural_sort_key x = Ok k) l').
  { rewrite Hperm. unfold list_sort in H.
    destruct (rmapM _ l) as [ks|] eqn:Hks; [|discriminate H].
    destruct (rmapM_keyed l ks Hks) as [<- Hf].
    apply Forall_fmap. apply (Forall_impl _ _ _ Hf). simpl. eauto. }
  destruct (rmapM_keyed_total l' Hkeys) as [ks Hks].
  unfold list_sort. rewrite Hks. simpl.
  rewrite (sort_keyed_sorted ks).
  - simpl. f_equal. apply (rmapM_keyed l' ks Hks).
  - apply (keyed_sorted l' ks Hks). now apply StronglySorted_Sorted.
Qed.

Lemma sort_by_natural_key_idempotent_witness :
  list_sort natural_sort_key ["ch1.pdf"; "Ch2.pdf"; "ch10.pdf"]
  = Ok ["ch1.pdf"; "Ch2.pdf"; "ch10.pdf"].
Proof.
  apply (sort_by_natural_key_idempotent ["ch10.pdf"; "Ch2.pdf"; "ch1.pdf"]).
  reflexivity.
Defined.

(** ** More on the archive converter *)

(** X7: when [img2pdf] refuses the images after the output file was
    opened, the converter reports the error and returns [None], and the
    file it had opened for writing is left behind, empty. *)
Theorem cbz_to_pdf_refusal_leaves_empty_file (P : platform)
    (cbz_path output_path : string) (archive : list zip_entry)
    (names datas : list string) (e : exn) (w : world) :
  fs w !! cbz_path = Some (Zip archive) ->
  List.filter Mergepdf.is_image_name (namelist archive) <> [] ->
  list_sort natural_sort_key
            (List.filter Mergepdf.is_image_name (namelist archive))
  = Ok names ->
  rmapM (zip_read archive) names = Ok datas ->
  write_error P output_path = None ->
  img2pdf_convert P datas = Raise e ->
  Mergepdf.cbz_to_pdf P cbz_path output_path w
  = (Ok None,
     add_out (set_file w output_path (Blob ""))
             ["ERROR converting " +:+ cbz_path +:+ ": " +:+ str_of_exn e]).
Proof.
  intros Hfs Hne Hsort Hdatas Hw Hconv.
  unfold Mergepdf.cbz_to_pdf. run_M. rewrite Hfs. run_M.
  destruct (List.filter Mergepdf.is_image_name (namelist archive))
    as [|i0 images]; [easy|].
  rewrite Hsort. run_M. rewrite Hdatas. run_M.
  unfold open_wb. rewrite Hw. run_M. rewrite Hconv. reflexivity.
Qed.

Lemma cbz_to_pdf_refusal_leaves_empty_file_witness :
  Mergepdf.cbz_to_pdf picky_platform "/in/comic.cbz" "/in/comic.pdf"
                      world_folder
  = (Ok None,
     add_out (set_file world_folder "/in/comic.pdf" (Blob ""))
             ["ERROR converting " +:+ "/in/comic.cbz" +:+ ": "
              +:+ str_of_exn (LibraryError "cannot read input image")]).
Proof.
  apply (cbz_to_pdf_refusal_leaves_empty_file picky_platform "/in/comic.cbz"
           "/in/comic.pdf" comic_archive ["a.png"; "b.png"]
           ["bytes of a"; "bytes of b"]); first [reflexivity | discriminate].
Defined.

Lemma cbz_to_pdf_result (P : platform) (cbz_path output_path : string)
    (w : world) :
  exists r w',
    Mergepdf.cbz_to_pdf P cbz_path output_path w = (Ok r, w')
    /\ (r = None \/ r = Some output_path)
    /\ stdin w' = stdin w /\ open_docs w' = open_docs w
    /\ (forall p, p <> output_path -> fs w' !! p = fs w !! p).
Proof.
  assert (Hput : forall (n : node) (p : string),
             p <> output_path ->
             <[output_path := n]> (fs w) !! p = fs w !! p).
  { intros n p Hp. now apply lookup_insert_ne. }
  assert (Hput2 : forall (n m : node) (p : string),
             p <> output_path ->
             <[output_path := n]> (<[output_path := m]> (fs w)) !! p
             = fs w !! p).
  { intros n m p Hp. rewrite lookup_insert_ne by congruence.
    now apply lookup_insert_ne. }
  unfold Mergepdf.cbz_to_pdf. run_M.
  destruct (fs w !! cbz_path) as [[|archive| |]|];
    try (run_M; eexists _, _; split; [reflexivity|];
         cbn [fs stdin open_docs]; auto).
  run_M.
  destruct (List.filter Mergepdf.is_image_name (namelist archive))
    as [|i0 images];
    [run_M; eexists _, _; split; [reflexivity|];
     cbn [fs stdin open_docs]; auto|].
  destruct (list_sort natural_sort_key (i0 :: images)) as [names|];
    [|run_M; eexists _, _; split; [reflexivity|];
      cbn [fs stdin open_docs]; auto].
  run_M. destruct (rmapM (zip_read archive) names) as [datas|];
    [|run_M; eexists _, _; split; [reflexivity|];
      cbn [fs stdin open_docs]; auto].
  unfold open_wb. destruct (write_error P output_path);
    [run_M; eexists _, _; split; [reflexivity|];
     cbn [fs stdin open_docs]; auto|].
  run_M. destruct (img2pdf_convert P datas) as [pages|];
    run_M; eexists _, _; (split; [reflexivity|]);
    cbn [fs stdin open_docs]; auto.
Qed.

(** X8: the converter never raises: it returns [None] or the output path
    it was given. It reads no input, leaves no document open and changes
    no file but the one at the output path. *)
Theorem cbz_to_pdf_returns (P : platform) (cbz_path output_path : string)
    (w : world) :
  exists r w',
    Mergepdf.cbz_to_pdf P cbz_path output_path w = (Ok r, w')
    /\ (r = None \/ r = Some output_path)
    /\ stdin w' = stdin w /\ open_docs w' = open_docs w
    /\ (forall p, p <> output_path -> fs w' !! p = fs w !! p).
Proof. apply cbz_to_pdf_result. Qed.

(** ** Suffixes and file discovery *)

Lemma rev_app_append (s acc : string) :
  String.rev_app s acc = String.rev s +:+ acc.
Proof.
  unfold String.rev. revert acc.
  induction s as [|c s IH]; intros acc; simpl; [reflexivity|].
  rewrite IH, (IH (String c "")), append_assoc. reflexivity.
Qed.

Lemma rev_append (s t : string) :
  String.rev (s +:+ t) = String.rev t +:+ String.rev s.
Proof.
  induction s as [|c s IH].
  - rewrite append_empty_l. symmetry. apply append_empty_r.
  - rewrite append_cons. unfold String.rev at 1 3. simpl.
    rewrite !rev_app_append, IH, append_assoc. reflexivity.
Qed.

Lemma startswith_append (s t p : string) :
  PyStr.startswith s p = true -> PyStr.startswith (s +:+ t) p = true.
Proof.
  revert s. induction p as [|a p IH]; intros s;
    [intros _; destruct (s +:+ t); reflexivity|].
  destruct s as [|b s]; [discriminate|]. rewrite append_cons. simpl.
  intros H. apply andb_true_iff in H as [Hab Hs].
  now rewrite Hab, (IH s Hs).
Qed.

Lemma endswith_append (s t suffix : string) :
  PyStr.endswith t suffix = true -> PyStr.endswith (s +:+ t) suffix = true.
Proof.
  unfold PyStr.endswith. rewrite rev_append. apply startswith_append.
Qed.

Lemma endswith_refl (s : string) : PyStr.endswith s s = true.
Proof.
  unfold PyStr.endswith. induction (String.rev s) as [|c r IH];
    simpl; [reflexivity|].
  now rewrite Ascii.eqb_refl.
Qed.

Lemma endswith_any_append (s t : string) (suffixes : list string) :
  PyStr.endswith_any t suffixes = true ->
  PyStr.endswith_any (s +:+ t) suffixes = true.
Proof.
  unfold PyStr.endswith_any. rewrite !existsb_exists.
  intros (x & Hx & He). exists x. split; [exact Hx|].
  now apply endswith_append.
Qed.

(** [os.path.join] keeps its second argument at the end. *)
Lemma join_suffix (a b : string) : exists pre, OsPath.join a b = pre +:+ b.
Proof.
  unfold OsPath.join. destruct (PyStr.startswith b "/").
  - exists "". reflexivity.
  - destruct (PyStr.eqb a "" || PyStr.endswith a "/").
    + exists a. reflexivity.
    + exists (a +:+ "/"). now rewrite append_assoc.
Qed.

Lemma pdf_and_cbz_suffix (s : string) :
  PyStr.endswith s ".pdf" = true -> PyStr.endswith s ".cbz" = true -> False.
Proof.
  unfold PyStr.endswith.
  change (String.rev ".pdf") with "fdp.". change (String.rev ".cbz") with "zbc.".
  destruct (String.rev s) as [|c r]; [discriminate|].
  cbn [PyStr.startswith]. intros Hf Hz.
  apply andb_true_iff in Hf as [Hf _]. apply andb_true_iff in Hz as [Hz _].
  apply Ascii.eqb_eq in Hf, Hz. congruence.
Qed.

(** X9: every path [find_files_recursively] returns is a file name the
    walk listed, joined to its folder, and it ends with one of the
    extensions asked for, whatever the case of its letters; so the lists
    found for ".pdf" and for ".cbz" have no path in common. *)
Theorem found_files_have_extension (P : platform) (folder_path : string)
    (extensions : list string) (path : string) :
  In path (Mergepdf.find_files_recursively P folder_path extensions) ->
  PyStr.endswith_any (PyStr.lower path) extensions = true
  /\ (exists root files f,
        In (root, files) (walk P folder_path) /\ In f files
        /\ path = OsPath.join root f)
  /\ (In path (Mergepdf.find_files_recursively P folder_path [".pdf"]) ->
      In path (Mergepdf.find_files_recursively P folder_path [".cbz"]) ->
      False).
Proof.
  assert (Hfound : forall exts p,
             In p (Mergepdf.find_files_recursively P folder_path exts) ->
             PyStr.endswith_any (PyStr.lower p) exts = true
             /\ exists root files f,
                  In (root, files) (walk P folder_path) /\ In f files
                  /\ p = OsPath.join root f).
  { intros exts p. unfold Mergepdf.find_files_recursively.
    rewrite in_flat_map. intros ([root files] & Hw & Hp).
    apply in_map_iff in Hp as (f & <- & Hf).
    apply filter_In in Hf as [Hf Hext]. split.
    - destruct (join_suffix root f) as [pre ->].
      rewrite lower_append. now apply endswith_any_append.
    - eauto 10. }
  intros Hin. destruct (Hfound extensions path Hin) as [Hext Hsrc].
  split; [exact Hext|]. split; [exact Hsrc|].
  intros Hpdf Hcbz.
  apply Hfound in Hpdf as [Hpdf _]. apply Hfound in Hcbz as [Hcbz _].
  cbn [PyStr.endswith_any existsb] in Hpdf, Hcbz.
  rewrite orb_false_r in Hpdf, Hcbz.
  exact (pdf_and_cbz_suffix _ Hpdf Hcbz).
Qed.

Lemma found_files_have_extension_witness :
  PyStr.endswith_any (PyStr.lower "/in/old/scan.PDF") [".pdf"] = true
  /\ (exists root files f,
        In (root, files) (walk picky_platform "/in") /\ In f files
        /\ "/in/old/scan.PDF" = OsPath.join root f)
  /\ (In "/in/old/scan.PDF"
         (Mergepdf.find_files_recursively picky_platform "/in" [".pdf"]) ->
      In "/in/old/scan.PDF"
         (Mergepdf.find_files_recursively picky_platform "/in" [".cbz"]) ->
      False).
Proof.
  apply (found_files_have_extension picky_platform "/in" [".pdf"]
           "/in/old/scan.PDF").
  vm_compute. right. left. reflexivity.
Defined.

(** X10: the path [main] gives the converter for an archive ends with
    ".pdf" and is never the path of the archive, whose name ends with
    ".cbz" in some case: a conversion cannot overwrite its source. *)
Theorem converted_path_is_not_the_archive (cbz : string) :
  PyStr.endswith (PyStr.lower cbz) ".cbz" = true ->
  let pdf_out := fst (OsPath.splitext cbz) +:+ ".pdf" in
  PyStr.endswith (PyStr.lower pdf_out) ".pdf" = true /\ pdf_out <> cbz.
Proof.
  intros Hcbz pdf_out.
  assert (Hpdf : PyStr.endswith (PyStr.lower pdf_out) ".pdf" = true).
  { unfold pdf_out. rewrite lower_append. apply endswith_append.
    reflexivity. }
  split; [exact Hpdf|]. intros E. rewrite E in Hpdf.
  exact (pdf_and_cbz_suffix _ Hpdf Hcbz).
Qed.

Lemma converted_path_is_not_the_archive_witness :
  PyStr.endswith (PyStr.lower (fst (OsPath.splitext "/in/Vol.1/Comic.CBZ")
                               +:+ ".pdf")) ".pdf" = true
  /\ fst (OsPath.splitext "/in/Vol.1/Comic.CBZ") +:+ ".pdf"
     <> "/in/Vol.1/Comic.CBZ".
Proof.
  apply (converted_path_is_not_the_archive "/in/Vol.1/Comic.CBZ").
  reflexivity.
Defined.

(** X11: the loop of [main] over the archives never raises and only adds
    to the list of documents: what it had stays in front, in order, and
    each path added is the output path of one of the archives. *)
Theorem convert_all_appends (P : platform) (cbz_files : list string) :
  forall (pdf_files : list string) (w : world),
  exists added w',
    Mergepdf.convert_all P cbz_files pdf_files w
    = (Ok (pdf_files ++ added), w')
    /\ Forall (fun p => exists cbz, In cbz cbz_files
                        /\ p = fst (OsPath.splitext cbz) +:+ ".pdf") added
    /\ (length added <= length cbz_files)%nat
    /\ stdin w' = stdin w.
Proof.
  induction cbz_files as [|cbz rest IH]; intros pdf_files w.
  - exists [], w. simpl. unfold ret. rewrite app_nil_r.
    repeat split; [constructor | lia].
  - cbn [Mergepdf.convert_all]. unfold bind at 1.
    destruct (cbz_to_pdf_result P cbz
                (fst (OsPath.splitext cbz) +:+ ".pdf") w)
      as (r & w1 & -> & Hr & Hin1 & _).
    assert (Hweak : forall added,
               Forall (fun p => exists c, In c rest
                           /\ p = fst (OsPath.splitext c) +:+ ".pdf") added ->
               Forall (fun p => exists c, In c (cbz :: rest)
                           /\ p = fst (OsPath.splitext c) +:+ ".pdf") added).
    { intros added H. apply (Forall_impl _ _ _ H).
      intros p (c & Hc & ->). exists c. split; [now right | reflexivity]. }
    destruct Hr as [-> | ->].
    + destruct (IH pdf_files w1) as (added & w' & -> & HF & Hlen & Hin).
      exists added, w'. repeat split; [now apply Hweak | simpl; lia | congruence].
    + unfold Mergepdf.truthy.
      destruct (negb (PyStr.eqb (fst (OsPath.splitext cbz) +:+ ".pdf") "")).
      * destruct (IH (pdf_files ++ [fst (OsPath.splitext cbz) +:+ ".pdf"]) w1)
          as (added & w' & -> & HF & Hlen & Hin).
        exists ((fst (OsPath.splitext cbz) +:+ ".pdf") :: added), w'.
        rewrite <- app_assoc. repeat split.
        -- constructor; [|now apply Hweak].
           exists cbz. split; [now left | reflexivity].
        -- simpl. lia.
        -- congruence.
      * destruct (IH pdf_files w1) as (added & w' & -> & HF & Hlen & Hin).
        exists added, w'.
        repeat split; [now apply Hweak | simpl; lia | congruence].
Qed.

(** ** More on the merge *)

Lemma merge_one_cases (out : list page) (p : string) (w : world) :
  exists w',
    Mergepdf.merge_one out p w = (Ok (out ++ mergeable_pages (fs w) p), w')
    /\ fs w' = fs w /\ stdin w' = stdin w
    /\ length (stdout w')
       = (length (stdout w)
          + if is_mergeable (fs w) p then 0 else 1)%nat.
Proof.
  unfold mergeable_pages, is_mergeable.
  destruct (fs w !! p) as [[| |d|]|] eqn:Hp.
  1,2,4,5: destruct (merge_one_open_error out p w) as [msg ->];
    [intros d; rewrite Hp; discriminate|];
    eexists; rewrite app_nil_r; split; [reflexivity|];
    cbn [add_out fs stdin stdout]; rewrite length_app; simpl; auto.
  destruct (doc_insert_error d) as [msg|] eqn:Hd.
  - rewrite (merge_one_insert_error out p d msg w Hp Hd).
    eexists. rewrite app_nil_r. split; [reflexivity|].
    cbn [add_out set_docs fs stdin stdout]. rewrite length_app. simpl. auto.
  - rewrite (merge_one_readable out p d w Hp Hd).
    eexists. split; [reflexivity|].
    cbn [set_docs fs stdin stdout]. repeat split. lia.
Qed.

Lemma merge_loop_cases (pdf_files : list string) :
  forall (out : list page) (w : world),
  exists w',
    Mergepdf.merge_loop out pdf_files w
    = (Ok (out ++ flat_map (mergeable_pages (fs w)) pdf_files), w')
    /\ fs w' = fs w /\ stdin w' = stdin w
    /\ length (stdout w')
       = (length (stdout w)
          + length (List.filter (fun p => negb (is_mergeable (fs w) p))
                                pdf_files))%nat.
Proof.
  induction pdf_files as [|p rest IH]; intros out w.
  - exists w. simpl. unfold ret. rewrite app_nil_r. repeat split. lia.
  - cbn [Mergepdf.merge_loop]. unfold bind at 1.
    destruct (merge_one_cases out p w) as (w1 & -> & Hfs & Hin & Hout).
    destruct (IH (out ++ mergeable_pages (fs w) p) w1)
      as (w' & -> & Hfs' & Hin' & Hout').
    exists w'. rewrite Hfs in *. simpl flat_map. rewrite app_assoc.
    split; [reflexivity|]. split; [congruence|]. split; [congruence|].
    rewrite Hout', Hout. simpl.
    destruct (is_mergeable (fs w) p); simpl; lia.
Qed.

(** X12: the merge saves the pages of the inputs that open and that
    [insert_pdf] accepts, in the order of the list, and nothing for the
    others; it prints one warning for each input it skips and changes no
    other file. *)
Theorem merge_saves_what_merges (P : platform) (pdf_files : list string)
    (output_path : string) (w : world) :
  flat_map (mergeable_pages (fs w)) pdf_files <> [] ->
  write_error P output_path = None ->
  exists w',
    Mergepdf.merge_pdfs_high_quality P pdf_files output_path w = (Ok tt, w')
    /\ fs w'
       = <[output_path :=
             Pdf (Document (flat_map (mergeable_pages (fs w)) pdf_files)
                           None)]> (fs w)
    /\ length (stdout w')
       = (length (stdout w)
          + length (List.filter (fun p => negb (is_mergeable (fs w) p))
                                pdf_files))%nat.
Proof.
  intros Hne Hw.
  unfold Mergepdf.merge_pdfs_high_quality, fitz_new.
  unfold bind at 1. unfold alloc_doc at 1. unfold bind at 1.
  destruct (merge_loop_cases pdf_files []
              (World (fs w) (stdin w) (stdout w)
                     ({[next_doc w]} ∪ open_docs w) (S (next_doc w))))
    as (w1 & Hloop & Hfs & _ & Hout).
  rewrite Hloop. cbn [fs stdout] in Hfs, Hout. simpl app.
  unfold fitz_save.
  destruct (flat_map (mergeable_pages (fs w)) pdf_files) as [|pg pgs];
    [easy|].
  rewrite Hw. run_M. eexists. split; [reflexivity|].
  cbn [fs stdout]. rewrite Hfs. split; [reflexivity | exact Hout].
Qed.

Lemma merge_saves_what_merges_witness :
  exists w',
    Mergepdf.merge_pdfs_high_quality folder_platform
      ["/in/broken.pdf"; "/in/part1.pdf"; "/in/locked.pdf"; "/in/missing.pdf";
       "/in/part2.pdf"] "/in/out.pdf" world_folder = (Ok tt, w')
    /\ fs w'
       = <["/in/out.pdf" :=
             Pdf (Document (flat_map (mergeable_pages (fs world_folder))
                    ["/in/broken.pdf"; "/in/part1.pdf"; "/in/locked.pdf";
                     "/in/missing.pdf"; "/in/part2.pdf"]) None)]>
           (fs world_folder)
    /\ length (stdout w')
       = (length (stdout world_folder)
          + length (List.filter
                      (fun p => negb (is_mergeable (fs world_folder) p))
                      ["/in/broken.pdf"; "/in/part1.pdf"; "/in/locked.pdf";
                       "/in/missing.pdf"; "/in/part2.pdf"]))%nat.
Proof.
  apply (merge_saves_what_merges folder_platform
           ["/in/broken.pdf"; "/in/part1.pdf"; "/in/locked.pdf";
            "/in/missing.pdf"; "/in/part2.pdf"] "/in/out.pdf" world_folder).
  - vm_compute. discriminate.
  - reflexivity.
Defined.

Example merge_skips_three_of_five :
  flat_map (mergeable_pages (fs world_folder))
    ["/in/broken.pdf"; "/in/part1.pdf"; "/in/locked.pdf"; "/in/missing.pdf";
     "/in/part2.pdf"]
  = [blank_page "p1"; blank_page "p2"; blank_page "q1"]
  /\ List.filter (fun p => negb (is_mergeable (fs world_folder) p))
       ["/in/broken.pdf"; "/in/part1.pdf"; "/in/locked.pdf";
        "/in/missing.pdf"; "/in/part2.pdf"]
     = ["/in/broken.pdf"; "/in/locked.pdf"; "/in/missing.pdf"].
Proof. split; vm_compute; reflexivity. Qed.

(** *** Handles when no input is refused *)

Lemma fresh_alloc (w : world) :
  fresh w ->
  fresh (World (fs w) (stdin w) (stdout w)
               ({[next_doc w]} ∪ open_docs w) (S (next_doc w))).
Proof.
  intros H h. cbn [open_docs next_doc].
  rewrite elem_of_union, elem_of_singleton.
  intros [-> | Hh]; [lia | apply H in Hh; lia].
Qed.

Lemma merge_one_no_leak (out : list page) (p : string) (w : world) :
  fresh w -> is_refused (fs w) p = false ->
  exists out' w',
    Mergepdf.merge_one out p w = (Ok out', w')
    /\ open_docs w' = open_docs w /\ fresh w' /\ fs w' = fs w.
Proof.
  intros Hf Hr. unfold is_refused in Hr.
  destruct (fs w !! p) as [[| |d|]|] eqn:Hp.
  1,2,4,5: destruct (merge_one_open_error out p w) as [msg ->];
    [intros d; rewrite Hp; discriminate|];
    eexists _, _; split; [reflexivity|]; cbn [add_out open_docs fs];
    repeat split; exact Hf.
  destruct (doc_insert_error d) eqn:Hd; [discriminate Hr|].
  rewrite (merge_one_readable out p d w Hp Hd).
  rewrite (alloc_release _ _ (fresh_next w Hf)).
  eexists _, _. split; [reflexivity|]. cbn [set_docs open_docs fs].
  repeat split. intros h Hh. unfold set_docs in *.
  cbn [open_docs next_doc] in *. apply Hf in Hh. lia.
Qed.

Lemma merge_loop_no_leak (pdf_files : list string) :
  forall (out : list page) (w : world),
    fresh w ->
    Forall (fun p => is_refused (fs w) p = false) pdf_files ->
    exists out' w',
      Mergepdf.merge_loop out pdf_files w = (Ok out', w')
      /\ open_docs w' = open_docs w /\ fresh w' /\ fs w' = fs w.
Proof.
  induction pdf_files as [|p rest IH]; intros out w Hf Hall.
  - exists out, w. repeat split. exact Hf.
  - apply Forall_cons in Hall as [Hp Hrest].
    cbn [Mergepdf.merge_loop]. unfold bind at 1.
    destruct (merge_one_no_leak out p w Hf Hp)
      as (out1 & w1 & -> & Hopen & Hf1 & Hfs).
    destruct (IH out1 w1 Hf1) as (out' & w' & -> & Hopen' & Hf' & Hfs').
    { now rewrite Hfs. }
    exists out', w'. repeat split; first [assumption | congruence].
Qed.

(** X13: when no input is a document that opens and is refused by
    [insert_pdf], a merge that returns has closed every document it
    opened: the open documents are those that were open before. *)
Theorem merge_closes_what_it_opens (P : platform) (pdf_files : list string)
    (output_path : string) (w w' : world) :
  fresh w ->
  Forall (fun p => is_refused (fs w) p = false) pdf_files ->
  Mergepdf.merge_pdfs_high_quality P pdf_files output_path w = (Ok tt, w') ->
  open_docs w' = open_docs w.
Proof.
  intros Hf Hall.
  unfold Mergepdf.merge_pdfs_high_quality, fitz_new.
  unfold bind at 1. unfold alloc_doc at 1. unfold bind at 1.
  destruct (merge_loop_no_leak pdf_files []
              (World (fs w) (stdin w) (stdout w)
                     ({[next_doc w]} ∪ open_docs w) (S (next_doc w)))
              (fresh_alloc w Hf) Hall)
    as (out & w1 & -> & Hopen & _ & _).
  cbn [open_docs] in Hopen.
  unfold fitz_save. destruct out as [|pg pgs]; [run_M; discriminate|].
  destruct (write_error P output_path); [run_M; discriminate|].
  run_M. intros [= <-]. cbn [open_docs]. rewrite Hopen.
  apply alloc_release, fresh_next, Hf.
Qed.

Lemma merge_closes_what_it_opens_witness :
  open_docs (snd (Mergepdf.merge_pdfs_high_quality folder_platform
                    ["/in/broken.pdf"; "/in/part1.pdf"; "/in/part2.pdf"]
                    "/in/out.pdf" world_folder))
  = open_docs world_folder.
Proof.
  apply (merge_closes_what_it_opens folder_platform
           ["/in/broken.pdf"; "/in/part1.pdf"; "/in/part2.pdf"]
           "/in/out.pdf" world_folder).
  - intros h Hh. exfalso. exact (not_elem_of_empty (C:=gset nat) h Hh).
  - repeat constructor.
  - vm_compute. reflexivity.
Defined.

(** ** The prompts *)

Lemma get_valid_folder_path_loop_spec (bad : list string) :
  forall (good : string) (rest : list string) (w : world) (n : nat),
    stdin w = bad ++ good :: rest ->
    (length (stdin w) < n)%nat ->
    Forall (fun l => is_dir (fs w) (Mergepdf.clean_path l) = false) bad ->
    is_dir (fs w) (Mergepdf.clean_path good) = true ->
    Mergepdf.get_valid_folder_path_loop n w
    = (Ok (Mergepdf.clean_path good),
       World (fs w) rest
             (stdout w
              ++ map (fun _ =>
                   "ERROR: Folder does not exist. Please enter a valid path.")
                   bad)
             (open_docs w) (next_doc w)).
Proof.
  induction bad as [|b bad IH]; intros good rest w n Hin Hn Hbad Hgood;
    (destruct n as [|n]; [lia|]);
    cbn [Mergepdf.get_valid_folder_path_loop]; run_M;
    rewrite Hin; cbn [app]; run_M; unfold is_dir in *.
  - destruct (fs w !! Mergepdf.clean_path good) as [[| | |]|];
      try discriminate Hgood.
    simpl. rewrite app_nil_r. reflexivity.
  - apply Forall_cons in Hbad as [Hb Hbad].
    rewrite Hin in Hn. simpl in Hn.
    destruct (fs w !! Mergepdf.clean_path b) as [[| | |]|];
      try discriminate Hb; run_M;
      (rewrite (IH good rest
                  (World (fs w) (bad ++ good :: rest)
                     (stdout w
                      ++ ["ERROR: Folder does not exist. Please enter a valid path."])
                     (open_docs w) (next_doc w)) n);
       [ cbn [fs stdin stdout open_docs next_doc map];
         rewrite <- app_assoc; reflexivity
       | reflexivity | simpl; lia | exact Hbad | exact Hgood ]).
Qed.

(** X14: [get_valid_folder_path] goes through the lines the user types
    until one names a directory; it returns that line, cleaned of spaces,
    quotes and a file:// prefix, and prints one error for each line it
    turned down. Nothing else changes. *)
Theorem get_valid_folder_path_spec (bad : list string) (good : string)
    (rest : list string) (w : world) :
  stdin w = bad ++ good :: rest ->
  Forall (fun l => is_dir (fs w) (Mergepdf.clean_path l) = false) bad ->
  is_dir (fs w) (Mergepdf.clean_path good) = true ->
  Mergepdf.get_valid_folder_path w
  = (Ok (Mergepdf.clean_path good),
     World (fs w) rest
           (stdout w
            ++ map (fun _ =>
                 "ERROR: Folder does not exist. Please enter a valid path.")
                 bad)
           (open_docs w) (next_doc w)).
Proof.
  intros Hin Hbad Hgood. unfold Mergepdf.get_valid_folder_path.
  apply get_valid_folder_path_loop_spec;
    [exact Hin | lia | exact Hbad | exact Hgood].
Qed.

Lemma get_valid_folder_path_spec_witness :
  Mergepdf.get_valid_folder_path
    (with_stdin world_folder
       ["/nowhere"; "/in/part1.pdf"; "  '/in'  "; "out"])
  = (Ok "/in",
     World (fs world_folder) ["out"]
           (stdout world_folder
            ++ map (fun _ =>
                 "ERROR: Folder does not exist. Please enter a valid path.")
                 ["/nowhere"; "/in/part1.pdf"])
           (open_docs world_folder) (next_doc world_folder)).
Proof.
  apply (get_valid_folder_path_spec ["/nowhere"; "/in/part1.pdf"]
           "  '/in'  " ["out"]
           (with_stdin world_folder
              ["/nowhere"; "/in/part1.pdf"; "  '/in'  "; "out"])).
  - reflexivity.
  - repeat constructor.
  - reflexivity.
Defined.

(** X15: the path [get_valid_path] returns exists and its name ends with
    ".pdf" in some case; the loop changes no file and opens no document. *)
Theorem get_valid_path_returns_pdf (w w' : world) (path : string) :
  Resizepdf.get_valid_path w = (Ok path, w') ->
  is_Some (fs w !! path)
  /\ PyStr.endswith (PyStr.lower path) ".pdf" = true
  /\ fs w' = fs w /\ open_docs w' = open_docs w.
Proof.
  unfold Resizepdf.get_valid_path.
  generalize (S (length (stdin w))). intros n. revert w.
  induction n as [|n IH]; intros w; [discriminate|].
  cbn [Resizepdf.get_valid_path_loop]. run_M.
  destruct (stdin w) as [|line rest]; [discriminate|]. run_M.
  destruct (bool_decide (is_Some (fs w !! Resizepdf.clean_path line)))
    eqn:Hex; run_M.
  - destruct (PyStr.endswith (PyStr.lower (Resizepdf.clean_path line)) ".pdf")
      eqn:Hpdf; run_M.
    + intros [= <- <-]. apply bool_decide_eq_true_1 in Hex.
      repeat split; assumption.
    + intros H. apply IH in H. exact H.
  - intros H. apply IH in H. exact H.
Qed.

Lemma get_valid_path_returns_pdf_witness :
  let w := with_stdin world_folder
             ["/in"; "/in/Part9.pdf"; "'/in/part1.pdf'"] in
  is_Some (fs w !! "/in/part1.pdf")
  /\ PyStr.endswith (PyStr.lower "/in/part1.pdf") ".pdf" = true
  /\ fs (snd (Resizepdf.get_valid_path w)) = fs w
  /\ open_docs (snd (Resizepdf.get_valid_path w)) = open_docs w.
Proof.
  apply (get_valid_path_returns_pdf
           (with_stdin world_folder
              ["/in"; "/in/Part9.pdf"; "'/in/part1.pdf'"])).
  vm_compute. reflexivity.
Defined.

Lemma get_valid_dimension_round_line (line : string) (rest : list string)
    (w : world) :
  stdin w = line :: rest ->
  exists w1,
    Resizepdf.get_valid_dimension_round w = (Ok (dimension_of_line line), w1)
    /\ stdin w1 = rest /\ fs w1 = fs w /\ open_docs w1 = open_docs w
    /\ length (stdout w1)
       = (length (stdout w)
          + match dimension_of_line line with Some _ => 0 | None => 1 end)%nat.
Proof.
  intros Hin. unfold Resizepdf.get_valid_dimension_round, dimension_of_line.
  run_M. rewrite Hin. run_M.
  destruct (PyStr.int (PyStr.strip line)) as [value|e] eqn:Hint; run_M.
  - destruct (0 <? value); run_M; eexists; (split; [reflexivity|]);
      cbn [fs stdin stdout open_docs]; rewrite ?length_app; simpl;
      repeat split; lia.
  - destruct (int_value_error _ _ Hint) as [msg ->]. run_M.
    eexists. split; [reflexivity|].
    cbn [fs stdin stdout open_docs]. rewrite length_app. simpl.
    repeat split.
Qed.

Lemma get_valid_dimension_loop_spec (bad : list string) :
  forall (good : string) (rest : list string) (value : Z) (w : world)
         (n : nat),
    stdin w = bad ++ good :: rest ->
    (length (stdin w) < n)%nat ->
    Forall (fun l => dimension_of_line l = None) bad ->
    dimension_of_line good = Some value ->
    exists w',
      Resizepdf.get_valid_dimension_loop n w = (Ok value, w')
      /\ stdin w' = rest /\ fs w' = fs w /\ open_docs w' = open_docs w
      /\ length (stdout w') = (length (stdout w) + length bad)%nat.
Proof.
  induction bad as [|b bad IH]; intros good rest value w n Hin Hn Hbad Hgood;
    (destruct n as [|n]; [lia|]);
    cbn [Resizepdf.get_valid_dimension_loop]; unfold bind at 1.
  - destruct (get_valid_dimension_round_line good rest w Hin)
      as (w1 & -> & H1 & H2 & H3 & H4).
    rewrite Hgood in *. exists w1. unfold ret. simpl in H4.
    repeat split; first [assumption | lia].
  - apply Forall_cons in Hbad as [Hb Hbad].
    destruct (get_valid_dimension_round_line b (bad ++ good :: rest) w Hin)
      as (w1 & -> & H1 & H2 & H3 & H4).
    rewrite Hb in *.
    destruct (IH good rest value w1 n H1) as (w' & -> & H1' & H2' & H3' & H4');
      [rewrite H1; rewrite Hin in Hn; simpl in Hn; lia | exact Hbad
      | exact Hgood |].
    exists w'. repeat split; [exact H1' | congruence | congruence |].
    rewrite H4', H4. simpl. lia.
Qed.

(** X16: [get_valid_dimension] goes through the lines typed until one
    reads as a positive integer, which it returns; it prints one error for
    each line it turned down and changes no file. *)
Theorem get_valid_dimension_spec (bad : list string) (good : string)
    (rest : list string) (value : Z) (w : world) :
  stdin w = bad ++ good :: rest ->
  Forall (fun l => dimension_of_line l = None) bad ->
  dimension_of_line good = Some value ->
  0 < value
  /\ exists w',
       Resizepdf.get_valid_dimension w = (Ok value, w')
       /\ stdin w' = rest /\ fs w' = fs w /\ open_docs w' = open_docs w
       /\ length (stdout w') = (length (stdout w) + length bad)%nat.
Proof.
  intros Hin Hbad Hgood. split.
  - unfold dimension_of_line in Hgood.
    destruct (PyStr.int (PyStr.strip good)) as [v|]; [|discriminate Hgood].
    destruct (0 <? v) eqn:Hv; [|discriminate Hgood].
    injection Hgood as <-. now apply Z.ltb_lt in Hv.
  - unfold Resizepdf.get_valid_dimension.
    apply (get_valid_dimension_loop_spec bad good rest value w);
      [exact Hin | lia | exact Hbad | exact Hgood].
Qed.

Lemma get_valid_dimension_spec_witness :
  0 < 300
  /\ exists w',
       Resizepdf.get_valid_dimension
         (with_stdin world_folder ["abc"; "-5"; "0"; "1.5"; " 3_00 "; "7"])
       = (Ok 300, w')
       /\ stdin w' = ["7"] /\ fs w' = fs world_folder
       /\ open_docs w' = open_docs world_folder
       /\ length (stdout w')
          = (length (stdout world_folder)
             + length ["abc"; "-5"; "0"; "1.5"])%nat.
Proof.
  apply (get_valid_dimension_spec ["abc"; "-5"; "0"; "1.5"] " 3_00 " ["7"] 300
           (with_stdin world_folder
              ["abc"; "-5"; "0"; "1.5"; " 3_00 "; "7"])).
  - reflexivity.
  - repeat constructor.
  - reflexivity.
Defined.

(** X17: [get_output_name] reads one line and nothing else changes. The
    name it returns is the default of the tool ("merged_output.pdf",
    "resized_output.pdf") when the line is blank; else it is the line
    without the spaces around it, as it is when that ends with ".pdf" in
    some case, and with ".pdf" added when it does not. So the name always
    ends with ".pdf" in some case. *)
Theorem get_output_name_ends_with_pdf (w w' : world) (name : string) :
  Mergepdf.get_output_name w = (Ok name, w')
  \/ Resizepdf.get_output_name w = (Ok name, w') ->
  PyStr.endswith (PyStr.lower name) ".pdf" = true
  /\ exists line rest,
       stdin w = line :: rest /\ w' = with_stdin w rest
       /\ (if PyStr.eqb (PyStr.strip line) ""
           then (Mergepdf.get_output_name w = (Ok name, w') ->
                 name = "merged_output.pdf")
                /\ (Resizepdf.get_output_name w = (Ok name, w') ->
                    name = "resized_output.pdf")
           else if PyStr.endswith (PyStr.lower (PyStr.strip line)) ".pdf"
           then name = PyStr.strip line
           else name = PyStr.strip line +:+ ".pdf").
Proof.
  unfold Mergepdf.get_output_name, Resizepdf.get_output_name. run_M.
  destruct (stdin w) as [|line rest] eqn:Hin; [intros [H|H]; discriminate H|].
  unfold with_stdin.
  destruct (PyStr.eqb (PyStr.strip line) "") eqn:Hblank; run_M.
  - intros H.
    assert (Hw : w' = World (fs w) rest (stdout w) (open_docs w) (next_doc w))
      by (destruct H as [H|H]; now injection H).
    split; [destruct H as [H|H]; injection H as <- _; reflexivity|].
    exists line, rest. split; [reflexivity|]. split; [exact Hw|].
    rewrite Hblank. split; intros [= <- _]; reflexivity.
  - destruct (PyStr.endswith (PyStr.lower (PyStr.strip line)) ".pdf")
      eqn:Hpdf; cbn [negb]; run_M.
    + intros [H|H]; injection H as <- <-; (split; [exact Hpdf|]);
        exists line, rest; rewrite Hblank, Hpdf; repeat split.
    + intros [H|H]; injection H as <- <-;
        (split; [rewrite lower_append; apply endswith_append; reflexivity|]);
        exists line, rest; rewrite Hblank, Hpdf; repeat split.
Qed.

Lemma get_output_name_ends_with_pdf_witness :
  let w := with_stdin world_folder ["  Book One "; "x"] in
  PyStr.endswith (PyStr.lower "Book One.pdf") ".pdf" = true
  /\ exists line rest,
       stdin w = line :: rest
       /\ snd (Mergepdf.get_output_name w) = with_stdin w rest
       /\ (if PyStr.eqb (PyStr.strip line) ""
           then (Mergepdf.get_output_name w
                 = (Ok "Book One.pdf", snd (Mergepdf.get_output_name w)) ->
                 "Book One.pdf" = "merged_output.pdf")
                /\ (Resizepdf.get_output_name w
                    = (Ok "Book One.pdf", snd (Mergepdf.get_output_name w)) ->
                    "Book One.pdf" = "resized_output.pdf")
           else if PyStr.endswith (PyStr.lower (PyStr.strip line)) ".pdf"
           then "Book One.pdf" = PyStr.strip line
           else "Book One.pdf" = PyStr.strip line +:+ ".pdf").
Proof.
  apply (get_output_name_ends_with_pdf
           (with_stdin world_folder ["  Book One "; "x"])).
  left. vm_compute. reflexivity.
Defined.

(** The three cases of the output name, in both tools. *)
Example output_names :
  fst (Mergepdf.get_output_name (with_stdin world_folder ["   "])) 
  = Ok "merged_output.pdf"
  /\ fst (Resizepdf.get_output_name (with_stdin world_folder [""]))
     = Ok "resized_output.pdf"
  /\ fst (Mergepdf.get_output_name (with_stdin world_folder [" Scan.PDF "]))
     = Ok "Scan.PDF"
  /\ fst (Resizepdf.get_output_name (with_stdin world_folder ["a.pdf.txt"]))
     = Ok "a.pdf.txt.pdf".
Proof. vm_compute. repeat split; reflexivity. Qed.

(** X18: the two copies of [get_output_directory] behave alike; the call
    raises only when the input has run out, and the directory it returns
    is the default one or a path that exists when it returns. No file
    that existed is changed. *)
Theorem get_output_directory_result (P : platform) (default_dir : string)
    (w : world) :
  (Mergepdf.get_output_directory P default_dir w
   = Resizepdf.get_output_directory P default_dir w)
  /\ ((stdin w = []
       /\ Mergepdf.get_output_directory P default_dir w = (Raise EOFError, w))
      \/ exists dir w',
           Mergepdf.get_output_directory P default_dir w = (Ok dir, w')
           /\ (dir = default_dir \/ is_Some (fs w' !! dir))
           /\ (forall p n, fs w !! p = Some n -> fs w' !! p = Some n)).
Proof.
  split; [reflexivity|].
  unfold Mergepdf.get_output_directory. run_M.
  destruct (stdin w) as [|line rest]; [left; now split|]. right.
  destruct (PyStr.eqb (PyStr.strip line) ""); run_M.
  { eexists _, _. split; [reflexivity|]. split; [now left | auto]. }
  set (dir := PyStr.strip_chars
                (PyStr.strip_chars (PyStr.strip line) dquote) "'").
  destruct (bool_decide (is_Some (fs w !! dir))) eqn:Hex; run_M.
  { apply bool_decide_eq_true_1 in Hex.
    eexists _, _. split; [reflexivity|]. cbn [fs]. split; [now right | auto]. }
  match goal with
  | |- context [mkdir P dir ?w0] =>
      destruct (mkdir P dir w0) as [[[]|e] w1] eqn:Hmk
  end.
  - eexists _, _. split; [reflexivity|]. cbn [fs]. split.
    + right. rewrite (mkdir_made _ _ _ _ Hmk). eauto.
    + intros p n Hp.
      exact (only_dirs_added_lookup _ _ p n (mkdir_frame _ _ _ _ _ Hmk) Hp).
  - eexists _, _. split; [reflexivity|]. cbn [fs]. split; [now left|].
    intros p n Hp.
    exact (only_dirs_added_lookup _ _ p n (mkdir_frame _ _ _ _ _ Hmk) Hp).
Qed.

(** ** More on the geometry *)

Lemma from_int_convertible (n : Z) :
  convertible n = true -> exists x, Float.from_int n = Ok x.
Proof.
  unfold convertible. destruct (Float.from_int n); [eauto | discriminate].
Qed.

Lemma from_int_error (n : Z) (e : exn) :
  Float.from_int n = Raise e -> e = OverflowError /\ convertible n = false.
Proof.
  unfold convertible. intros H. rewrite H. split; [|reflexivity].
  unfold Float.from_int in H. destruct (Float.of_int n); congruence.
Qed.

Lemma div_error (a b : Float.float) (e : exn) :
  Float.div a b = Raise e -> e = ZeroDivisionError /\ Float.is_zero b = true.
Proof.
  unfold Float.div. destruct (Float.is_zero b); [|discriminate].
  intros [= <-]. split; reflexivity.
Qed.

Lemma div_nonzero (a b : Float.float) :
  Float.is_zero b = false -> Float.div a b = Ok (SFdiv Float.prec Float.emax a b).
Proof. unfold Float.div. now intros ->. Qed.

(** X20: on the floats of the script the geometry of a page is computed
    exactly when both targets convert to a float and neither side of the
    page is zero; otherwise [OverflowError] or [ZeroDivisionError] is
    raised, and nothing else. *)
Theorem page_geometry_float_defined_iff (target_width target_height : Z)
    (current_width current_height : Float.float) :
  ((exists g, page_geometry target_width target_height
                            current_width current_height = Ok g)
   <-> convertible target_width = true /\ convertible target_height = true
       /\ Float.is_zero current_width = false
       /\ Float.is_zero current_height = false)
  /\ (forall e, page_geometry target_width target_height
                              current_width current_height = Raise e ->
                e = OverflowError \/ e = ZeroDivisionError).
Proof.
  unfold page_geometry.
  destruct (Float.from_int target_width) as [tw|e1] eqn:Etw; cbn [rbind].
  2: { apply from_int_error in Etw as [-> Hc]. rewrite Hc. split.
       - split; [intros [g Hg]; discriminate Hg | intros [H _]; discriminate H].
       - intros e [= <-]. now left. }
  destruct (Float.div tw current_width) as [sx|e2] eqn:Esx; cbn [rbind].
  2: { apply div_error in Esx as [-> Hz]. rewrite Hz. split.
       - split; [intros [g Hg]; discriminate Hg
                | intros (_ & _ & H & _); discriminate H].
       - intros e [= <-]. now right. }
  destruct (Float.from_int target_height) as [th|e3] eqn:Eth; cbn [rbind].
  2: { apply from_int_error in Eth as [-> Hc]. rewrite Hc. split.
       - split; [intros [g Hg]; discriminate Hg
                | intros (_ & H & _); discriminate H].
       - intros e [= <-]. now left. }
  destruct (Float.div th current_height) as [sy|e4] eqn:Esy; cbn [rbind].
  2: { apply div_error in Esy as [-> Hz]. rewrite Hz. split.
       - split; [intros [g Hg]; discriminate Hg
                | intros (_ & _ & _ & H); discriminate H].
       - intros e [= <-]. now right. }
  change (Float.from_int 2) with (Ok (Float.of_int 2)). cbn [rbind].
  rewrite !div_nonzero by reflexivity. cbn [rbind].
  split; [|discriminate]. split; [|eauto].
  intros _. unfold convertible. rewrite Etw, Eth.
  unfold Float.div in Esx, Esy.
  destruct (Float.is_zero current_width); [discriminate Esx|].
  destruct (Float.is_zero current_height); [discriminate Esy|].
  repeat split.
Qed.

(** ** More on the resize *)

Lemma resize_page_world (P : platform) (target_width target_height : Z)
    (d : document) (p : page) (w : world) :
  snd (Resizepdf.resize_page P target_width target_height d p w) = w.
Proof.
  unfold Resizepdf.resize_page, Resizepdf.load_page.
  destruct (doc_load_error d); [reflexivity|]. run_M.
  destruct (Resizepdf.page_rect p) as [cw ch].
  run_M. destruct (page_geometry _ _ cw ch) as [g|]; [|reflexivity].
  unfold Resizepdf.get_pixmap, Resizepdf.insert_image.
  destruct (pixmap_error P p (scale g)); [reflexivity|]. run_M.
  destruct (insert_image_error P _ _ _ _); reflexivity.
Qed.

Lemma resize_pages_world (P : platform) (target_width target_height : Z)
    (d : document) (pages : list page) (w : world) :
  snd (mapM (Resizepdf.resize_page P target_width target_height d) pages w)
  = w.
Proof.
  induction pages as [|p pages IH]; [reflexivity|].
  cbn [mapM]. unfold bind at 1.
  pose proof (resize_page_world P target_width target_height d p w) as Hp.
  destruct (Resizepdf.resize_page P _ _ d p w) as [[out|e] w1];
    simpl in Hp; subst w1; [|reflexivity].
  unfold bind at 1.
  destruct (mapM _ pages w) as [[outs|e] w2]; simpl in IH; subst w2;
    reflexivity.
Qed.

(** What [resize_pdf] does once the directory of the output is there. *)
Lemma resize_pdf_from (P : platform)
    (input_path output_dir output_name : string)
    (target_width target_height : Z) (w w1 : world) :
  is_Some (fs w !! input_path) ->
  mkdir P output_dir w = (Ok tt, w1) ->
  exists (b : bool) (w' : world),
    Resizepdf.resize_pdf P input_path output_dir output_name
                         target_width target_height w = (Ok b, w')
    /\ stdin w' = stdin w
    /\ (if b
        then (exists pages,
                 fs w' = <[OsPath.join output_dir output_name :=
                             Pdf (Document pages None)]> (fs w1))
             /\ open_docs w'
                = (({[S (next_doc w)]} ∪ ({[next_doc w]} ∪ open_docs w))
                     ∖ {[next_doc w]}) ∖ {[S (next_doc w)]}
        else fs w' = fs w1
             /\ open_docs w'
                = match fs w !! input_path with
                  | Some (Pdf _) =>
                      {[S (next_doc w)]} ∪ ({[next_doc w]} ∪ open_docs w)
                  | _ => open_docs w
                  end).
Proof.
  intros Hex Hmk.
  pose proof (mkdir_frame _ _ _ _ _ Hmk) as Hframe.
  assert (Hsame : fs w1 !! input_path = fs w !! input_path).
  { destruct Hex as [n Hn]. rewrite Hn.
    exact (only_dirs_added_lookup _ _ _ _ Hframe Hn). }
  destruct Hframe as (Hin1 & _ & Hopen1 & Hnext1 & _).
  unfold Resizepdf.resize_pdf. run_M.
  rewrite bool_decide_eq_true_2 by exact Hex. cbn [negb].
  rewrite Hmk. rewrite Hsame.
  destruct (fs w !! input_path) as [[| |d|]|] eqn:Hin; run_M;
    rewrite ?Hin1, ?Hopen1, ?Hnext1.
  1,2,4,5: exists false; eexists; split; [reflexivity|];
    cbn [fs stdin open_docs]; repeat split; assumption.
  pose proof (resize_pages_world P target_width target_height d (doc_pages d)
                (World (fs w1) (stdin w) (stdout w1)
                   ({[S (next_doc w)]} ∪ ({[next_doc w]} ∪ open_docs w))
                   (S (S (next_doc w))))) as Hworld.
  match goal with
  | |- context [mapM ?f ?l ?w0] =>
      destruct (mapM f l w0) as [[pages|e] w2]
  end; simpl in Hworld; subst w2.
  2: { exists false. eexists. split; [reflexivity|]. cbn [fs stdin open_docs].
       repeat split. }
  unfold fitz_save. destruct pages as [|pg pgs].
  { run_M. exists false. eexists. split; [reflexivity|].
    cbn [fs stdin open_docs]. repeat split. }
  destruct (write_error P _).
  { run_M. exists false. eexists. split; [reflexivity|].
    cbn [fs stdin open_docs]. repeat split. }
  run_M.
  match goal with
  | |- context [<[?k := ?v]> ?m !! input_path] =>
      assert (Hstill : is_Some (<[k := v]> m !! input_path))
  end.
  { destruct (decide (OsPath.join output_dir output_name = input_path))
      as [->|Hne].
    - rewrite lookup_insert_eq. eauto.
    - rewrite lookup_insert_ne by exact Hne. rewrite Hsame. eauto. }
  destruct Hstill as [n ->].
  cbn [fs stdin stdout open_docs next_doc]. rewrite lookup_insert_eq.
  cbn [fs stdin stdout open_docs next_doc].
  exists true. eexists. split; [reflexivity|].
  cbn [fs stdin open_docs]. repeat split. eauto.
Qed.

Lemma resize_pdf_missing (P : platform)
    (input_path output_dir output_name : string)
    (target_width target_height : Z) (w : world) :
  fs w !! input_path = None ->
  Resizepdf.resize_pdf P input_path output_dir output_name
                       target_width target_height w
  = (Ok false,
     add_out w ["ERROR: File " +:+ input_path +:+ " does not exist!"]).
Proof.
  intros Hin. unfold Resizepdf.resize_pdf. run_M.
  rewrite bool_decide_eq_false_2; [reflexivity|].
  rewrite Hin. intros [n Hn]. discriminate Hn.
Qed.

(** X21: when [resize_pdf] returns [False] it has written no document:
    every file is as it was before, and what is new is a directory, the
    one of the output or one of its ancestors. *)
Theorem resize_failure_writes_no_file (P : platform)
    (input_path output_dir output_name : string)
    (target_width target_height : Z) (w w' : world) :
  Resizepdf.resize_pdf P input_path output_dir output_name
                       target_width target_height w = (Ok false, w') ->
  forall p,
    fs w' !! p = fs w !! p
    \/ (fs w !! p = None /\ fs w' !! p = Some Dir
        /\ In p (OsPath.ancestors output_dir ++ [output_dir])).
Proof.
  destruct (fs w !! input_path) as [n|] eqn:Hin.
  2: { rewrite (resize_pdf_missing P _ _ _ _ _ w Hin).
       intros [= <-] p. now left. }
  assert (Hex : is_Some (fs w !! input_path)) by (rewrite Hin; eauto).
  destruct (mkdir P output_dir w) as [[[]|e] w1] eqn:Hmk.
  - destruct (resize_pdf_from P input_path output_dir output_name
                target_width target_height w w1 Hex Hmk)
      as (b & w2 & -> & _ & Hb).
    intros [= -> ->]. destruct Hb as [-> _].
    exact (mkdir_adds _ _ _ _ _ Hmk).
  - rewrite (resize_pdf_mkdir_raise P _ _ _ _ _ _ w w1 Hex Hmk). discriminate.
Qed.

Lemma resize_failure_writes_no_file_witness :
  let w := set_file world_folder "/in/flat.pdf"
             (Pdf (Document [PdfPage (Float.of_int 0) (Float.of_int 792) "x"]
                            None)) in
  let w' := snd (Resizepdf.resize_pdf quiet_platform "/in/flat.pdf"
                   "/out/a/b" "small.pdf" 300 300 w) in
  fs w' !! "/out/a" = fs w !! "/out/a"
  \/ (fs w !! "/out/a" = None /\ fs w' !! "/out/a" = Some Dir
      /\ In "/out/a" (OsPath.ancestors "/out/a/b" ++ ["/out/a/b"])).
Proof.
  apply (resize_failure_writes_no_file quiet_platform "/in/flat.pdf"
           "/out/a/b" "small.pdf" 300 300
           (set_file world_folder "/in/flat.pdf"
              (Pdf (Document [PdfPage (Float.of_int 0) (Float.of_int 792) "x"]
                             None)))).
  vm_compute. reflexivity.
Defined.

(** The directories a failed resize leaves behind: the one asked for and
    those above it. *)
Example failed_resize_leaves_directories :
  let w := set_file world_folder "/in/flat.pdf"
             (Pdf (Document [PdfPage (Float.of_int 0) (Float.of_int 792) "x"]
                            None)) in
  let r := Resizepdf.resize_pdf quiet_platform "/in/flat.pdf" "/out/a/b"
                                "small.pdf" 300 300 w in
  fst r = Ok false
  /\ fs (snd r) !! "/out" = Some Dir
  /\ fs (snd r) !! "/out/a" = Some Dir
  /\ fs (snd r) !! "/out/a/b" = Some Dir
  /\ fs (snd r) !! "/out/a/b/small.pdf" = None.
Proof. vm_compute. repeat split; reflexivity. Qed.

(** A document that needs a password opens, and no page of it loads: the
    resize returns [False] and writes nothing. *)
Example resize_locked_document :
  let r := Resizepdf.resize_pdf quiet_platform "/in/locked.pdf" "/in"
                                "small.pdf" 300 300 world_folder in
  fst r = Ok false
  /\ fs (snd r) !! "/in/small.pdf" = None
  /\ stdout (snd r) = ["ERROR during process: document closed or encrypted"]
  /\ size (open_docs (snd r)) = 2%nat.
Proof. vm_compute. repeat split; reflexivity. Qed.

Lemma release_two (docs : gset nat) (n : nat) :
  (forall h, h ∈ docs -> (h < n)%nat) ->
  (({[S n]} ∪ ({[n]} ∪ docs)) ∖ {[n]}) ∖ {[S n]} = docs.
Proof.
  intros Hf. apply set_eq. intros x.
  rewrite !elem_of_difference, !elem_of_union, !elem_of_singleton.
  split.
  - intros [[[Hx | [Hx | Hx]] Hn] HS]; [contradiction | contradiction | exact Hx].
  - intros Hx. pose proof (Hf x Hx). repeat split; [auto | lia | lia].
Qed.

(** X22: a run of [resize_pdf] on a document that opens closes the two
    documents it opened when it returns [True], and leaves both open when
    it returns [False]: [close()] is called at the end of the [try] only. *)
Theorem resize_closes_on_success_only (P : platform)
    (input_path output_dir output_name : string)
    (target_width target_height : Z) (d : document) (b : bool)
    (w w' : world) :
  fresh w ->
  fs w !! input_path = Some (Pdf d) ->
  Resizepdf.resize_pdf P input_path output_dir output_name
                       target_width target_height w = (Ok b, w') ->
  open_docs w'
  = if b then open_docs w
    else {[S (next_doc w)]} ∪ ({[next_doc w]} ∪ open_docs w).
Proof.
  intros Hf Hin.
  assert (Hex : is_Some (fs w !! input_path)) by (rewrite Hin; eauto).
  destruct (mkdir P output_dir w) as [[[]|e] w1] eqn:Hmk.
  - destruct (resize_pdf_from P input_path output_dir output_name
                target_width target_height w w1 Hex Hmk)
      as (b' & w2 & -> & _ & Hb).
    intros [= -> ->]. rewrite Hin in Hb. destruct b.
    + destruct Hb as [_ ->]. apply release_two, Hf.
    + apply Hb.
  - rewrite (resize_pdf_mkdir_raise P _ _ _ _ _ _ w w1 Hex Hmk). discriminate.
Qed.

Lemma resize_closes_on_success_only_witness :
  let w := set_file world_folder "/in/flat.pdf"
             (Pdf (Document [PdfPage (Float.of_int 0) (Float.of_int 792) "x"]
                            None)) in
  open_docs (snd (Resizepdf.resize_pdf quiet_platform "/in/flat.pdf" "/in"
                    "small.pdf" 300 300 w))
  = {[S (next_doc w)]} ∪ ({[next_doc w]} ∪ open_docs w).
Proof.
  apply (resize_closes_on_success_only quiet_platform "/in/flat.pdf" "/in"
           "small.pdf" 300 300
           (Document [PdfPage (Float.of_int 0) (Float.of_int 792) "x"] None)
           false
           (set_file world_folder "/in/flat.pdf"
              (Pdf (Document [PdfPage (Float.of_int 0) (Float.of_int 792) "x"]
                             None)))).
  - intros h Hh. exfalso. exact (not_elem_of_empty (C:=gset nat) h Hh).
  - reflexivity.
  - vm_compute. reflexivity.
Defined.


(** ** The runs of [main] *)

Lemma same_files_refl (w : world) : same_files w w.
Proof. repeat split. Qed.

Lemma same_files_trans (w w1 w2 : world) :
  same_files w w1 -> same_files w1 w2 -> same_files w w2.
Proof. intros (A & B & C) (D & E & F). repeat split; congruence. Qed.

Lemma same_files_written (w w0 w' : world) :
  same_files w w0 -> no_document_written w0 w' -> no_document_written w w'.
Proof.
  intros (A & B & C) (D & E & F). repeat split; try congruence.
  intros p. rewrite <- A. apply F.
Qed.

Lemma no_document_written_trans (w w1 w2 : world) :
  no_document_written w w1 -> no_document_written w1 w2 ->
  no_document_written w w2.
Proof.
  intros (A1 & A2 & A3) (B1 & B2 & B3). repeat split; try congruence.
  intros p. destruct (A3 p) as [E | [E1 E2]], (B3 p) as [F | [F1 F2]].
  - left. congruence.
  - right. split; congruence.
  - right. split; congruence.
  - congruence.
Qed.

Lemma only_dirs_added_written (w w1 : world) :
  only_dirs_added w w1 -> no_document_written w w1.
Proof. intros (_ & _ & A & B & C). repeat split; assumption. Qed.

Lemma get_valid_folder_path_frame (w w' : world) (folder : string) :
  Mergepdf.get_valid_folder_path w = (Ok folder, w') -> same_files w w'.
Proof.
  unfold Mergepdf.get_valid_folder_path.
  generalize (S (length (stdin w))). intros n. revert w.
  induction n as [|n IH]; intros w; [discriminate|].
  cbn [Mergepdf.get_valid_folder_path_loop]. run_M.
  destruct (stdin w) as [|line rest]; [discriminate|]. run_M.
  destruct (fs w !! Mergepdf.clean_path line) as [[| | |]|]; run_M;
    try (intros H; apply IH in H; exact H).
  intros [= _ <-]. repeat split.
Qed.

Lemma get_valid_path_frame (w w' : world) (path : string) :
  Resizepdf.get_valid_path w = (Ok path, w') -> same_files w w'.
Proof.
  unfold Resizepdf.get_valid_path.
  generalize (S (length (stdin w))). intros n. revert w.
  induction n as [|n IH]; intros w; [discriminate|].
  cbn [Resizepdf.get_valid_path_loop]. run_M.
  destruct (stdin w) as [|line rest]; [discriminate|]. run_M.
  destruct (bool_decide (is_Some (fs w !! Resizepdf.clean_path line)));
    run_M.
  - destruct (PyStr.endswith (PyStr.lower (Resizepdf.clean_path line)) ".pdf");
      run_M.
    + intros [= _ <-]. repeat split.
    + intros H. apply IH in H. exact H.
  - intros H. apply IH in H. exact H.
Qed.

Lemma get_valid_dimension_round_frame (w w1 : world) (r : option Z) :
  Resizepdf.get_valid_dimension_round w = (Ok r, w1) -> same_files w w1.
Proof.
  unfold Resizepdf.get_valid_dimension_round. run_M.
  destruct (stdin w) as [|line rest]; [discriminate|]. run_M.
  destruct (PyStr.int (PyStr.strip line)) as [value|e]; run_M.
  - destruct (0 <? value); run_M; intros [= _ <-]; repeat split.
  - destruct e; run_M; try discriminate; intros [= _ <-]; repeat split.
Qed.

Lemma get_valid_dimension_frame (w w' : world) (value : Z) :
  Resizepdf.get_valid_dimension w = (Ok value, w') -> same_files w w'.
Proof.
  unfold Resizepdf.get_valid_dimension.
  generalize (S (length (stdin w))). intros n. revert w.
  induction n as [|n IH]; intros w; [discriminate|].
  cbn [Resizepdf.get_valid_dimension_loop]. unfold bind at 1.
  destruct (Resizepdf.get_valid_dimension_round w) as [[r|e] w1] eqn:Hround;
    [|discriminate].
  apply get_valid_dimension_round_frame in Hround.
  destruct r as [v|].
  - unfold ret. intros [= _ <-]. exact Hround.
  - intros H. apply IH in H. exact (same_files_trans _ _ _ Hround H).
Qed.

Lemma get_output_name_reads (line : string) (rest : list string)
    (w : world) :
  stdin w = line :: rest ->
  (exists name, Mergepdf.get_output_name w = (Ok name, with_stdin w rest))
  /\ (exists name, Resizepdf.get_output_name w = (Ok name, with_stdin w rest)).
Proof.
  intros Hin. unfold Mergepdf.get_output_name, Resizepdf.get_output_name.
  run_M. rewrite Hin. unfold with_stdin.
  destruct (PyStr.eqb (PyStr.strip line) ""); [split; eauto|].
  destruct (negb (PyStr.endswith (PyStr.lower (PyStr.strip line)) ".pdf"));
    split; eauto.
Qed.

Lemma get_output_directory_cases (P : platform) (default_dir line : string)
    (rest : list string) (w : world) :
  stdin w = line :: rest ->
  exists dir w1,
    Resizepdf.get_output_directory P default_dir w = (Ok dir, w1)
    /\ stdin w1 = rest /\ no_document_written w w1.
Proof.
  intros Hin. unfold Resizepdf.get_output_directory. run_M. rewrite Hin.
  run_M.
  destruct (PyStr.eqb (PyStr.strip line) ""); run_M.
  { eexists _, _. split; [reflexivity|]. repeat split. cbn [fs]. auto. }
  set (dir := PyStr.strip_chars
                (PyStr.strip_chars (PyStr.strip line) dquote) "'").
  destruct (bool_decide (is_Some (fs w !! dir))) eqn:Hex; run_M.
  { eexists _, _. split; [reflexivity|]. repeat split. cbn [fs]. auto. }
  match goal with
  | |- context [mkdir P dir ?w0] =>
      destruct (mkdir P dir w0) as [[[]|e] w1] eqn:Hmk
  end;
    apply mkdir_frame in Hmk as (H1 & H2 & H3 & H4 & H5);
    eexists _, _; (split; [reflexivity|]);
    cbn [fs stdin stdout open_docs next_doc] in *;
    repeat split; assumption.
Qed.

Lemma merge_run_cancel (P : platform) (pdf_files cbz_files : list string)
    (output_path confirm : string) (rest : list string) (w : world) :
  stdin w = confirm :: rest ->
  PyStr.lower (PyStr.strip confirm) = "no" ->
  Mergepdf.run P pdf_files cbz_files output_path w
  = (Ok tt, add_out (with_stdin w rest) ["Operation cancelled by user."]).
Proof.
  intros Hin Hno. unfold Mergepdf.run, with_stdin, add_out. run_M.
  rewrite Hin, Hno. reflexivity.
Qed.

(** X24: an answer that reads [no] once the spaces around it are dropped
    and its letters are lowered cancels the run of either tool. No
    document has been written or opened by then, and every file is as it
    was; but the output directory has been asked for before the
    confirmation, so directories may have been made. *)
Theorem cancel_writes_no_document (P : platform)
    (name_line dir_line confirm : string) (rest : list string) :
  PyStr.lower (PyStr.strip confirm) = "no" ->
  (forall (w w0 : world) (folder_path : string),
     Mergepdf.get_valid_folder_path w = (Ok folder_path, w0) ->
     stdin w0 = name_line :: dir_line :: confirm :: rest ->
     exists w',
       Mergepdf.main P w = (Ok tt, w') /\ no_document_written w w')
  /\ (forall (w w0 w1 w2 : world) (input_path : string)
             (target_width target_height : Z),
        Resizepdf.get_valid_path w = (Ok input_path, w0) ->
        Resizepdf.get_valid_dimension w0 = (Ok target_width, w1) ->
        Resizepdf.get_valid_dimension w1 = (Ok target_height, w2) ->
        stdin w2 = name_line :: dir_line :: confirm :: rest ->
        exists w',
          Resizepdf.main P w = (Ok tt, w')
          /\ stdin w' = rest /\ no_document_written w w').
Proof.
  intros Hno. split.
  - intros w w0 folder_path Hfolder Hin.
    pose proof (get_valid_folder_path_frame _ _ _ Hfolder) as Hframe.
    unfold Mergepdf.main. unfold bind at 1. rewrite Hfolder.
    assert (Htail : exists w',
               (do output_name <- Mergepdf.get_output_name;
                do output_dir <- Mergepdf.get_output_directory P folder_path;
                Mergepdf.run P
                  (Mergepdf.find_files_recursively P folder_path [".pdf"])
                  (Mergepdf.find_files_recursively P folder_path [".cbz"])
                  (OsPath.join output_dir output_name)) w0 = (Ok tt, w')
               /\ no_document_written w0 w').
    { unfold bind at 1.
      destruct (get_output_name_reads name_line _ w0 Hin) as [[name ->] _].
      unfold bind at 1.
      destruct (get_output_directory_cases P folder_path dir_line
                  (confirm :: rest)
                  (with_stdin w0 (dir_line :: confirm :: rest)) eq_refl)
        as (dir & w1 & Hdir & Hin1 & Hw1).
      change (Mergepdf.get_output_directory P folder_path)
        with (Resizepdf.get_output_directory P folder_path).
      rewrite Hdir.
      rewrite (merge_run_cancel P _ _ _ confirm rest w1 Hin1 Hno).
      eexists. split; [reflexivity|].
      destruct Hw1 as (A & B & C). repeat split; assumption. }
    destruct Htail as (w' & Htail & Hw').
    destruct (Mergepdf.find_files_recursively P folder_path [".pdf"]),
             (Mergepdf.find_files_recursively P folder_path [".cbz"]).
    + eexists. split; [reflexivity|].
      destruct Hframe as (A & B & C). repeat split; cbn; auto.
      intros p. left. now rewrite A.
    + exists w'. split; [exact Htail | exact (same_files_written _ _ _ Hframe Hw')].
    + exists w'. split; [exact Htail | exact (same_files_written _ _ _ Hframe Hw')].
    + exists w'. split; [exact Htail | exact (same_files_written _ _ _ Hframe Hw')].
  - intros w w0 w1 w2 input_path target_width target_height
           Hpath Hwidth Hheight Hin.
    pose proof (same_files_trans _ _ _
                  (same_files_trans _ _ _
                     (get_valid_path_frame _ _ _ Hpath)
                     (get_valid_dimension_frame _ _ _ Hwidth))
                  (get_valid_dimension_frame _ _ _ Hheight)) as Hframe.
    unfold Resizepdf.main. unfold bind at 1. rewrite Hpath.
    unfold bind at 1. rewrite Hwidth. unfold bind at 1. rewrite Hheight.
    unfold bind at 1.
    destruct (get_output_name_reads name_line _ w2 Hin) as [_ [name ->]].
    unfold Resizepdf.run. unfold bind at 1.
    destruct (get_output_directory_cases P (OsPath.dirname input_path)
                dir_line (confirm :: rest)
                (with_stdin w2 (dir_line :: confirm :: rest)) eq_refl)
      as (dir & w3 & -> & Hin3 & Hw3).
    run_M. rewrite Hin3, Hno. run_M.
    eexists. split; [reflexivity|]. split; [reflexivity|].
    apply (same_files_written _ _ _ Hframe).
    destruct Hw3 as (A & B & C). repeat split; assumption.
Qed.

Lemma cancel_writes_no_document_witness :
  (forall (w w0 : world) (folder_path : string),
     Mergepdf.get_valid_folder_path w = (Ok folder_path, w0) ->
     stdin w0 = "out" :: "/new/dir" :: "  No " :: ["x"] ->
     exists w',
       Mergepdf.main folder_platform w = (Ok tt, w')
       /\ no_document_written w w')
  /\ (forall (w w0 w1 w2 : world) (input_path : string)
             (target_width target_height : Z),
        Resizepdf.get_valid_path w = (Ok input_path, w0) ->
        Resizepdf.get_valid_dimension w0 = (Ok target_width, w1) ->
        Resizepdf.get_valid_dimension w1 = (Ok target_height, w2) ->
        stdin w2 = "out" :: "/new/dir" :: "  No " :: ["x"] ->
        exists w',
          Resizepdf.main folder_platform w = (Ok tt, w')
          /\ stdin w' = ["x"] /\ no_document_written w w').
Proof.
  apply (cancel_writes_no_document folder_platform "out" "/new/dir" "  No "
           ["x"]).
  reflexivity.
Defined.

(** A cancelled run of each tool leaves the directories that were typed
    behind, and no document. *)
Example cancelled_runs_keep_directories :
  let m := Mergepdf.main folder_platform
             (with_stdin world_folder ["/in"; "out"; "/new/dir"; "no"]) in
  let r := Resizepdf.main folder_platform
             (with_stdin world_folder
                ["/in/part1.pdf"; "300"; "300"; "small"; "/new/dir"; "no"]) in
  fst m = Ok tt
  /\ fs (snd m) !! "/new" = Some Dir
  /\ fs (snd m) !! "/new/dir" = Some Dir
  /\ fs (snd m) !! "/new/dir/out.pdf" = None
  /\ fst r = Ok tt
  /\ fs (snd r) !! "/new" = Some Dir
  /\ fs (snd r) !! "/new/dir" = Some Dir
  /\ fs (snd r) !! "/new/dir/small.pdf" = None.
Proof. vm_compute. repeat split; reflexivity. Qed.

Lemma rmapM_keyed_error (l : list string) (e : exn) :
  rmapM (fun x => k <-? natural_sort_key x; Ok (k, x)) l = Raise e ->
  exists x, In x l /\ natural_sort_key x = Raise e.
Proof.
  induction l as [|x l IH]; simpl; [discriminate|].
  destruct (natural_sort_key x) as [k|e1] eqn:Hk; simpl.
  - destruct (rmapM _ l) as [ks|e2]; simpl; [discriminate|].
    intros [= <-]. destruct (IH eq_refl) as (y & Hy & He). eauto.
  - intros [= <-]. eauto.
Qed.

Lemma rmapM_key_error (l : list string) (e : exn) :
  rmapM key_of_text l = Raise e ->
  e = PyStr.invalid_literal \/ e = PyStr.digit_limit.
Proof.
  induction l as [|p l IH]; simpl; [discriminate|].
  destruct (key_of_text p) as [t|e1] eqn:Hp; simpl.
  - destruct (rmapM key_of_text l) as [k|e2]; simpl; [discriminate|].
    intros [= <-]. now apply IH.
  - intros [= <-]. unfold key_of_text in Hp.
    destruct (PyStr.isdigit p); [|discriminate Hp].
    destruct (PyStr.int p) as [n|e2] eqn:Hint; [discriminate Hp|].
    simpl in Hp. injection Hp as <-. exact (int_error p e2 Hint).
Qed.

Lemma list_sort_error (l : list string) (e : exn) :
  list_sort natural_sort_key l = Raise e ->
  (e = PyStr.invalid_literal \/ e = PyStr.digit_limit)
  /\ exists x, In x l /\ natural_sort_key x = Raise e.
Proof.
  unfold list_sort.
  destruct (rmapM _ l) as [ks|e1] eqn:Hks; simpl.
  - destruct (rmapM_keyed l ks Hks) as [_ Hf].
    assert (Halt : Forall keyed_alt ks).
    { apply (Forall_impl _ _ _ Hf). intros p Hp.
      apply (natural_sort_key_alternates (snd p)), Hp. }
    destruct (sort_keyed_spec ks Halt) as (ks' & -> & _). discriminate.
  - intros [= <-]. apply rmapM_keyed_error in Hks as (x & Hx & He).
    split; [exact (rmapM_key_error _ _ He) | eauto].
Qed.

Lemma convert_all_result (P : platform) (cbz_files : list string) :
  forall (pdf_files : list string) (w : world),
  exists found w',
    Mergepdf.convert_all P cbz_files pdf_files w = (Ok found, w').
Proof.
  induction cbz_files as [|cbz rest IH]; intros pdf_files w.
  - exists pdf_files, w. reflexivity.
  - cbn [Mergepdf.convert_all]. unfold bind at 1.
    destruct (cbz_to_pdf_never_raises P cbz
                (fst (OsPath.splitext cbz) +:+ ".pdf") w) as (r & w1 & ->).
    destruct r as [out|]; [|apply IH].
    destruct (Mergepdf.truthy (Some out)); apply IH.
Qed.

(** X25: [main] of the merge tool sorts the paths outside every [try]:
    from the confirmation on, the only exceptions a run lets out are the
    end of the input and the [ValueError] of [natural_sort_key] for a
    path that has no key (one with superscript digits alone between two
    runs of decimal digits, or with a run of more than 4300 digits); a
    failure of the merge or of the save is reported and the run returns. *)
Theorem merge_run_lets_out (P : platform) (pdf_files cbz_files : list string)
    (output_path : string) (e : exn) (w w' : world) :
  Mergepdf.run P pdf_files cbz_files output_path w = (Raise e, w') ->
  (e = EOFError /\ stdin w = [] /\ w' = w)
  \/ ((e = PyStr.invalid_literal \/ e = PyStr.digit_limit)
      /\ exists found,
           fst (Mergepdf.convert_all P cbz_files pdf_files
                  (with_stdin w (tail (stdin w)))) = Ok found
           /\ exists x, In x found /\ natural_sort_key x = Raise e).
Proof.
  unfold Mergepdf.run. unfold bind at 1. unfold input.
  destruct (stdin w) as [|confirm rest] eqn:Hin.
  { intros [= <- <-]. left. repeat split. }
  destruct (PyStr.eqb (PyStr.lower (PyStr.strip confirm)) "no");
    [run_M; discriminate|].
  unfold bind at 1. unfold with_stdin. cbn [tail].
  destruct (convert_all_result P cbz_files pdf_files
              (World (fs w) rest (stdout w) (open_docs w) (next_doc w)))
    as (found & w1 & ->).
  unfold bind at 1. unfold lift.
  destruct (list_sort natural_sort_key found) as [sorted|e1] eqn:Hsort.
  - destruct (try_except_returns
                (Mergepdf.merge_pdfs_high_quality P sorted output_path ;;
                 getsize output_path ;;
                 print "Process completed successfully!")
                (fun e0 => print ("ERROR: Could not save merged PDF: "
                                  +:+ str_of_exn e0)) w1)
      as (a & w2 & ->); [|discriminate].
    intros e0 w0. run_M. eauto.
  - intros [= <- <-]. right.
    apply list_sort_error in Hsort as [He Hx].
    split; [exact He|]. exists found. split; [reflexivity | exact Hx].
Qed.

Lemma merge_run_lets_out_witness :
  let bad := "/in/1" +:+ String "178" "3.pdf" in
  let w := with_stdin world_folder [""] in
  (PyStr.invalid_literal = EOFError /\ stdin w = []
   /\ snd (Mergepdf.run folder_platform [bad] [] "/in/out.pdf" w) = w)
  \/ ((PyStr.invalid_literal = PyStr.invalid_literal
       \/ PyStr.invalid_literal = PyStr.digit_limit)
      /\ exists found,
           fst (Mergepdf.convert_all folder_platform [] [bad]
                  (with_stdin w (tail (stdin w)))) = Ok found
           /\ exists x, In x found
                        /\ natural_sort_key x = Raise PyStr.invalid_literal).
Proof.
  apply (merge_run_lets_out folder_platform
           ["/in/1" +:+ String "178" "3.pdf"] [] "/in/out.pdf"
           PyStr.invalid_literal (with_stdin world_folder [""])).
  vm_compute. reflexivity.
Defined.
